(** * Positions grid client (frontend/app.js): selection store, hedge protocol
    and change-detecting poll loop, as a shallow embedding.

    The page is modelled as an explicit state record (the ambient globals
    [window._prevDataJSON], [window._selectedCells], [_isLoading] and the
    part of the DOM the script reads and writes).  Everything asynchronous
    is driven by an explicit environment: what the backend answers and what
    the operator types at a prompt.

    Modelling conventions.
    - JavaScript strings are [string]s of code units below 128; the only
      white space is TAB, LF, VT, FF, CR and SPACE.
    - JavaScript numbers are exact decimals [m * 10^e]: IEEE rounding of
      long mantissas is outside the model, underflow to zero and overflow
      to Infinity are decided exactly.  The lots of a snapshot and the
      numbers of a JSON body are integers, and an integer is written and
      read digit by digit.  This is what the code does for the integers a
      double holds exactly ([safe_integer]); what is proved about the text
      of a number is stated for those.
    - DOM elements live in a heap indexed by element id, so that the
      references kept in [window._selectedCells] alias the grid's cells.
    - A snapshot is the typed body of the positions endpoint: contracts
      are strings, rows have a name and a list of lots.
    - A call of [loadPositions] is split where it awaits its request.  A
      run of [applyHedgeFromSelection] is modelled twice: among the other
      handlers, which run at each of its awaits, and with a direct [eval]
      that can change the payload and the page ([Concurrent]); and on its
      own, with nothing else running and texts without side effects, which
      is the special case the events of a page use. *)

From Stdlib Require Import ZArith Lia Ascii String DecimalString DecimalPos.
From stdpp Require Import base list strings.

Set Warnings "-register-all".
Local Open Scope Z_scope.

(** ** JavaScript built-ins used by the script *)

Module JS.

(** *** Characters and strings *)

Definition code (c : ascii) : Z := Z.of_nat (nat_of_ascii c).

Definition is_ws (c : ascii) : bool :=
  let n := code c in ((9 <=? n) && (n <=? 13)) || (n =? 32).

Definition is_digit (c : ascii) : bool :=
  let n := code c in (48 <=? n) && (n <=? 57).

Definition digit_val (c : ascii) : Z := code c - 48.

(** Value of a hexadecimal digit, [None] for any other character. *)
Definition hex_val (c : ascii) : option Z :=
  let n := code c in
  if (48 <=? n) && (n <=? 57) then Some (n - 48)
  else if (65 <=? n) && (n <=? 70) then Some (n - 55)
  else if (97 <=? n) && (n <=? 102) then Some (n - 87)
  else None.

Fixpoint trim_start (s : string) : string :=
  match s with
  | String c r => if is_ws c then trim_start r else s
  | EmptyString => EmptyString
  end.

Fixpoint trim_end (s : string) : string :=
  match s with
  | String c r =>
      match trim_end r with
      | EmptyString => if is_ws c then EmptyString else String c EmptyString
      | r' => String c r'
      end
  | EmptyString => EmptyString
  end.

(** [String.prototype.trim]. *)
Definition trim (s : string) : string := trim_end (trim_start s).

(** Longest prefix of decimal digits, as its value, its length and the rest. *)
Fixpoint take_digits (acc : Z) (n : nat) (s : string) : Z * nat * string :=
  match s with
  | String c r =>
      if is_digit c then take_digits (10 * acc + digit_val c) (S n) r
      else (acc, n, s)
  | EmptyString => (acc, n, s)
  end.

(** Decimal rendering of an integer, as [String(n)] gives it for a safe
    integer. *)
Definition string_of_Z (z : Z) : string := NilEmpty.string_of_int (Z.to_int z).

(** *** parseInt(s, 10) *)

(** [None] is NaN.  Leading white space is skipped, one sign is read, and
    the longest run of decimal digits that follows is the value; whatever
    comes after the digits is ignored. *)
Definition parseInt10 (s : string) : option Z :=
  let t := trim_start s in
  let '(neg, body) :=
    match t with
    | String "-" r => (true, r)
    | String "+" r => (false, r)
    | _ => (false, t)
    end in
  let '(v, n, _) := take_digits 0 0 body in
  match n with
  | O => None
  | S _ => Some (if neg then - v else v)
  end.

(** *** Numbers: Number(s) and String(n) *)

Inductive num : Type :=
  | NaN
  | Inf (neg : bool)
  | Fin (m : Z) (e : Z).      (* the value m * 10^e; -0 is Fin 0 _ *)

(** A finite decimal that a double rounds to zero: |m * 10^e| <= 2^-1075. *)
Definition underflows (m e : Z) : bool :=
  (e <? 0) && (Z.abs m * 2 ^ 1075 <=? 10 ^ (- e)).

(** A finite decimal that a double rounds to an infinity:
    |m * 10^e| >= 2^1024 - 2^970. *)
Definition overflows (m e : Z) : bool :=
  if 0 <=? e then 2 ^ 1024 - 2 ^ 970 <=? Z.abs m * 10 ^ e
  else (2 ^ 1024 - 2 ^ 970) * 10 ^ (- e) <=? Z.abs m.

Definition round_range (m e : Z) : num :=
  if m =? 0 then Fin 0 0
  else if underflows m e then Fin 0 0
  else if overflows m e then Inf (m <? 0)
  else Fin m e.

Fixpoint all_digits_in (radix : Z) (acc : Z) (s : string) : option Z :=
  match s with
  | EmptyString => Some acc
  | String c r =>
      match hex_val c with
      | Some d => if d <? radix then all_digits_in radix (radix * acc + d) r
                  else None
      | None => None
      end
  end.

(** 0x.., 0o.., 0b.. literals: a prefix and at least one digit. *)
Definition nondecimal (s : string) : option (option Z) :=
  match s with
  | String "0" (String p r) =>
      let radix :=
        if (p =? "x")%char || (p =? "X")%char then Some 16
        else if (p =? "o")%char || (p =? "O")%char then Some 8
        else if (p =? "b")%char || (p =? "B")%char then Some 2
        else None in
      match radix with
      | Some rx =>
          Some (match r with
                | EmptyString => None
                | _ => all_digits_in rx 0 r
                end)
      | None => None
      end
  | _ => None
  end.

(** The exponent part [e[+-]digits] running to the end of the text. *)
Definition exponent_part (s : string) : option Z :=
  match s with
  | EmptyString => Some 0
  | String c r =>
      if (c =? "e")%char || (c =? "E")%char then
        let '(neg, body) :=
          match r with
          | String "-" r' => (true, r')
          | String "+" r' => (false, r')
          | _ => (false, r)
          end in
        match take_digits 0 0 body with
        | (_, O, _) => None
        | (v, S _, EmptyString) => Some (if neg then - v else v)
        | (_, S _, String _ _) => None
        end
      else None
  end.

(** StrUnsignedDecimalLiteral other than Infinity. *)
Definition unsigned_decimal (s : string) : option (Z * Z) :=
  let '(ip, ni, r1) := take_digits 0 0 s in
  match r1 with
  | String "." r2 =>
      let '(m, nf, r3) := take_digits ip 0 r2 in
      match ni, nf with
      | O, O => None
      | _, _ =>
          match exponent_part r3 with
          | Some x => Some (m, x - Z.of_nat nf)
          | None => None
          end
      end
  | _ =>
      match ni with
      | O => None
      | S _ =>
          match exponent_part r1 with
          | Some x => Some (ip, x)
          | None => None
          end
      end
  end.

(** [Number(s)] for a string [s] (StringToNumber). *)
Definition Number (s : string) : num :=
  let t := trim s in
  match t with
  | EmptyString => Fin 0 0
  | _ =>
      match nondecimal t with
      | Some (Some v) => round_range v 0
      | Some None => NaN
      | None =>
          let '(neg, body) :=
            match t with
            | String "-" r => (true, r)
            | String "+" r => (false, r)
            | _ => (false, t)
            end in
          if String.eqb body "Infinity" then Inf neg
          else match unsigned_decimal body with
               | Some (m, e) => round_range (if neg then - m else m) e
               | None => NaN
               end
      end
  end.

(** [x || 0] for a number [x]: NaN and the zeros are falsy. *)
Definition or_zero (x : num) : num :=
  match x with
  | NaN => Fin 0 0
  | Inf _ => x
  | Fin m e => if m =? 0 then Fin 0 0 else x
  end.

(** Mantissa without trailing zeros ([fuel] bounds the number of digits). *)
Fixpoint strip_zeros (fuel : nat) (m e : Z) : Z * Z :=
  match fuel with
  | O => (m, e)
  | S f => if (m mod 10 =? 0) && negb (m =? 0) then strip_zeros f (m / 10) (e + 1)
           else (m, e)
  end.

Fixpoint zeros (n : nat) : string :=
  match n with O => EmptyString | S k => String "0" (zeros k) end.

Fixpoint split_at (n : nat) (s : string) : string * string :=
  match n, s with
  | S k, String c r => let '(a, b) := split_at k r in (String c a, b)
  | _, _ => (EmptyString, s)
  end.

(** [String(x)] (Number::toString, radix 10) on the digits of the decimal. *)
Definition String_of_num (x : num) : string :=
  match x with
  | NaN => "NaN"
  | Inf neg => if neg then "-Infinity" else "Infinity"
  | Fin m0 e0 =>
      if m0 =? 0 then "0"
      else
        let '(m, e) := strip_zeros (Z.to_nat (Z.log2 (Z.abs m0)) + 1) m0 e0 in
        let ds := string_of_Z (Z.abs m) in
        let k := Z.of_nat (String.length ds) in
        let n := k + e in
        let sign := if m <? 0 then "-" else "" in
        sign +:+
        (if (k <=? n) && (n <=? 21) then ds +:+ zeros (Z.to_nat (n - k))
         else if (0 <? n) && (n <=? 21) then
           let '(a, b) := split_at (Z.to_nat n) ds in a +:+ "." +:+ b
         else if (-6 <? n) && (n <=? 0) then
           "0." +:+ zeros (Z.to_nat (- n)) +:+ ds
         else
           let x := n - 1 in
           let xs := (if x <? 0 then "-" else "+") +:+ string_of_Z (Z.abs x) in
           match ds with
           | String d EmptyString => String d EmptyString +:+ "e" +:+ xs
           | String d r => String d EmptyString +:+ "." +:+ r +:+ "e" +:+ xs
           | EmptyString => EmptyString
           end)
  end.

(** The value sanitisation of an [<input type=number>]: a text that is not
    a valid floating-point number (HTML) reads back as the empty string. *)
Definition valid_float (s : string) : bool :=
  let body := match s with String "-" r => r | _ => s end in
  let '(_, ni, r1) := take_digits 0 0 body in
  let after_frac :=
    match r1 with
    | String "." r2 =>
        match take_digits 0 0 r2 with
        | (_, O, _) => None
        | (_, S _, r3) => Some (true, r3)
        end
    | _ => Some (false, r1)
    end in
  match after_frac with
  | None => false
  | Some (frac, r3) =>
      match ni, frac with
      | O, false => false
      | _, _ =>
          match r3 with
          | EmptyString => true
          | _ => match exponent_part r3 with Some _ => true | None => false end
          end
      end
  end.

Definition sanitize_number_input (s : string) : string :=
  if valid_float s then s else EmptyString.

(** *** Values: what JSON.parse returns, plus undefined *)

Inductive value : Type :=
  | VUndefined
  | VNull
  | VBool (b : bool)
  | VNum (n : Z)
  | VStr (s : string)
  | VArr (items : list value)
  | VObj (fields : list (string * value)).   (* one entry per key *)

Definition truthy (v : value) : bool :=
  match v with
  | VUndefined | VNull => false
  | VBool b => b
  | VNum n => negb (n =? 0)
  | VStr s => negb (String.eqb s "")
  | VArr _ | VObj _ => true
  end.

Definition isArray (v : value) : bool :=
  match v with VArr _ => true | _ => false end.

Fixpoint assoc (k : string) (fields : list (string * value)) : value :=
  match fields with
  | [] => VUndefined
  | (k', v) :: rest => if String.eqb k k' then v else assoc k rest
  end.

(** [v.k] for one of the data properties the script reads.  [None] is the
    TypeError raised when [v] is null or undefined. *)
Definition get (v : value) (k : string) : option value :=
  match v with
  | VUndefined | VNull => None
  | VObj fields => Some (assoc k fields)
  | _ => Some VUndefined
  end.

(** Message of the TypeError raised by reading property [k] of null, in
    the wording of V8. *)
Definition type_error (k : string) : string :=
  "Cannot read properties of null (reading '" +:+ k +:+ "')".

(** [v === s] for a string literal [s]. *)
Definition is_str (v : value) (s : string) : bool :=
  match v with VStr t => String.eqb t s | _ => false end.

(** ToString, as string concatenation and template literals apply it. *)
Fixpoint to_string (v : value) : string :=
  match v with
  | VUndefined => "undefined"
  | VNull => "null"
  | VBool b => if b then "true" else "false"
  | VNum n => string_of_Z n
  | VStr s => s
  | VArr items =>
      (fix join (l : list value) : string :=
         match l with
         | [] => ""
         | x :: r =>
             (match x with VUndefined | VNull => "" | _ => to_string x end)
             +:+ (match r with [] => "" | _ => "," +:+ join r end)
         end) items
  | VObj _ => "[object Object]"
  end.

Definition dquote : string := String "034"%char EmptyString.
Definition backslash : string := String "092"%char EmptyString.

Definition hex_digit (n : Z) : string :=
  String (ascii_of_nat (Z.to_nat (if n <? 10 then 48 + n else 87 + n))) EmptyString.

Definition escape_char (c : ascii) : string :=
  let n := code c in
  if n =? 34 then backslash +:+ dquote
  else if n =? 92 then backslash +:+ backslash
  else if n =? 8 then backslash +:+ "b"
  else if n =? 9 then backslash +:+ "t"
  else if n =? 10 then backslash +:+ "n"
  else if n =? 12 then backslash +:+ "f"
  else if n =? 13 then backslash +:+ "r"
  else if n <? 32 then backslash +:+ "u00" +:+ hex_digit (n / 16) +:+ hex_digit (n mod 16)
  else String c EmptyString.

Fixpoint escape (s : string) : string :=
  match s with
  | EmptyString => EmptyString
  | String c r => escape_char c +:+ escape r
  end.

(** QuoteJSONString. *)
Definition quote (s : string) : string := dquote +:+ escape s +:+ dquote.

(** [JSON.stringify(v)]; [None] is the result undefined. *)
Fixpoint stringify (v : value) : option string :=
  match v with
  | VUndefined => None
  | VNull => Some "null"
  | VBool b => Some (if b then "true" else "false")
  | VNum n => Some (string_of_Z n)
  | VStr s => Some (quote s)
  | VArr items =>
      Some ("[" +:+
        (fix elems (l : list value) : string :=
           match l with
           | [] => ""
           | x :: r =>
               default "null" (stringify x)
               +:+ (match r with [] => "" | _ => "," +:+ elems r end)
           end) items
        +:+ "]")
  | VObj fields =>
      Some ("{" +:+
        (fix members (first : bool) (l : list (string * value)) : string :=
           match l with
           | [] => ""
           | (k, x) :: r =>
               match stringify x with
               | Some t =>
                   (if first then "" else ",") +:+ quote k +:+ ":" +:+ t
                   +:+ members false r
               | None => members first r
               end
           end) true fields
        +:+ "}")
  end.

End JS.

(** ** The page: snapshots, DOM and ambient state *)

(** A row of the positions endpoint, [{name, lots}]. *)
Record Row := { name : string; lots : list Z }.

(** The body of GET /api/positions/{product} after [data.contracts || []]
    and [data.rows || []]. *)
Record Snapshot := { contracts : list string; rows : list Row }.

Definition row_value (r : Row) : JS.value :=
  JS.VObj [("name", JS.VStr (name r)); ("lots", JS.VArr (JS.VNum <$> lots r))].

(** [JSON.stringify({ contracts, rows })], the change-detection
    fingerprint; a lot is written as its decimal text, as the code writes
    a safe integer. *)
Definition dataJSON (snap : Snapshot) : string :=
  default "" (JS.stringify
    (JS.VObj [("contracts", JS.VArr (JS.VStr <$> contracts snap));
              ("rows", JS.VArr (row_value <$> rows snap))])).

Inductive SpanClass := Zero | Positive | Negative.

(** A [div.cell.total-cell] element: its dataset, its one [span] child and
    the classes and listener the script puts on it. *)
Record Cell := {
  cell_structure : string;        (* dataset.structure *)
  cell_contract : string;         (* dataset.contract *)
  cell_text : string;             (* span.textContent *)
  cell_class : SpanClass;         (* span.className *)
  cell_selected : bool;           (* classList has 'selected' *)
  cell_disabled : bool;           (* classList has 'total-row-disabled' *)
  cell_clickable : bool           (* a click listener is attached *)
}.

(** An entry of [window._selectedCells]; [element] is the id of the cell
    element it refers to. *)
Record Selected := {
  key : string;
  structure : string;
  contract : string;
  element : nat;
  value : string
}.

(** What the [#positions-grid] container holds. *)
Inductive Region :=
  | Initial                                   (* the markup of the page *)
  | Message (text : string)                   (* one div.loading *)
  | Grid (headers : list string)              (* div.grid-table > div.grid *)
         (body : list (string * list nat))    (* row label, cell ids *)
         (scrollLeft : Z).

(** One [div.selected-item] of the selection panel. *)
Record Item := { item_label : string; item_input : string }.

(** What the [#selection-panel] holds: the items and the apply button. *)
Record Panel := { items : list Item; apply_button : option string }.

Definition empty_panel : Panel := {| items := []; apply_button := None |}.

Record Page := {
  product : option string;        (* #product-select value, if the element exists *)
  prevDataJSON : option string;   (* window._prevDataJSON; None is undefined/null *)
  selectedCells : list Selected;  (* window._selectedCells *)
  elems : list Cell;              (* every cell element created so far, by id *)
  container : option Region;      (* #positions-grid, if the element exists *)
  panel : option Panel            (* #selection-panel, if the element exists *)
}.

Definition with_prev (f : option string) (s : Page) : Page :=
  {| product := product s; prevDataJSON := f; selectedCells := selectedCells s;
     elems := elems s; container := container s; panel := panel s |}.

Definition with_container (c : option Region) (s : Page) : Page :=
  {| product := product s; prevDataJSON := prevDataJSON s;
     selectedCells := selectedCells s; elems := elems s;
     container := c; panel := panel s |}.

Definition with_panel (p : option Panel) (s : Page) : Page :=
  {| product := product s; prevDataJSON := prevDataJSON s;
     selectedCells := selectedCells s; elems := elems s;
     container := container s; panel := p |}.

Definition with_product (p : option string) (s : Page) : Page :=
  {| product := p; prevDataJSON := prevDataJSON s;
     selectedCells := selectedCells s; elems := elems s;
     container := container s; panel := panel s |}.

(** *** Cell elements *)

Definition set_selected (b : bool) (c : Cell) : Cell :=
  {| cell_structure := cell_structure c; cell_contract := cell_contract c;
     cell_text := cell_text c; cell_class := cell_class c;
     cell_selected := b; cell_disabled := cell_disabled c;
     cell_clickable := cell_clickable c |}.

Definition set_span (t : string) (k : SpanClass) (c : Cell) : Cell :=
  {| cell_structure := cell_structure c; cell_contract := cell_contract c;
     cell_text := t; cell_class := k;
     cell_selected := cell_selected c; cell_disabled := cell_disabled c;
     cell_clickable := cell_clickable c |}.

(** The body of the [cells.forEach] of [attachCellSelectionHandlers]: a
    cell of the "Total" row is styled as disabled and gets no listener. *)
Definition attach_one (c : Cell) : Cell :=
  if String.eqb (cell_structure c) "Total" then
    {| cell_structure := cell_structure c; cell_contract := cell_contract c;
       cell_text := cell_text c; cell_class := cell_class c;
       cell_selected := cell_selected c; cell_disabled := true;
       cell_clickable := cell_clickable c |}
  else
    {| cell_structure := cell_structure c; cell_contract := cell_contract c;
       cell_text := cell_text c; cell_class := cell_class c;
       cell_selected := cell_selected c; cell_disabled := cell_disabled c;
       cell_clickable := true |}.

(** The cell [buildGrid] creates for lot [l] of a row at column [idx]:
    [num = Number(l) || 0], blank when zero, and otherwise [String(num)],
    which for a safe integer is its decimal text. *)
Definition new_cell (cs : list string) (row_name : string) (idx : nat) (l : Z) : Cell :=
  {| cell_structure := row_name;
     cell_contract := default "" (cs !! idx);
     cell_text := if l =? 0 then "" else JS.string_of_Z l;
     cell_class := if l =? 0 then Zero else if 0 <? l then Positive else Negative;
     cell_selected := false; cell_disabled := false; cell_clickable := false |}.

(** *** Selection store *)

Definition remove_selected_class (h : list Cell) (sel : Selected) : list Cell :=
  alter (set_selected false) (element sel) h.

(** [clearSelection()]. *)
Definition clearSelection (s : Page) : Page :=
  {| product := product s; prevDataJSON := prevDataJSON s;
     selectedCells := [];
     elems := foldl remove_selected_class (elems s) (selectedCells s);
     container := container s;
     panel := match panel s with Some _ => Some empty_panel | None => None end |}.

Definition item_of (sel : Selected) : Item :=
  {| item_label := structure sel +:+ " — " +:+ contract sel;
     item_input := JS.sanitize_number_input (value sel) |}.

(** [renderSelectionPanel()].  When the product selector is missing the
    label of the apply button cannot be built: the panel has been emptied
    by then and stays empty. *)
Definition renderSelectionPanel (s : Page) : Page :=
  match panel s with
  | None => s
  | Some _ =>
      match selectedCells s with
      | [] => with_panel (Some empty_panel) s
      | _ =>
          match product s with
          | Some p =>
              with_panel
                (Some {| items := item_of <$> selectedCells s;
                         apply_button := Some ("Apply Hedge (" +:+ p +:+ ")") |}) s
          | None => with_panel (Some empty_panel) s
          end
      end
  end.

(** [findIndex(s => s.key === k)]. *)
Fixpoint findIndex (k : string) (l : list Selected) : option nat :=
  match l with
  | [] => None
  | sel :: r => if String.eqb (key sel) k then Some O else S <$> findIndex k r
  end.

(** [toggleCellSelection(cell)] for the cell element [id]. *)
Definition toggleCellSelection (id : nat) (s : Page) : Page :=
  match panel s, elems s !! id with
  | Some _, Some cell =>
      let k := cell_structure cell +:+ "||" +:+ cell_contract cell in
      match findIndex k (selectedCells s) with
      | Some idx =>
          renderSelectionPanel
            {| product := product s; prevDataJSON := prevDataJSON s;
               selectedCells := delete idx (selectedCells s);
               elems := match selectedCells s !! idx with
                        | Some removed => remove_selected_class (elems s) removed
                        | None => elems s
                        end;
               container := container s; panel := panel s |}
      | None =>
          renderSelectionPanel
            {| product := product s; prevDataJSON := prevDataJSON s;
               selectedCells := selectedCells s ++
                 [{| key := k; structure := cell_structure cell;
                     contract := cell_contract cell; element := id;
                     value := JS.trim (cell_text cell) |}];
               elems := alter (set_selected true) id (elems s);
               container := container s; panel := panel s |}
      end
  | _, _ => s
  end.

(** A click on the cell element [id]: the listener, when one is attached. *)
Definition click (id : nat) (ctrlKey : bool) (s : Page) : Page :=
  match elems s !! id with
  | Some cell =>
      if cell_clickable cell then
        toggleCellSelection id (if ctrlKey then s else clearSelection s)
      else s
  | None => s
  end.

Definition class_of_num (x : JS.num) : SpanClass :=
  match x with
  | JS.NaN => Negative
  | JS.Inf neg => if neg then Negative else Positive
  | JS.Fin m _ => if m =? 0 then Zero else if 0 <? m then Positive else Negative
  end.

(** The span of a selected cell after an edit: [valNum = Number(v) || 0]. *)
Definition edited_span (v : string) (c : Cell) : Cell :=
  let valNum := JS.or_zero (JS.Number v) in
  match class_of_num valNum with
  | Zero => set_span "" Zero c
  | k => set_span (JS.String_of_num valNum) k c
  end.

Definition set_value (v : string) (sel : Selected) : Selected :=
  {| key := key sel; structure := structure sel; contract := contract sel;
     element := element sel; value := v |}.

Definition set_input (v : string) (it : Item) : Item :=
  {| item_label := item_label it; item_input := v |}.

(** The [oninput] listener of the [i]-th item of the panel, after the
    operator has made its input field read [v]. *)
Definition input (i : nat) (v : string) (s : Page) : Page :=
  match panel s with
  | Some pn =>
      match items pn !! i, selectedCells s !! i with
      | Some _, Some sel =>
          {| product := product s; prevDataJSON := prevDataJSON s;
             selectedCells := alter (set_value v) i (selectedCells s);
             elems := alter (edited_span v) (element sel) (elems s);
             container := container s;
             panel := Some {| items := alter (set_input v) i (items pn);
                              apply_button := apply_button pn |} |}
      | _, _ => s
      end
  | None => s
  end.

(** The [onclick] listener of the remove button of the [i]-th item. *)
Definition remove (i : nat) (s : Page) : Page :=
  match panel s with
  | Some pn =>
      match items pn !! i, selectedCells s !! i with
      | Some _, Some sel =>
          renderSelectionPanel
            {| product := product s; prevDataJSON := prevDataJSON s;
               selectedCells :=
                 filter (fun x => key x ≠ key sel) (selectedCells s);
               elems := remove_selected_class (elems s) sel;
               container := container s; panel := panel s |}
      | _, _ => s
      end
  | None => s
  end.

(** *** Snapshot fetcher and grid renderer *)

(** How the request of [loadPositions] ends: the promise rejects or the
    body does not decode ([err.message]), the status is not ok, or a
    snapshot arrives. *)
Inductive Positions :=
  | PosFailed (message : string)
  | PosNotOk
  | PosOk (snap : Snapshot).

(** The [return] (or [catch]) through which a call of [loadPositions]
    left. *)
Inductive LoadPath :=
  | NoContainer             (* line 15 *)
  | Unchanged               (* line 22, the fingerprint short-circuit *)
  | Placeholder             (* line 31, empty result *)
  | Rendered                (* line 35, after buildGrid *)
  | ErrorShown              (* line 40 *)
  | ErrorAlerted (message : string).   (* line 42 *)

(** The cells of the rows of a new grid and the ids they get, the first
    one being [next]. *)
Fixpoint build_rows (cs : list string) (rws : list Row) (next : nat)
  : list Cell * list (string * list nat) :=
  match rws with
  | [] => ([], [])
  | r :: rest =>
      let '(cells, body) := build_rows cs rest (next + length (lots r))%nat in
      (imap (new_cell cs (name r)) (lots r) ++ cells,
       (name r, seq next (length (lots r))) :: body)
  end.

(** The cells [document.querySelectorAll('.grid .cell.total-cell')] finds. *)
Definition grid_cells (s : Page) : list nat :=
  match container s with
  | Some (Grid _ body _) => concat (snd <$> body)
  | _ => []
  end.

(** [attachCellSelectionHandlers()]. *)
Definition attachCellSelectionHandlers (s : Page) : Page :=
  match panel s with
  | None => s
  | Some _ =>
      {| product := product s; prevDataJSON := prevDataJSON s;
         selectedCells := [];
         elems := foldl (fun h id => alter attach_one id h) (elems s) (grid_cells s);
         container := container s;
         panel := Some empty_panel |}
  end.

(** [buildGrid(contracts, rows, restoreScrollLeft)], called with the
    container present.  The new wrapper scrolls to [restoreScrollLeft]
    (it starts at 0, which is also what a falsy argument leaves). *)
Definition buildGrid (cs : list string) (rws : list Row) (restoreScrollLeft : Z)
    (s : Page) : Page :=
  let '(cells, body) := build_rows cs rws (length (elems s)) in
  attachCellSelectionHandlers
    {| product := product s; prevDataJSON := prevDataJSON s;
       selectedCells := selectedCells s;
       elems := elems s ++ cells;
       container := Some (Grid cs body restoreScrollLeft);
       panel := panel s |}.

Definition is_nil {A} (l : list A) : bool :=
  match l with [] => true | _ => false end.

(** The [catch] of [loadPositions]. *)
Definition load_error (message : string) (s : Page) : Page * LoadPath :=
  match container s with
  | Some _ =>
      (with_container (Some (Message ("Error loading data: " +:+ message))) s,
       ErrorShown)
  | None => (s, ErrorAlerted ("Error loading data: " +:+ message))
  end.

(** [loadPositions()] from the point where its request completes with [r];
    [prod] is the product read when the call started. *)
Definition loadPositions_resume (prod : string) (r : Positions) (s : Page)
  : Page * LoadPath :=
  match r with
  | PosFailed message => load_error message s
  | PosNotOk => load_error "Network response was not ok" s
  | PosOk snap =>
      match container s with
      | None => (s, NoContainer)
      | Some region =>
          if bool_decide (prevDataJSON s = Some (dataJSON snap)) then (s, Unchanged)
          else
            let oldScrollLeft :=
              match region with Grid _ _ x => x | _ => 0 end in
            if is_nil (contracts snap) && is_nil (rows snap) then
              (with_prev (Some (dataJSON snap))
                 (with_container
                    (Some (Message ("No positions found for " +:+ prod +:+ "."))) s),
               Placeholder)
            else
              (with_prev (Some (dataJSON snap))
                 (buildGrid (contracts snap) (rows snap) oldScrollLeft s),
               Rendered)
      end
  end.

(** The product [loadPositions] asks for. *)
Definition current_product (s : Page) : string := default "CL" (product s).

(** [loadPositions()] run to completion with nothing in between. *)
Definition loadPositions (r : Positions) (s : Page) : Page * LoadPath :=
  loadPositions_resume (current_product s) r s.

(** The [change] listener of the product selector up to its call of
    [loadPositions()], whose request is left pending.  Without a container
    the listener stops at line 66. *)
Definition product_change (p : string) (s : Page) : Page :=
  match product s with
  | None => s
  | Some _ =>
      let s1 := with_prev None (with_product (Some p) s) in
      match container s1 with
      | Some _ => with_container (Some (Message "Loading…")) s1
      | None => s1
      end
  end.

(** The operator scrolls the grid sideways. *)
Definition scroll (x : Z) (s : Page) : Page :=
  match container s with
  | Some (Grid h b _) => with_container (Some (Grid h b x)) s
  | _ => s
  end.

(** The page when the script starts. *)
Definition initial_page (prod : option string) (has_container has_panel : bool) : Page :=
  {| product := prod; prevDataJSON := None; selectedCells := []; elems := [];
     container := if has_container then Some Initial else None;
     panel := if has_panel then Some empty_panel else None |}.

(** ** Hedge application protocol *)

(** The body of POST /api/implement_hedge. *)
Record Payload := {
  payload_product : string;
  lis_structure_names : list string;
  lis_starting_contracts : list string;
  lis_num_lots : list Z
}.

(** [parseInt(String(v).trim(), 10) || 0], as the integer the digits
    stand for: the number the code gets when that is a safe integer. *)
Definition num_lots (v : string) : Z :=
  match JS.parseInt10 (JS.trim v) with
  | Some n => n
  | None => 0
  end.

(** The three arrays the [forEach] of lines 280-285 fills, one push per
    array for each entry of the store, in store order. *)
Fixpoint collect (l : list Selected) (names cs : list string) (ns : list Z)
  : list string * list string * list Z :=
  match l with
  | [] => (names, cs, ns)
  | sel :: rest =>
      collect rest (names ++ [structure sel]) (cs ++ [contract sel])
              (ns ++ [num_lots (value sel)])
  end.

Definition build_payload (prod : string) (l : list Selected) : Payload :=
  let '(names, cs, ns) := collect l [] [] [] in
  {| payload_product := prod; lis_structure_names := names;
     lis_starting_contracts := cs; lis_num_lots := ns |}.

(** How a POST ends: [fetch] rejects or [resp.json()] throws
    ([err.message]), or a decoded body arrives with the [ok] flag of its
    status. *)
Inductive Http :=
  | Rejected (message : string)
  | Response (ok : bool) (data : JS.value).

(** What the world answers during one run of the protocol: the backend to
    the first submit, the operator to the k-th prompt ([None] is Cancel),
    the backend to the k-th create-strategy request, to the retry and to
    the refresh of the positions. *)
Record World := {
  submit : Http;
  prompts : nat -> option string;
  creates : nat -> Http;
  retry : Http;
  refresh : Positions
}.

(** What a run does that is visible outside the page state. *)
Inductive Effect :=
  | PostHedge (body : Payload)
  | PostCreate (structure_name pattern : JS.value)
  | Prompt (message : string) (suggestion : option string)
  | GetPositions (prod : string) (path : LoadPath)
  | ConsoleLog (message : string)
  | ConsoleError (message : string)
  | Alert (message : string)
  | Uncaught (message : string).

(** The message of [new Error(data.error || fallback)], or of the
    TypeError that reading [data.error] raises when [data] is null. *)
Definition error_of (data : JS.value) (fallback : string) : string :=
  match JS.get data "error" with
  | None => JS.type_error "error"
  | Some e => if JS.truthy e then JS.to_string e else fallback
  end.

(** The template literal of the confirmation; [None] when [data] is null. *)
Definition hedge_applied (data : JS.value) : option string :=
  match JS.get data "hedged_name", JS.get data "base_contract",
        JS.get data "hedged_lots" with
  | Some n, Some b, Some l =>
      Some ("Hedge applied: " +:+ JS.to_string n +:+ " @ " +:+ JS.to_string b
            +:+ " (+" +:+ JS.to_string l +:+ ")")
  | _, _, _ => None
  end.

(** Result of a stretch of the [try] block: the page, the effects so far,
    and the message of the error thrown, if one was. *)
Definition Run : Type := Page * list Effect * option string.

(** Lines 376-378 (and 336-338, 365-367): the success path. *)
Definition on_success (data : JS.value) (w : World) (s : Page) : Run :=
  let s1 := clearSelection s in
  let '(s2, path) := loadPositions (refresh w) s1 in
  let fetched := GetPositions (current_product s1) path in
  match hedge_applied data with
  | Some message => (s2, [fetched; ConsoleLog message], None)
  | None => (s2, [fetched], Some (JS.type_error "hedged_name"))
  end.

(** Lines 327-340 (and 357-369): the one retry. *)
Definition retry_once (body : Payload) (w : World) (s : Page) : Run :=
  match retry w with
  | Rejected message => (s, [PostHedge body], Some message)
  | Response true data =>
      let '(s', effects, thrown) := on_success data w s in
      (s', PostHedge body :: effects, thrown)
  | Response false data =>
      (s, [PostHedge body], Some (error_of data "Implement hedge failed on retry"))
  end.

Definition prompt_pattern (missingName : JS.value) : Effect :=
  Prompt ("Structure '" +:+ JS.to_string missingName +:+
          "' not found. Enter pattern as a JS array (e.g. [1,-1]) to create it, or cancel to abort:")
         None.

Definition prompt_name (pattern : JS.value) : Effect :=
  Prompt ("No stored structure matches pattern " +:+
          default "undefined" (JS.stringify pattern) +:+
          ". Enter a name to create for this pattern:")
         (Some "new-structure").

Section Protocol.

(** [eval] applied to the text the operator typed: [None] when the
    evaluation throws, the value otherwise (a value that is no array and no
    JSON value behaves like any other non-array).  Here the evaluated text
    has no side effect; [Concurrent.js_eval] is [eval] with what it can do
    to the payload and the page. *)
Variable js_eval : string -> option JS.value.

(** Lines 309-316: the pattern the operator's text stands for. *)
Definition read_pattern (userInput : string) : option JS.value :=
  match js_eval userInput with
  | Some v => if JS.isArray v then Some v else None
  | None => None
  end.

(** Lines 305-325: the loop over [data.missing]; [k] counts the prompts
    shown so far.  Returns the effects and the message of the error that
    ended the loop early, if one did. *)
Fixpoint resolve_missing (w : World) (missing : list JS.value) (k : nat)
  : list Effect * option string :=
  match missing with
  | [] => ([], None)
  | missingName :: rest =>
      match prompts w k with
      | None => ([prompt_pattern missingName], Some "Operation cancelled by user")
      | Some userInput =>
          match read_pattern userInput with
          | None =>
              ([prompt_pattern missingName],
               Some ("Invalid pattern provided for " +:+ JS.to_string missingName))
          | Some pattern =>
              let asked := [prompt_pattern missingName; PostCreate missingName pattern] in
              match creates w k with
              | Rejected message => (asked, Some message)
              | Response false createData =>
                  (asked,
                   Some (error_of createData
                           ("Failed to create strategy " +:+ JS.to_string missingName)))
              | Response true _ =>
                  let '(effects, thrown) := resolve_missing w rest (S k) in
                  (asked ++ effects, thrown)
              end
          end
      end
  end.

(** Lines 304-341. *)
Definition missing_strategies (missing : list JS.value) (body : Payload)
    (w : World) (s : Page) : Run :=
  match resolve_missing w missing 0 with
  | (effects, Some message) => (s, effects, Some message)
  | (effects, None) =>
      let '(s', more, thrown) := retry_once body w s in
      (s', effects ++ more, thrown)
  end.

(** Lines 344-370. *)
Definition missing_hedged_pattern (pattern : JS.value) (body : Payload)
    (w : World) (s : Page) : Run :=
  match prompts w 0 with
  | None => (s, [prompt_name pattern], Some "Operation cancelled by user")
  | Some suggested =>
      let asked := [prompt_name pattern; PostCreate (JS.VStr suggested) pattern] in
      match creates w 0 with
      | Rejected message => (s, asked, Some message)
      | Response false createData =>
          (s, asked,
           Some (error_of createData ("Failed to create strategy " +:+ suggested)))
      | Response true _ =>
          let '(s', more, thrown) := retry_once body w s in
          (s', asked ++ more, thrown)
      end
  end.

(** Which branch of lines 302-373 a body that came with a failing status
    takes. *)
Inductive Failure :=
  | MissingStrategies (missing : list JS.value)
  | MissingHedgedPattern (pattern : JS.value)
  | OtherFailure.

Definition classify (data : JS.value) : Failure :=
  if JS.truthy data then
    let error := default JS.VUndefined (JS.get data "error") in
    match default JS.VUndefined (JS.get data "missing") with
    | JS.VArr missing =>
        if JS.is_str error "missing_strategies" then MissingStrategies missing
        else
          let payload := default JS.VUndefined (JS.get data "payload") in
          if JS.is_str error "missing_hedged_pattern" && JS.truthy payload then
            MissingHedgedPattern (default JS.VUndefined (JS.get payload "pattern"))
          else OtherFailure
    | _ =>
        let payload := default JS.VUndefined (JS.get data "payload") in
        if JS.is_str error "missing_hedged_pattern" && JS.truthy payload then
          MissingHedgedPattern (default JS.VUndefined (JS.get payload "pattern"))
        else OtherFailure
    end
  else OtherFailure.

(** Lines 295-378: the [try] block. *)
Definition hedge_try (body : Payload) (w : World) (s : Page) : Run :=
  match submit w with
  | Rejected message => (s, [], Some message)
  | Response true data => on_success data w s
  | Response false data =>
      match classify data with
      | MissingStrategies missing => missing_strategies missing body w s
      | MissingHedgedPattern pattern => missing_hedged_pattern pattern body w s
      | OtherFailure => (s, [], Some (error_of data "Implement hedge failed"))
      end
  end.

(** [applyHedgeFromSelection()] when no other handler runs during its
    awaits: the page it leaves and what it did.  The run among the other
    handlers is [Concurrent.applyHedgeFromSelection], of which this is the
    case [Concurrent.quiet] ([quiet_run]). *)
Definition applyHedgeFromSelection (w : World) (s : Page) : Page * list Effect :=
  match selectedCells s with
  | [] => (s, [])
  | _ =>
      match product s with
      | None => (s, [Uncaught (JS.type_error "value")])
      | Some prod =>
          let body := build_payload prod (selectedCells s) in
          match hedge_try body w s with
          | (s', effects, None) => (s', PostHedge body :: effects)
          | (s', effects, Some message) =>
              (s', PostHedge body :: effects ++
                   [Alert ("Error: " +:+ message); ConsoleError message])
          end
      end
  end.

(** *** Events of a page *)

Inductive Event :=
  | Loaded (prod : string) (r : Positions)   (* a pending loadPositions completes *)
  | Click (id : nat) (ctrlKey : bool)
  | Input (i : nat) (v : string)
  | Remove (i : nat)
  | ProductChange (p : string)
  | Scroll (x : Z)
  | ApplyHedge (w : World).

Definition step (s : Page) (ev : Event) : Page :=
  match ev with
  | Loaded prod r => fst (loadPositions_resume prod r s)
  | Click id ctrlKey => click id ctrlKey s
  | Input i v => input i v s
  | Remove i => remove i s
  | ProductChange p => product_change p s
  | Scroll x => scroll x s
  | ApplyHedge w => fst (applyHedgeFromSelection w s)
  end.

Definition run (s : Page) (evs : list Event) : Page := foldl step s evs.

End Protocol.

(** ** Poll loop *)

(** The scheduling of the requests of [loadPositions]: the guard flag
    [_isLoading], the intervals registered with [setInterval], and the
    requests that have started and not completed yet, each with the call
    site it came from.  The list of requests in flight is not a variable of
    the script; it records what the event loop holds. *)
Module Poll.

Inductive Origin :=
  | FirstLoad       (* line 49, pollLoop *)
  | Tick            (* line 54, the interval callback *)
  | Change          (* line 67, the change listener *)
  | AfterHedge.     (* lines 337, 366, 377 *)

Record Loop := {
  isLoading : bool;
  intervals : nat;
  in_flight : list Origin
}.

Inductive Signal :=
  | TimerFires              (* an interval callback is run *)
  | Completes (k : nat)     (* the k-th request in flight settles *)
  | ProductChanged          (* the change listener runs *)
  | HedgeApplied.           (* a hedge run reaches its refresh *)

(** After DOMContentLoaded: [pollLoop(1000)] is awaiting its first load. *)
Definition start : Loop :=
  {| isLoading := false; intervals := 0; in_flight := [FirstLoad] |}.

Definition launch (o : Origin) (l : Loop) : Loop :=
  {| isLoading := isLoading l; intervals := intervals l;
     in_flight := in_flight l ++ [o] |}.

(** What runs when the awaited call of [loadPositions] returns. *)
Definition resume (o : Origin) (l : Loop) : Loop :=
  match o with
  | FirstLoad =>
      {| isLoading := isLoading l; intervals := S (intervals l);
         in_flight := in_flight l |}
  | Tick =>
      {| isLoading := false; intervals := intervals l;
         in_flight := in_flight l |}
  | Change | AfterHedge => l
  end.

Definition step (l : Loop) (sg : Signal) : Loop :=
  match sg with
  | TimerFires =>
      match intervals l with
      | O => l
      | S _ =>
          if isLoading l then l
          else launch Tick
                 {| isLoading := true; intervals := intervals l;
                    in_flight := in_flight l |}
      end
  | Completes k =>
      match in_flight l !! k with
      | Some o =>
          resume o {| isLoading := isLoading l; intervals := intervals l;
                      in_flight := delete k (in_flight l) |}
      | None => l
      end
  | ProductChanged => launch Change l
  | HedgeApplied => launch AfterHedge l
  end.

Definition run (sgs : list Signal) : Loop := foldl step start sgs.

Definition is_tick (o : Origin) : bool :=
  match o with Tick => true | _ => false end.

Definition is_first (o : Origin) : bool :=
  match o with FirstLoad => true | _ => false end.

(** Number of requests in flight that the interval callback started. *)
Definition ticks (l : Loop) : nat := length (List.filter is_tick (in_flight l)).

Definition firsts (l : Loop) : nat := length (List.filter is_first (in_flight l)).

(** The guard is up exactly while the request of a tick is in flight, and
    the interval is registered once the first load has returned. *)
Definition guarded (l : Loop) : Prop :=
  ticks l = (if isLoading l then 1 else 0)%nat
  ∧ (intervals l + firsts l = 1)%nat.

End Poll.

(** ** A literal fragment of [eval] *)

(** [eval] on the texts that are one literal: a decimal integer with an
    optional minus sign, a string in single quotes without escapes, [null],
    [true], [false], [undefined], or an array literal of such literals.
    On these texts it agrees with JavaScript; every other text is made to
    throw, which JavaScript does only for the ones that are no program. *)
Module Literal.

Inductive token :=
  | TOpen | TClose | TComma
  | TAtom (v : JS.value).

Fixpoint take_string (s : string) : option (string * string) :=
  match s with
  | EmptyString => None
  | String c r =>
      if (c =? "'")%char then Some (EmptyString, r)
      else match take_string r with
           | Some (body, rest) => Some (String c body, rest)
           | None => None
           end
  end.

Fixpoint drop_chars (n : nat) (s : string) : string :=
  match n, s with
  | S k, String _ r => drop_chars k r
  | _, _ => s
  end.

Definition keyword (s : string) : option (JS.value * string) :=
  if String.prefix "null" s then Some (JS.VNull, drop_chars 4 s)
  else if String.prefix "true" s then Some (JS.VBool true, drop_chars 4 s)
  else if String.prefix "false" s then Some (JS.VBool false, drop_chars 5 s)
  else if String.prefix "undefined" s then Some (JS.VUndefined, drop_chars 9 s)
  else None.

Fixpoint lex (fuel : nat) (s : string) : option (list token) :=
  match fuel with
  | O => None
  | S f =>
      match s with
      | EmptyString => Some []
      | String c r =>
          if JS.is_ws c then lex f r
          else if (c =? "[")%char then cons TOpen <$> lex f r
          else if (c =? "]")%char then cons TClose <$> lex f r
          else if (c =? ",")%char then cons TComma <$> lex f r
          else if (c =? "'")%char then
            match take_string r with
            | Some (body, rest) => cons (TAtom (JS.VStr body)) <$> lex f rest
            | None => None
            end
          else if JS.is_digit c then
            let '(v, _, rest) := JS.take_digits 0 0 s in
            cons (TAtom (JS.VNum v)) <$> lex f rest
          else if (c =? "-")%char then
            match JS.take_digits 0 0 r with
            | (_, O, _) => None
            | (v, S _, rest) => cons (TAtom (JS.VNum (- v))) <$> lex f rest
            end
          else
            match keyword s with
            | Some (v, rest) => cons (TAtom v) <$> lex f rest
            | None => None
            end
      end
  end.

(** Elements of an array literal after its opening bracket: atoms
    separated by commas, one trailing comma allowed. *)
Fixpoint elements (ts : list token) : option (list JS.value * list token) :=
  match ts with
  | TClose :: rest => Some ([], rest)
  | TAtom v :: TClose :: rest => Some ([v], rest)
  | TAtom v :: TComma :: rest =>
      match elements rest with
      | Some (vs, rest') => Some (v :: vs, rest')
      | None => None
      end
  | _ => None
  end.

Definition eval (s : string) : option JS.value :=
  match lex (S (String.length s)) s with
  | Some [] => Some JS.VUndefined
  | Some [TAtom v] => Some v
  | Some (TOpen :: ts) =>
      match elements ts with
      | Some (vs, []) => Some (JS.VArr vs)
      | _ => None
      end
  | _ => None
  end.

End Literal.

(** ** Sample pages and worlds *)

Module Sample.

Definition page0 : Page := initial_page (Some "CL") true true.

(** One structure with a lot of 5 on one contract. *)
Definition snap : Snapshot :=
  {| contracts := ["Z5"]; rows := [{| name := "A"; lots := [5] |}] |}.

(** A total row above one structure. *)
Definition snap_total : Snapshot :=
  {| contracts := ["Z5"];
     rows := [{| name := "Total"; lots := [5] |}; {| name := "A"; lots := [5] |}] |}.

Definition snap_empty : Snapshot := {| contracts := []; rows := [] |}.

(** The grid of [snap] with its cell selected and edited to 7. *)
Definition edited : Page :=
  run Literal.eval page0 [Loaded "CL" (PosOk snap); Click 0 false; Input 0 "7"].

Definition applied : JS.value :=
  JS.VObj [("hedged_name", JS.VStr "fly"); ("base_contract", JS.VStr "Z5");
           ("hedged_lots", JS.VNum 7)].

Definition missing_xy : JS.value :=
  JS.VObj [("error", JS.VStr "missing_strategies");
           ("missing", JS.VArr [JS.VStr "X"; JS.VStr "Y"])].

Definition created_ok : Http := Response true (JS.VObj []).

(** The backend accepts at once and the positions have not moved. *)
Definition accepts : World :=
  {| submit := Response true applied;
     prompts := λ _, None;
     creates := λ _, created_ok;
     retry := Rejected "unused";
     refresh := PosOk snap |}.

(** Two strategies are missing; the operator answers the k-th prompt with
    [answers k]. *)
Definition gap (answers : nat → option string) (again : Http) : World :=
  {| submit := Response false missing_xy;
     prompts := answers;
     creates := λ _, created_ok;
     retry := again;
     refresh := PosOk snap |}.

Definition refused : Http :=
  Response false (JS.VObj [("error", JS.VStr "limit exceeded")]).

End Sample.

(** ** Invariants of a page *)

(** A cell of a row named "Total" has no listener and is not selected. *)
Definition inert (c : Cell) : Prop :=
  cell_structure c = "Total" → cell_clickable c = false ∧ cell_selected c = false.

Record page_ok (s : Page) : Prop := {
  ok_cells : Forall inert (elems s);
  ok_store : Forall (λ sel, structure sel ≠ "Total") (selectedCells s);
  ok_panel : panel s = None → selectedCells s = []
}.

(** ** Reading a run *)

(** The events by which the operator works on the grid and the panel,
    as opposed to the ones that fetch, change the product or submit. *)
Definition gesture (ev : Event) : bool :=
  match ev with
  | Click _ _ | Input _ _ | Remove _ | Scroll _ => true
  | Loaded _ _ | ProductChange _ | ApplyHedge _ => false
  end.

(** The events that can come between two snapshots fetched one after the
    other for the same product selection: the gestures of the operator and
    the requests of [loadPositions] that fail. *)
Definition between (ev : Event) : bool :=
  match ev with
  | Loaded _ (PosFailed _) | Loaded _ PosNotOk => true
  | Loaded _ (PosOk _) => false
  | _ => gesture ev
  end.

(** The bodies of the hedge submissions of a run, in order. *)
Fixpoint posts (effects : list Effect) : list Payload :=
  match effects with
  | [] => []
  | PostHedge body :: rest => body :: posts rest
  | _ :: rest => posts rest
  end.

(** The structure names of the create-strategy requests of a run. *)
Fixpoint created (effects : list Effect) : list JS.value :=
  match effects with
  | [] => []
  | PostCreate structure_name _ :: rest => structure_name :: created rest
  | _ :: rest => created rest
  end.

(** The texts of the alerts of a run. *)
Fixpoint alerts (effects : list Effect) : list string :=
  match effects with
  | [] => []
  | Alert message :: rest => message :: alerts rest
  | _ :: rest => alerts rest
  end.

(** The k-th prompt for a pattern is answered with a text that evaluates to
    an array, and the create-strategy request that follows is accepted. *)
Definition answered (js_eval : string → option JS.value) (w : World) (k : nat) : bool :=
  match prompts w k with
  | Some userInput =>
      match js_eval userInput with
      | Some (JS.VArr _) =>
          match creates w k with Response true _ => true | _ => false end
      | _ => false
      end
  | None => false
  end.

Definition all_answered (js_eval : string → option JS.value) (w : World) (n : nat) : bool :=
  forallb (answered js_eval w) (seq 0 n).

(** The names a failure asks the operator to define. *)
Definition missing_names (f : Failure) : list JS.value :=
  match f with
  | MissingStrategies missing => missing
  | MissingHedgedPattern _ | OtherFailure => []
  end.

(** The number of prompts a recovery shows when no prompt is declined. *)
Definition prompts_of (f : Failure) : nat :=
  match f with
  | MissingStrategies missing => length missing
  | MissingHedgedPattern _ => 1
  | OtherFailure => 0
  end.

(** The first submit is rejected with a recoverable gap and the gap is
    resolved: every missing strategy gets created, or the name for the
    hedged pattern is given and created. *)
Definition recovered (js_eval : string → option JS.value) (w : World) : bool :=
  match submit w with
  | Response false data =>
      match classify data with
      | MissingStrategies missing => all_answered js_eval w (length missing)
      | MissingHedgedPattern _ =>
          match prompts w 0, creates w 0 with
          | Some _, Response true _ => true
          | _, _ => false
          end
      | OtherFailure => false
      end
  | _ => false
  end.

(** The body with which the backend accepts the hedge, on the first
    submit or on the retry after a resolved recovery. *)
Definition accepted (js_eval : string → option JS.value) (w : World) : option JS.value :=
  match submit w with
  | Response true data => Some data
  | _ =>
      if recovered js_eval w then
        match retry w with
        | Response true data => Some data
        | _ => None
        end
      else None
  end.

Definition retry_failed (w : World) : bool :=
  match retry w with
  | Response true _ => false
  | _ => true
  end.

(** The label the panel shows for an entry of the store. *)
Definition label_of (sel : Selected) : string := item_label (item_of sel).

(** The entries of the store have distinct keys, each built from the
    structure and the contract of its entry, and the items of the panel,
    when it shows any, are those of the entries, in order. *)
Record store_ok (s : Page) : Prop := {
  keys_distinct : NoDup (key <$> selectedCells s);
  keys_built :
    Forall (λ sel, key sel = structure sel +:+ "||" +:+ contract sel)
           (selectedCells s);
  panel_mirrors :
    ∀ pn, panel s = Some pn →
          items pn = [] ∨ item_label <$> items pn = label_of <$> selectedCells s
}.

(** The key [toggleCellSelection] computes for a cell element. *)
Definition cell_key (c : Cell) : string :=
  cell_structure c +:+ "||" +:+ cell_contract c.

(** The entry [toggleCellSelection] pushes for the cell element [id]. *)
Definition entry_of (id : nat) (c : Cell) : Selected :=
  {| key := cell_key c; structure := cell_structure c;
     contract := cell_contract c; element := id;
     value := JS.trim (cell_text c) |}.

(** An entry of the store refers to a cell element that exists, carries
    the structure and the contract of the entry, and is marked selected. *)
Definition points_at (h : list Cell) (sel : Selected) : Prop :=
  ∃ c, h !! element sel = Some c
       ∧ cell_structure c = structure sel
       ∧ cell_contract c = contract sel
       ∧ cell_selected c = true.

Definition points_ok (s : Page) : Prop :=
  Forall (points_at (elems s)) (selectedCells s).

(** The pages the script can reach from its start. *)
Definition reached (js_eval : string → option JS.value) (s : Page) : Prop :=
  ∃ prod hc hp evs, s = run js_eval (initial_page prod hc hp) evs.

(** ** The fingerprint written out *)

(** The texts of an array's elements with commas in between. *)
Fixpoint comma_join (parts : list string) : string :=
  match parts with
  | [] => ""
  | x :: r => x +:+ (match r with [] => "" | _ => "," +:+ comma_join r end)
  end.

(** The text [JSON.stringify] gives for a row and for [{ contracts, rows }],
    member by member; [dataJSON_text] shows that it is [dataJSON]. *)
Definition row_text (r : Row) : string :=
  "{" +:+ JS.quote "name" +:+ ":" +:+ JS.quote (name r) +:+ ","
  +:+ JS.quote "lots" +:+ ":[" +:+ comma_join (JS.string_of_Z <$> lots r) +:+ "]}".

Definition snapshot_text (snap : Snapshot) : string :=
  "{" +:+ JS.quote "contracts" +:+ ":[" +:+ comma_join (JS.quote <$> contracts snap)
  +:+ "]," +:+ JS.quote "rows" +:+ ":[" +:+ comma_join (row_text <$> rows snap)
  +:+ "]}".

(** Reads one escaped character back from the front of a quoted text, with
    what follows it; [None] at the closing quote.  It undoes
    [JS.escape_char], which is how two quoted texts are told apart. *)
Definition unescape_char (s : string) : option (ascii * string) :=
  match s with
  | String c r =>
      if (c =? "034")%char then None
      else if (c =? "092")%char then
        match r with
        | String k r' =>
            if (k =? "034")%char then Some ("034"%char, r')
            else if (k =? "092")%char then Some ("092"%char, r')
            else if (k =? "b")%char then Some ("008"%char, r')
            else if (k =? "t")%char then Some ("009"%char, r')
            else if (k =? "n")%char then Some ("010"%char, r')
            else if (k =? "f")%char then Some ("012"%char, r')
            else if (k =? "r")%char then Some ("013"%char, r')
            else if (k =? "u")%char then
              match r' with
              | String "0" (String "0" (String x (String y r''))) =>
                  match JS.hex_val x, JS.hex_val y with
                  | Some a, Some b => Some (ascii_of_nat (Z.to_nat (16 * a + b)), r'')
                  | _, _ => None
                  end
              | _ => None
              end
            else None
        | EmptyString => None
        end
      else Some (c, r)
  | EmptyString => None
  end.

(** ** The panel and its apply button *)

(** With a product selector the panel has one item per entry of the store
    and the apply button exactly when there is an entry; without one the
    panel shows nothing. *)
Definition button_ok (s : Page) : Prop :=
  ∀ pn, panel s = Some pn →
    match product s with
    | Some _ =>
        length (items pn) = length (selectedCells s)
        ∧ (apply_button pn = None ↔ selectedCells s = [])
    | None => pn = empty_panel
    end.

(** ** Safe integers *)

(** The integers a JavaScript number holds exactly ([Number.isSafeInteger]).
    Within this range [String], [parseInt] and [JSON.stringify] write and
    read an integer digit by digit, which is what [new_cell], [num_lots]
    and [dataJSON] compute; beyond it the code rounds to a double and,
    from 10^21 on, writes an exponent, which they do not. *)
Definition safe_integer (z : Z) : Prop := Z.abs z ≤ 9007199254740991.

(** A snapshot all of whose lots are safe integers. *)
Definition safe_snapshot (snap : Snapshot) : Prop :=
  Forall (λ r, Forall safe_integer (lots r)) (rows snap).

(** ** More readings of a run *)

(** The calls of [loadPositions] of a run: the product asked for and the
    way the call left. *)
Fixpoint fetches (effects : list Effect) : list (string * LoadPath) :=
  match effects with
  | [] => []
  | GetPositions prod path :: rest => (prod, path) :: fetches rest
  | _ :: rest => fetches rest
  end.

(** The lines a run writes with [console.log]. *)
Fixpoint logs (effects : list Effect) : list string :=
  match effects with
  | [] => []
  | ConsoleLog message :: rest => message :: logs rest
  | _ :: rest => logs rest
  end.

(** ** The hedge run among the other handlers *)

(** [applyHedgeFromSelection] is an async function: at each of its awaits
    the event loop runs whatever else is due (a poll tick completes and
    renders, the operator clicks, edits or changes the product, another
    run settles), and line 312 hands the operator's text to a direct
    [eval], which runs it with [payload] and the page in reach.  This
    module is the run with both: an [Ambient] says what the other handlers
    make of the page during each await and what an evaluated text does.
    [applyHedgeFromSelection] above is the special case [quiet], in which
    nothing else runs and the texts have no side effect.  Texts that
    redefine what the run itself calls ([fetch], [Array.isArray], the
    response body it iterates over) are outside the model, and so are
    [prompt] and [alert], which block the event loop. *)
Module Concurrent.

Inductive Await :=
  | AwaitSubmit              (* lines 295-300: the first submit *)
  | AwaitCreate (k : nat)    (* lines 318-323 and 349-354: the k-th create request *)
  | AwaitRetry               (* lines 328-333 and 357-362: the retry *)
  | AwaitRefresh.            (* line 8, in the loadPositions of the success path *)

Record Ambient := {
  (* what the handlers that run during an await make of the page *)
  meanwhile : Await → Page → Page;
  (* [eval(userInput)]: its value ([None] when it throws), and the payload
     and the page as it leaves them *)
  js_eval : string → Payload → Page → option JS.value * Payload * Page
}.

(** Nothing else runs, and the texts are evaluated by [ev] without side
    effects. *)
Definition quiet (ev : string → option JS.value) : Ambient :=
  {| meanwhile := λ _ s, s; js_eval := λ userInput body s, (ev userInput, body, s) |}.

(** The outcome of the loop over [data.missing]: the page and the payload
    as they stand, the effects, and the message of the error thrown. *)
Definition Resolution : Type := Page * Payload * list Effect * option string.

Section Run.

Variable amb : Ambient.

(** Lines 376-378 (and 336-338, 365-367): [clearSelection()], then
    [loadPositions()], which reads the product, awaits its request and
    goes on with the page as it is by then. *)
Definition on_success (data : JS.value) (w : World) (s : Page) : Run :=
  let s1 := clearSelection s in
  let prod := current_product s1 in
  let '(s2, path) :=
    loadPositions_resume prod (refresh w) (meanwhile amb AwaitRefresh s1) in
  match hedge_applied data with
  | Some message => (s2, [GetPositions prod path; ConsoleLog message], None)
  | None => (s2, [GetPositions prod path], Some (JS.type_error "hedged_name"))
  end.

(** Lines 327-340 (and 357-369): the one retry, with the payload as it
    is by then. *)
Definition retry_once (body : Payload) (w : World) (s : Page) : Run :=
  let s1 := meanwhile amb AwaitRetry s in
  match retry w with
  | Rejected message => (s1, [PostHedge body], Some message)
  | Response true data =>
      let '(s', effects, thrown) := on_success data w s1 in
      (s', PostHedge body :: effects, thrown)
  | Response false data =>
      (s1, [PostHedge body], Some (error_of data "Implement hedge failed on retry"))
  end.

(** Lines 309-316: the pattern the operator's text stands for, with what
    its evaluation did. *)
Definition read_pattern (userInput : string) (body : Payload) (s : Page)
  : option JS.value * Payload * Page :=
  let '(v, body', s') := js_eval amb userInput body s in
  (match v with
   | Some x => if JS.isArray x then Some x else None
   | None => None
   end, body', s').

(** Lines 305-325. *)
Fixpoint resolve_missing (w : World) (missing : list JS.value) (k : nat)
    (body : Payload) (s : Page) : Resolution :=
  match missing with
  | [] => (s, body, [], None)
  | missingName :: rest =>
      match prompts w k with
      | None =>
          (s, body, [prompt_pattern missingName], Some "Operation cancelled by user")
      | Some userInput =>
          let '(pattern, body1, s1) := read_pattern userInput body s in
          match pattern with
          | None =>
              (s1, body1, [prompt_pattern missingName],
               Some ("Invalid pattern provided for " +:+ JS.to_string missingName))
          | Some pattern =>
              let asked := [prompt_pattern missingName; PostCreate missingName pattern] in
              let s2 := meanwhile amb (AwaitCreate k) s1 in
              match creates w k with
              | Rejected message => (s2, body1, asked, Some message)
              | Response false createData =>
                  (s2, body1, asked,
                   Some (error_of createData
                           ("Failed to create strategy " +:+ JS.to_string missingName)))
              | Response true _ =>
                  let '(s3, body3, effects, thrown) :=
                    resolve_missing w rest (S k) body1 s2 in
                  (s3, body3, asked ++ effects, thrown)
              end
          end
      end
  end.

(** Lines 304-341. *)
Definition missing_strategies (missing : list JS.value) (body : Payload)
    (w : World) (s : Page) : Run :=
  match resolve_missing w missing 0 body s with
  | (s1, _, effects, Some message) => (s1, effects, Some message)
  | (s1, body1, effects, None) =>
      let '(s', more, thrown) := retry_once body1 w s1 in
      (s', effects ++ more, thrown)
  end.

(** Lines 344-370. *)
Definition missing_hedged_pattern (pattern : JS.value) (body : Payload)
    (w : World) (s : Page) : Run :=
  match prompts w 0 with
  | None => (s, [prompt_name pattern], Some "Operation cancelled by user")
  | Some suggested =>
      let asked := [prompt_name pattern; PostCreate (JS.VStr suggested) pattern] in
      let s1 := meanwhile amb (AwaitCreate 0) s in
      match creates w 0 with
      | Rejected message => (s1, asked, Some message)
      | Response false createData =>
          (s1, asked,
           Some (error_of createData ("Failed to create strategy " +:+ suggested)))
      | Response true _ =>
          let '(s', more, thrown) := retry_once body w s1 in
          (s', asked ++ more, thrown)
      end
  end.

(** Lines 295-378: the [try] block. *)
Definition hedge_try (body : Payload) (w : World) (s : Page) : Run :=
  let s1 := meanwhile amb AwaitSubmit s in
  match submit w with
  | Rejected message => (s1, [], Some message)
  | Response true data => on_success data w s1
  | Response false data =>
      match classify data with
      | MissingStrategies missing => missing_strategies missing body w s1
      | MissingHedgedPattern pattern => missing_hedged_pattern pattern body w s1
      | OtherFailure => (s1, [], Some (error_of data "Implement hedge failed"))
      end
  end.

(** [applyHedgeFromSelection()]: the page it leaves and what it did. *)
Definition applyHedgeFromSelection (w : World) (s : Page) : Page * list Effect :=
  match selectedCells s with
  | [] => (s, [])
  | _ =>
      match product s with
      | None => (s, [Uncaught (JS.type_error "value")])
      | Some prod =>
          let body := build_payload prod (selectedCells s) in
          match hedge_try body w s with
          | (s', effects, None) => (s', PostHedge body :: effects)
          | (s', effects, Some message) =>
              (s', PostHedge body :: effects ++
                   [Alert ("Error: " +:+ message); ConsoleError message])
          end
      end
  end.

(** *** Reading such a run *)

(** A property of the page that the other handlers and the evaluated
    texts keep. *)
Definition kept (P : Page → Prop) : Prop :=
  (∀ a s, P s → P (meanwhile amb a s))
  ∧ (∀ userInput body s, P s → P (snd (js_eval amb userInput body s))).

(** [s'] is what the other handlers and the evaluated texts made of [s]:
    whatever they keep still holds.  A stretch of the run that takes [s]
    to such an [s'] has written nothing to the page itself. *)
Definition by_others (s s' : Page) : Prop := ∀ P, kept P → P s → P s'.

(** The loop over the first [k] names of the gap only.  It throws
    nothing exactly when each of these prompts is answered with a text
    that evaluates to an array and each of the create requests is
    accepted. *)
Definition resolved_upto (data : JS.value) (body : Payload) (w : World)
    (s : Page) (k : nat) : Resolution :=
  resolve_missing w (take k (missing_names (classify data))) 0 body s.

(** The page and the way [loadPositions] leaves when the success path
    starts on the page [s]. *)
Definition refreshed (w : World) (s : Page) : Page * LoadPath :=
  loadPositions_resume (current_product (clearSelection s)) (refresh w)
    (meanwhile amb AwaitRefresh (clearSelection s)).

(** The payload as the evaluated texts of the loop leave it: what a retry
    submits. *)
Definition retry_payload (data : JS.value) (body : Payload) (w : World)
    (s : Page) : Payload :=
  match classify data with
  | MissingStrategies missing => snd (fst (fst (resolve_missing w missing 0 body s)))
  | MissingHedgedPattern _ | OtherFailure => body
  end.

(** The gap the first submit reported is resolved, and the retry is
    next. *)
Definition resolved (data : JS.value) (body : Payload) (w : World) (s : Page)
  : bool :=
  match classify data with
  | MissingStrategies missing =>
      match snd (resolve_missing w missing 0 body s) with
      | None => true
      | Some _ => false
      end
  | MissingHedgedPattern _ =>
      match prompts w 0, creates w 0 with
      | Some _, Response true _ => true
      | _, _ => false
      end
  | OtherFailure => false
  end.

Definition recovered (w : World) (s : Page) : bool :=
  match submit w with
  | Response false data =>
      resolved data (build_payload (current_product s) (selectedCells s)) w
        (meanwhile amb AwaitSubmit s)
  | _ => false
  end.

(** The body with which the backend accepts the hedge, on the first
    submit or on the retry. *)
Definition accepted (w : World) (s : Page) : option JS.value :=
  match submit w with
  | Response true data => Some data
  | _ =>
      if recovered w s then
        match retry w with
        | Response true data => Some data
        | _ => None
        end
      else None
  end.

End Run.

End Concurrent.

(** *** Sample ambients *)

Module SampleAmbients.
Import Sample.

(** A poll tick completes with a changed snapshot while the first submit
    is awaited; nothing else runs and the texts have no side effect. *)
Definition busy : Concurrent.Ambient :=
  {| Concurrent.meanwhile := λ a s,
       match a with
       | Concurrent.AwaitSubmit => fst (loadPositions_resume "CL" (PosOk snap_total) s)
       | _ => s
       end;
     Concurrent.js_eval := λ userInput body s, (Literal.eval userInput, body, s) |}.


End SampleAmbients.

(** * Properties *)

(** ** Cell elements *)

Lemma inert_set_selected_false c : inert c → inert (set_selected false c).
Proof. intros H Ht. destruct (H Ht) as [Hc _]. split; [exact Hc | reflexivity]. Qed.

Lemma inert_set_selected_true c :
  cell_structure c ≠ "Total" → inert (set_selected true c).
Proof. intros Hne Ht. contradiction. Qed.

Lemma inert_edited_span v c : inert c → inert (edited_span v c).
Proof.
  intros H. unfold edited_span.
  destruct (class_of_num _); intros Ht; exact (H Ht).
Qed.

Lemma inert_attach_one c : inert c → inert (attach_one c).
Proof.
  intros H. unfold attach_one.
  destruct (String.eqb_spec (cell_structure c) "Total") as [Ht | Hne].
  - intros _. exact (H Ht).
  - intros Ht. contradiction.
Qed.

Lemma inert_new_cell cs row_name idx l : inert (new_cell cs row_name idx l).
Proof. intros _. split; reflexivity. Qed.

Lemma structure_set_selected b c :
  cell_structure (set_selected b c) = cell_structure c.
Proof. reflexivity. Qed.

Lemma Forall_inert_unselect h l :
  Forall inert h → Forall inert (foldl remove_selected_class h l).
Proof.
  revert h. induction l as [| sel l IH]; intros h Hh; [exact Hh |].
  apply IH. apply Forall_alter; [exact Hh |].
  intros c _. apply inert_set_selected_false.
Qed.

Lemma Forall_inert_attach ids h :
  Forall inert h → Forall inert (foldl (λ h id, alter attach_one id h) h ids).
Proof.
  revert h. induction ids as [| id ids IH]; intros h Hh; [exact Hh |].
  apply IH. apply Forall_alter; [exact Hh |].
  intros c _. apply inert_attach_one.
Qed.

Lemma lookup_unselect h l id c' :
  foldl remove_selected_class h l !! id = Some c' →
  ∃ c, h !! id = Some c ∧ cell_structure c' = cell_structure c
       ∧ cell_clickable c' = cell_clickable c.
Proof.
  revert h. induction l as [| sel l IH]; intros h Hl.
  - exists c'. auto.
  - destruct (IH _ Hl) as (c1 & H1 & Hs & Hk).
    unfold remove_selected_class in H1.
    rewrite list_lookup_alter in H1.
    destruct (decide (element sel = id)) as [-> | Hne].
    + destruct (h !! id) as [c |] eqn:Hc; [| discriminate].
      injection H1 as <-. exists c. auto.
    + exists c1. auto.
Qed.

Lemma Forall_inert_imap cs row_name ls :
  Forall inert (imap (new_cell cs row_name) ls).
Proof.
  apply Forall_lookup. intros i c Hc.
  rewrite list_lookup_imap in Hc.
  destruct (ls !! i); [| discriminate].
  injection Hc as <-. apply inert_new_cell.
Qed.

Lemma Forall_inert_build_rows cs rws next :
  Forall inert (fst (build_rows cs rws next)).
Proof.
  revert next. induction rws as [| r rws IH]; intros next; simpl.
  - constructor.
  - specialize (IH (next + length (lots r))%nat).
    destruct (build_rows cs rws _) as [cells body]. simpl in *.
    apply Forall_app_2; [apply Forall_inert_imap | exact IH].
Qed.

(** ** The selection store keeps the invariants *)

Lemma clearSelection_ok s : page_ok s → page_ok (clearSelection s).
Proof.
  intros [Hc Hs Hp]. split; simpl.
  - apply Forall_inert_unselect, Hc.
  - constructor.
  - reflexivity.
Qed.

Lemma renderSelectionPanel_fields s :
  selectedCells (renderSelectionPanel s) = selectedCells s
  ∧ elems (renderSelectionPanel s) = elems s
  ∧ prevDataJSON (renderSelectionPanel s) = prevDataJSON s
  ∧ container (renderSelectionPanel s) = container s
  ∧ product (renderSelectionPanel s) = product s
  ∧ (panel (renderSelectionPanel s) = None ↔ panel s = None).
Proof.
  unfold renderSelectionPanel.
  destruct (panel s) eqn:Hp; [| rewrite Hp; tauto].
  destruct (selectedCells s) eqn:Es; [| destruct (product s) eqn:Epr];
    simpl; rewrite ?Es, ?Epr; intuition congruence.
Qed.

Lemma renderSelectionPanel_ok s : page_ok s → page_ok (renderSelectionPanel s).
Proof.
  intros [Hc Hs Hp].
  destruct (renderSelectionPanel_fields s) as (Es & Ee & _ & _ & _ & Ep).
  split; rewrite ?Es, ?Ee; auto. intros H. apply Hp, Ep, H.
Qed.

Lemma toggleCellSelection_ok id s :
  page_ok s →
  (∀ c, elems s !! id = Some c → cell_structure c ≠ "Total") →
  page_ok (toggleCellSelection id s).
Proof.
  intros Hok Hid. pose proof Hok as [Hc Hs Hp]. unfold toggleCellSelection.
  destruct (panel s) as [pn |] eqn:Epn; [| exact Hok].
  destruct (elems s !! id) as [cell |] eqn:Ecell; [| exact Hok].
  specialize (Hid cell eq_refl).
  destruct (findIndex _ _) as [idx |].
  - apply renderSelectionPanel_ok. split; simpl.
    + destruct (selectedCells s !! idx); [| exact Hc].
      apply Forall_alter; [exact Hc |].
      intros c _. apply inert_set_selected_false.
    + apply Forall_delete, Hs.
    + rewrite ?Epn. discriminate.
  - apply renderSelectionPanel_ok. split; simpl.
    + apply Forall_alter; [exact Hc |].
      intros c Hl _. apply inert_set_selected_true. congruence.
    + apply Forall_app_2; [exact Hs |].
      constructor; [| constructor]. exact Hid.
    + rewrite ?Epn. discriminate.
Qed.

Lemma click_ok id ctrlKey s : page_ok s → page_ok (click id ctrlKey s).
Proof.
  intros Hok. unfold click.
  destruct (elems s !! id) as [cell |] eqn:Ecell; [| exact Hok].
  destruct (cell_clickable cell) eqn:Ek; [| exact Hok].
  assert (Hne : cell_structure cell ≠ "Total").
  { intros Ht. destruct (Forall_lookup_1 _ _ _ _ (ok_cells _ Hok) Ecell Ht).
    congruence. }
  destruct ctrlKey.
  - apply toggleCellSelection_ok; [exact Hok |].
    intros c Hc. congruence.
  - apply toggleCellSelection_ok; [apply clearSelection_ok, Hok |].
    simpl. intros c Hc.
    destruct (lookup_unselect _ _ _ _ Hc) as (c0 & H0 & Hs & _).
    congruence.
Qed.

Lemma input_ok i v s : page_ok s → page_ok (input i v s).
Proof.
  intros Hok. pose proof Hok as [Hc Hs Hp]. unfold input.
  destruct (panel s) as [pn |] eqn:Epn; [| exact Hok].
  destruct (items pn !! i); [| exact Hok].
  destruct (selectedCells s !! i) as [sel |]; [| exact Hok].
  split; simpl.
  - apply Forall_alter; [exact Hc |]. intros c _. apply inert_edited_span.
  - apply Forall_alter; [exact Hs |]. intros x _ Hx. exact Hx.
  - discriminate.
Qed.

Lemma remove_ok i s : page_ok s → page_ok (remove i s).
Proof.
  intros Hok. pose proof Hok as [Hc Hs Hp]. unfold remove.
  destruct (panel s) as [pn |] eqn:Epn; [| exact Hok].
  destruct (items pn !! i); [| exact Hok].
  destruct (selectedCells s !! i) as [sel |]; [| exact Hok].
  apply renderSelectionPanel_ok. split; simpl.
  - apply Forall_alter; [exact Hc |]. intros c _. apply inert_set_selected_false.
  - apply Forall_forall. intros x Hx.
    apply list_elem_of_filter in Hx as [_ Hx].
    revert x Hx. apply Forall_forall, Hs.
  - rewrite ?Epn. discriminate.
Qed.

(** ** The snapshot fetcher keeps the invariants *)

Lemma attachCellSelectionHandlers_ok s :
  Forall inert (elems s) →
  (panel s = None → selectedCells s = []) →
  Forall (λ sel, structure sel ≠ "Total") (selectedCells s) →
  page_ok (attachCellSelectionHandlers s).
Proof.
  intros Hc Hp Hs. unfold attachCellSelectionHandlers.
  destruct (panel s) eqn:Epn.
  - split; simpl; [apply Forall_inert_attach, Hc | constructor | reflexivity].
  - split; [exact Hc | exact Hs | rewrite Epn; exact Hp].
Qed.

Lemma buildGrid_ok cs rws x s : page_ok s → page_ok (buildGrid cs rws x s).
Proof.
  intros [Hc Hs Hp]. unfold buildGrid.
  pose proof (Forall_inert_build_rows cs rws (length (elems s))) as Hb.
  destruct (build_rows cs rws _) as [cells body]. simpl in Hb.
  apply attachCellSelectionHandlers_ok; simpl; auto using Forall_app_2.
Qed.

Lemma with_prev_ok f s : page_ok s → page_ok (with_prev f s).
Proof. intros [Hc Hs Hp]. split; assumption. Qed.

Lemma with_container_ok c s : page_ok s → page_ok (with_container c s).
Proof. intros [Hc Hs Hp]. split; assumption. Qed.

Lemma with_product_ok p s : page_ok s → page_ok (with_product p s).
Proof. intros [Hc Hs Hp]. split; assumption. Qed.

Lemma load_error_ok message s : page_ok s → page_ok (fst (load_error message s)).
Proof.
  intros Hok. unfold load_error.
  destruct (container s); simpl; [apply with_container_ok |]; exact Hok.
Qed.

Lemma loadPositions_resume_ok prod r s :
  page_ok s → page_ok (fst (loadPositions_resume prod r s)).
Proof.
  intros Hok. destruct r as [message | | snap]; simpl;
    try (apply load_error_ok; exact Hok).
  destruct (container s) as [region |]; [| exact Hok].
  destruct (bool_decide _); [exact Hok |].
  destruct (is_nil (contracts snap) && is_nil (rows snap)); simpl.
  - apply with_prev_ok, with_container_ok, Hok.
  - apply with_prev_ok, buildGrid_ok, Hok.
Qed.

Lemma product_change_ok p s : page_ok s → page_ok (product_change p s).
Proof.
  intros Hok. unfold product_change.
  destruct (product s); [| exact Hok].
  destruct (container _); [apply with_container_ok |];
    apply with_prev_ok, with_product_ok, Hok.
Qed.

Lemma scroll_ok x s : page_ok s → page_ok (scroll x s).
Proof.
  intros Hok. unfold scroll.
  destruct (container s) as [[| t | h b y] |]; try exact Hok.
  apply with_container_ok, Hok.
Qed.

Lemma initial_page_ok prod hc hp : page_ok (initial_page prod hc hp).
Proof. split; simpl; [constructor | constructor | reflexivity]. Qed.

(** ** Which way a call of loadPositions leaves *)

Lemma loadPositions_resume_unchanged prod snap s :
  container s ≠ None →
  prevDataJSON s = Some (dataJSON snap) →
  loadPositions_resume prod (PosOk snap) s = (s, Unchanged).
Proof.
  intros Hc Hp. simpl.
  destruct (container s); [| contradiction].
  rewrite bool_decide_eq_true_2; [reflexivity | exact Hp].
Qed.

Lemma loadPositions_resume_rendered prod r s s' :
  loadPositions_resume prod r s = (s', Rendered) →
  ∃ snap region,
    r = PosOk snap ∧ container s = Some region
    ∧ prevDataJSON s ≠ Some (dataJSON snap)
    ∧ is_nil (contracts snap) && is_nil (rows snap) = false
    ∧ s' = with_prev (Some (dataJSON snap))
             (buildGrid (contracts snap) (rows snap)
                (match region with Grid _ _ x => x | _ => 0 end) s).
Proof.
  unfold loadPositions_resume, load_error.
  destruct r as [message | | snap]; try (destruct (container s); discriminate).
  destruct (container s) as [region |]; [| discriminate].
  destruct (bool_decide_reflect (prevDataJSON s = Some (dataJSON snap))) as [? | Hne];
    [discriminate |].
  destruct (is_nil (contracts snap) && is_nil (rows snap)) eqn:Hnil; [discriminate |].
  intros [= <-]. exists snap, region. auto.
Qed.

(** A call of [loadPositions] leaves the store as it is or empties it. *)
Lemma loadPositions_resume_store prod r s :
  selectedCells (fst (loadPositions_resume prod r s)) = selectedCells s
  ∨ selectedCells (fst (loadPositions_resume prod r s)) = [].
Proof.
  unfold loadPositions_resume, load_error.
  destruct r as [message | | snap]; try (destruct (container s); left; reflexivity).
  destruct (container s) as [region |]; [| left; reflexivity].
  destruct (bool_decide _); [left; reflexivity |].
  destruct (is_nil (contracts snap) && is_nil (rows snap)); [left; reflexivity |].
  simpl. unfold buildGrid. destruct (build_rows _ _ _) as [cells body].
  unfold attachCellSelectionHandlers. simpl.
  destruct (panel s); [right | left]; reflexivity.
Qed.

(** After a snapshot has gone through [loadPositions], the slot holds its
    fingerprint; only a page without a container keeps its slot. *)
Lemma loadPositions_resume_slot prod snap s :
  container s ≠ None →
  prevDataJSON (fst (loadPositions_resume prod (PosOk snap) s)) = Some (dataJSON snap).
Proof.
  intros Hc. simpl. destruct (container s) as [region |]; [| contradiction].
  destruct (bool_decide_reflect (prevDataJSON s = Some (dataJSON snap))) as [He | Hne];
    [exact He |].
  destruct (is_nil (contracts snap) && is_nil (rows snap)); reflexivity.
Qed.

Lemma loadPositions_resume_container prod r s :
  container (fst (loadPositions_resume prod r s)) = None ↔ container s = None.
Proof.
  unfold loadPositions_resume, load_error.
  destruct r as [message | | snap];
    try (destruct (container s) eqn:Ec; simpl; rewrite ?Ec; intuition congruence).
  destruct (container s) as [region |] eqn:Ec; [| simpl; rewrite Ec; tauto].
  destruct (bool_decide _); [simpl; rewrite Ec; tauto |].
  destruct (is_nil (contracts snap) && is_nil (rows snap)); simpl.
  - intuition congruence.
  - unfold buildGrid. destruct (build_rows _ _ _) as [cells body].
    unfold attachCellSelectionHandlers. simpl.
    destruct (panel s); simpl; intuition congruence.
Qed.

(** ** Effects of a run *)

Lemma posts_app a b : posts (a ++ b) = posts a ++ posts b.
Proof.
  induction a as [| e a IH]; [reflexivity |].
  destruct e; simpl; rewrite ?IH; reflexivity.
Qed.

Lemma created_app a b : created (a ++ b) = created a ++ created b.
Proof.
  induction a as [| e a IH]; [reflexivity |].
  destruct e; simpl; rewrite ?IH; reflexivity.
Qed.

Lemma alerts_app a b : alerts (a ++ b) = alerts a ++ alerts b.
Proof.
  induction a as [| e a IH]; [reflexivity |].
  destruct e; simpl; rewrite ?IH; reflexivity.
Qed.

Lemma all_answered_lt js_eval w n j :
  all_answered js_eval w n = true → (j < n)%nat → answered js_eval w j = true.
Proof.
  unfold all_answered. rewrite forallb_forall. intros H Hj.
  apply H, in_seq. lia.
Qed.

Lemma all_answered_le js_eval w n m :
  all_answered js_eval w n = true → (m ≤ n)%nat → all_answered js_eval w m = true.
Proof.
  unfold all_answered. rewrite !forallb_forall. intros H Hm x Hx.
  apply H. apply in_seq. apply in_seq in Hx. lia.
Qed.

Section ProtocolFacts.

Variable js_eval : string → option JS.value.

Lemma answered_inv w k :
  answered js_eval w k = true →
  ∃ userInput pattern createData,
    prompts w k = Some userInput
    ∧ read_pattern js_eval userInput = Some pattern
    ∧ creates w k = Response true createData.
Proof.
  unfold answered, read_pattern. intros H.
  destruct (prompts w k) as [u |]; [| discriminate].
  destruct (js_eval u) as [[| | | | | l |] |] eqn:Eu; try discriminate.
  destruct (creates w k) as [| [] d]; try discriminate.
  exists u, (JS.VArr l), d. rewrite Eu. auto.
Qed.

(** The loop over the missing names, as long as every prompt is answered:
    one create request per name, in order, and nothing else that counts. *)
Lemma resolve_missing_prefix w pre rest k0 :
  (∀ j, (j < length pre)%nat → answered js_eval w (k0 + j) = true) →
  ∃ asked,
    resolve_missing js_eval w (pre ++ rest) k0
    = (asked ++ fst (resolve_missing js_eval w rest (k0 + length pre)),
       snd (resolve_missing js_eval w rest (k0 + length pre)))
    ∧ created asked = pre ∧ posts asked = [] ∧ alerts asked = [].
Proof.
  revert k0. induction pre as [| n pre IH]; intros k0 Hans.
  - exists []. simpl. rewrite Nat.add_0_r.
    destruct (resolve_missing _ _ _ _); auto.
  - destruct (answered_inv w k0) as (u & pat & d & Hu & Hpat & Hd).
    { rewrite <- (Nat.add_0_r k0). apply Hans. simpl. lia. }
    destruct (IH (S k0)) as (asked & Hrun & Hc & Hp & Ha).
    { intros j Hj. replace (S k0 + j)%nat with (k0 + S j)%nat by lia.
      apply Hans. simpl. lia. }
    exists (prompt_pattern n :: PostCreate n pat :: asked).
    simpl. rewrite Hu, Hpat, Hd, Hrun.
    replace (k0 + S (length pre))%nat with (S k0 + length pre)%nat by lia.
    simpl. rewrite Hc, Hp, Ha. auto.
Qed.

Lemma resolve_missing_all w missing :
  all_answered js_eval w (length missing) = true →
  ∃ asked,
    resolve_missing js_eval w missing 0 = (asked, None)
    ∧ created asked = missing ∧ posts asked = [] ∧ alerts asked = [].
Proof.
  intros Hall.
  destruct (resolve_missing_prefix w missing [] 0) as (asked & Hrun & Hc & Hp & Ha).
  { intros j Hj. apply (all_answered_lt _ _ _ _ Hall Hj). }
  exists asked. rewrite app_nil_r in Hrun. simpl in Hrun.
  rewrite app_nil_r in Hrun. auto.
Qed.

(** The loop stopped at the k-th name: by a declined prompt or by a text
    that is no array. *)
Lemma resolve_missing_stops w missing k missingName :
  missing !! k = Some missingName →
  all_answered js_eval w k = true →
  match prompts w k with
  | None => True
  | Some userInput => read_pattern js_eval userInput = None
  end →
  ∃ asked,
    resolve_missing js_eval w missing 0
    = (asked ++ [prompt_pattern missingName],
       Some (match prompts w k with
             | None => "Operation cancelled by user"
             | Some _ => "Invalid pattern provided for " +:+ JS.to_string missingName
             end))
    ∧ created asked = take k missing ∧ posts asked = [] ∧ alerts asked = [].
Proof.
  intros Hk Hall Hstop.
  pose proof (lookup_lt_Some _ _ _ Hk) as Hlt.
  destruct (resolve_missing_prefix w (take k missing) (drop k missing) 0)
    as (asked & Hrun & Hc & Hp & Ha).
  { intros j Hj. rewrite length_take in Hj.
    apply (all_answered_lt _ _ _ _ Hall). lia. }
  rewrite take_drop in Hrun.
  rewrite length_take, Nat.min_l in Hrun by lia. simpl in Hrun.
  rewrite (drop_S _ _ _ Hk) in Hrun. simpl in Hrun.
  exists asked. split; [| auto].
  rewrite Hrun. destruct (prompts w k) as [u |]; [rewrite Hstop |]; reflexivity.
Qed.

(** The success path: what it leaves and what it does. *)
Lemma on_success_run data w s :
  ∃ effects thrown,
    on_success data w s
    = (fst (loadPositions (refresh w) (clearSelection s)), effects, thrown)
    ∧ posts effects = []
    ∧ created effects = []
    ∧ alerts effects = []
    ∧ (∀ message, hedge_applied data = Some message →
         thrown = None
         ∧ effects = [GetPositions (current_product s)
                        (snd (loadPositions (refresh w) (clearSelection s)));
                      ConsoleLog message]).
Proof.
  unfold on_success.
  destruct (loadPositions (refresh w) (clearSelection s)) as [s2 path].
  destruct (hedge_applied data) as [m |]; simpl.
  - eexists _, _. do 4 (split; [reflexivity |]).
    intros message [= ->]. split; reflexivity.
  - eexists _, _. do 4 (split; [reflexivity |]). discriminate.
Qed.

Lemma retry_once_run body w s :
  ∃ effects thrown,
    retry_once body w s
    = (if retry_failed w then s
       else fst (loadPositions (refresh w) (clearSelection s)),
       PostHedge body :: effects, thrown)
    ∧ posts effects = [] ∧ created effects = [] ∧ alerts effects = []
    ∧ (retry_failed w = true → is_Some thrown)
    ∧ (∀ data message,
         retry w = Response true data → hedge_applied data = Some message →
         thrown = None
         ∧ effects = [GetPositions (current_product s)
                        (snd (loadPositions (refresh w) (clearSelection s)));
                      ConsoleLog message]).
Proof.
  unfold retry_once, retry_failed.
  destruct (retry w) as [message | [] data].
  - exists [], (Some message). do 4 (split; [reflexivity |]).
    split; [intros _; eexists; reflexivity | discriminate].
  - destruct (on_success_run data w s) as (effects & thrown & Hrun & Hp & Hc & Ha & Hm).
    rewrite Hrun. exists effects, thrown.
    split; [reflexivity |]. do 3 (split; [assumption |]).
    split; [discriminate |].
    intros d m [= <-] Hd. apply (Hm m Hd).
  - eexists [], (Some _). do 4 (split; [reflexivity |]).
    split; [intros _; eexists; reflexivity | discriminate].
Qed.

Lemma applyHedgeFromSelection_run w s prod :
  selectedCells s ≠ [] → product s = Some prod →
  let body := build_payload prod (selectedCells s) in
  applyHedgeFromSelection js_eval w s
  = (fst (fst (hedge_try js_eval body w s)),
     PostHedge body :: snd (fst (hedge_try js_eval body w s)) ++
       match snd (hedge_try js_eval body w s) with
       | None => []
       | Some message => [Alert ("Error: " +:+ message); ConsoleError message]
       end).
Proof.
  intros Hne Hprod. unfold applyHedgeFromSelection. rewrite Hprod.
  destruct (selectedCells s) as [| sel l] eqn:Es; [contradiction |].
  simpl. destruct (hedge_try _ _ _ _) as [[s' effects] [message |]]; simpl.
  - reflexivity.
  - rewrite app_nil_r. reflexivity.
Qed.

(** A resolved recovery: whatever was asked, then the one retry. *)
Lemma hedge_try_recovered body w s :
  recovered js_eval w = true →
  ∃ asked effects thrown,
    hedge_try js_eval body w s
    = (if retry_failed w then s
       else fst (loadPositions (refresh w) (clearSelection s)),
       asked ++ PostHedge body :: effects, thrown)
    ∧ posts asked = [] ∧ alerts asked = []
    ∧ posts effects = [] ∧ alerts effects = []
    ∧ (retry_failed w = true → is_Some thrown)
    ∧ (∀ data message,
         retry w = Response true data → hedge_applied data = Some message →
         thrown = None
         ∧ effects = [GetPositions (current_product s)
                        (snd (loadPositions (refresh w) (clearSelection s)));
                      ConsoleLog message]).
Proof.
  unfold recovered, hedge_try. intros Hrec.
  destruct (submit w) as [| [] data]; try discriminate.
  destruct (retry_once_run body w s)
    as (effects & thrown & Hrun & Hp & Hc & Ha & Hf & Hm).
  destruct (classify data) as [missing | pattern |]; [| | discriminate].
  - destruct (resolve_missing_all w missing Hrec) as (asked & Hres & _ & Hpa & Haa).
    unfold missing_strategies. rewrite Hres, Hrun.
    exists asked, effects, thrown. auto 10.
  - unfold missing_hedged_pattern.
    destruct (prompts w 0) as [suggested |]; [| discriminate].
    destruct (creates w 0) as [| [] createData]; try discriminate.
    rewrite Hrun. eexists [_; _], effects, thrown.
    split; [reflexivity |]. auto 10.
Qed.

Lemma read_pattern_not_array userInput :
  (∀ items, js_eval userInput ≠ Some (JS.VArr items)) →
  read_pattern js_eval userInput = None.
Proof.
  intros H. unfold read_pattern.
  destruct (js_eval userInput) as [[| | | | | items |] |]; try reflexivity.
  destruct (H items eq_refl).
Qed.

(** An aborted loop aborts the run: the page is as it was and the error is
    alerted. *)
Lemma missing_strategies_aborted missing body w s asked message :
  resolve_missing js_eval w missing 0 = (asked, Some message) →
  missing_strategies js_eval missing body w s = (s, asked, Some message).
Proof. intros H. unfold missing_strategies. rewrite H. reflexivity. Qed.

Lemma missing_strategies_effects missing body w s :
  ∃ more,
    snd (fst (missing_strategies js_eval missing body w s))
    = fst (resolve_missing js_eval w missing 0) ++ more.
Proof.
  unfold missing_strategies.
  destruct (resolve_missing js_eval w missing 0) as [effects [message |]].
  - exists []. simpl. rewrite app_nil_r. reflexivity.
  - destruct (retry_once body w s) as [[s' more] thrown]. exists more. reflexivity.
Qed.

Lemma resolve_missing_head w missingName rest k userInput items :
  prompts w k = Some userInput →
  js_eval userInput = Some (JS.VArr items) →
  In (PostCreate missingName (JS.VArr items))
     (fst (resolve_missing js_eval w (missingName :: rest) k)).
Proof.
  intros Hu Hev. simpl. unfold read_pattern. rewrite Hu, Hev. simpl.
  destruct (creates w k) as [| [] d]; simpl; auto.
  destruct (resolve_missing js_eval w rest (S k)); simpl; auto.
Qed.

(** The k-th name is reached and its prompt is answered with a text that
    evaluates to an array: the create request for it goes out. *)
Lemma resolve_missing_creates w missing k missingName userInput items :
  missing !! k = Some missingName →
  all_answered js_eval w k = true →
  prompts w k = Some userInput →
  js_eval userInput = Some (JS.VArr items) →
  In (PostCreate missingName (JS.VArr items))
     (fst (resolve_missing js_eval w missing 0)).
Proof.
  intros Hk Hall Hu Hev.
  destruct (resolve_missing_prefix w (take k missing) (drop k missing) 0)
    as (asked & Hrun & _).
  { intros j Hj. rewrite length_take in Hj.
    apply (all_answered_lt _ _ _ _ Hall). lia. }
  pose proof (lookup_lt_Some _ _ _ Hk) as Hlt.
  rewrite take_drop in Hrun.
  rewrite length_take, Nat.min_l in Hrun by lia. simpl in Hrun.
  rewrite (drop_S _ _ _ Hk) in Hrun. rewrite Hrun. cbn [fst].
  apply in_or_app. right.
  apply (resolve_missing_head w missingName _ k userInput items Hu Hev).
Qed.

End ProtocolFacts.

(** ** The hedge run among the other handlers *)

Lemma fetches_app e1 e2 : fetches (e1 ++ e2) = fetches e1 ++ fetches e2.
Proof.
  induction e1 as [| [] e1 IH]; simpl; rewrite ?IH; reflexivity.
Qed.

Lemma logs_app e1 e2 : logs (e1 ++ e2) = logs e1 ++ logs e2.
Proof.
  induction e1 as [| [] e1 IH]; simpl; rewrite ?IH; reflexivity.
Qed.

Section ConcurrentFacts.

Variable amb : Concurrent.Ambient.

Lemma by_others_refl s : Concurrent.by_others amb s s.
Proof. intros P _ H. exact H. Qed.

Lemma by_others_trans s1 s2 s3 : Concurrent.by_others amb s1 s2 → Concurrent.by_others amb s2 s3 → Concurrent.by_others amb s1 s3.
Proof. intros H12 H23 P HP H. apply (H23 P HP), (H12 P HP), H. Qed.

Lemma by_others_meanwhile a s : Concurrent.by_others amb s (Concurrent.meanwhile amb a s).
Proof. intros P [Hm _] H. apply Hm, H. Qed.

Lemma by_others_eval userInput body s :
  Concurrent.by_others amb s (snd (Concurrent.js_eval amb userInput body s)).
Proof. intros P [_ He] H. apply He, H. Qed.

Lemma read_pattern_page userInput body s :
  snd (Concurrent.read_pattern amb userInput body s)
  = snd (Concurrent.js_eval amb userInput body s)
  ∧ snd (fst (Concurrent.read_pattern amb userInput body s))
    = snd (fst (Concurrent.js_eval amb userInput body s)).
Proof.
  unfold Concurrent.read_pattern.
  destruct (Concurrent.js_eval amb userInput body s) as [[v body'] s']. auto.
Qed.

(** The loop over the missing names writes nothing to the page itself,
    submits no hedge, raises no alert, fetches no positions and logs
    nothing; its create requests are those of the first names of the list,
    all of them when it runs through. *)
Lemma resolve_missing_frame w missing : ∀ k body s,
  Concurrent.by_others amb s (fst (fst (fst (Concurrent.resolve_missing amb w missing k body s))))
  ∧ posts (snd (fst (Concurrent.resolve_missing amb w missing k body s))) = []
  ∧ alerts (snd (fst (Concurrent.resolve_missing amb w missing k body s))) = []
  ∧ fetches (snd (fst (Concurrent.resolve_missing amb w missing k body s))) = []
  ∧ logs (snd (fst (Concurrent.resolve_missing amb w missing k body s))) = []
  ∧ created (snd (fst (Concurrent.resolve_missing amb w missing k body s)))
      `prefix_of` missing
  ∧ (snd (Concurrent.resolve_missing amb w missing k body s) = None →
       created (snd (fst (Concurrent.resolve_missing amb w missing k body s)))
       = missing).
Proof.
  induction missing as [| n missing IH]; intros k body s.
  - simpl. repeat split; auto using by_others_refl.
  - cbn [Concurrent.resolve_missing].
    destruct (prompts w k) as [u |].
    2:{ simpl. repeat split; auto using by_others_refl, prefix_nil. discriminate. }
    pose proof (by_others_eval u body s) as He.
    destruct (read_pattern_page u body s) as [Hpage _].
    destruct (Concurrent.read_pattern amb u body s) as [[pattern body1] s1].
    cbn [snd] in Hpage. rewrite <- Hpage in He.
    destruct pattern as [pattern |].
    2:{ simpl. repeat split; auto using prefix_nil. discriminate. }
    pose proof (by_others_trans _ _ _ He
                  (by_others_meanwhile (Concurrent.AwaitCreate k) s1)) as Hm.
    destruct (creates w k) as [m | [] d].
    + simpl. repeat split; auto. apply prefix_cons, prefix_nil. discriminate.
    + specialize (IH (S k) body1 (Concurrent.meanwhile amb (Concurrent.AwaitCreate k) s1)).
      destruct (Concurrent.resolve_missing amb w missing (S k) body1 _)
        as [[[s3 body3] effects] thrown].
      simpl in *. destruct IH as (Hf & Hp & Ha & Hg & Hl & Hc & Hn).
      repeat split; auto.
      * eapply by_others_trans; eassumption.
      * apply prefix_cons, Hc.
      * intros Ht. rewrite (Hn Ht). reflexivity.
    + simpl. repeat split; auto. apply prefix_cons, prefix_nil. discriminate.
Qed.

(** The loop over a list whose first part runs through goes on with the
    rest from where the first part left the page and the payload. *)
Lemma resolve_missing_app w pre rest : ∀ k body s,
  snd (Concurrent.resolve_missing amb w pre k body s) = None →
  Concurrent.resolve_missing amb w (pre ++ rest) k body s
  = (fst (fst (fst (Concurrent.resolve_missing amb w rest (k + length pre)
           (snd (fst (fst (Concurrent.resolve_missing amb w pre k body s))))
           (fst (fst (fst (Concurrent.resolve_missing amb w pre k body s))))))),
     snd (fst (fst (Concurrent.resolve_missing amb w rest (k + length pre)
           (snd (fst (fst (Concurrent.resolve_missing amb w pre k body s))))
           (fst (fst (fst (Concurrent.resolve_missing amb w pre k body s))))))),
     snd (fst (Concurrent.resolve_missing amb w pre k body s))
     ++ snd (fst (Concurrent.resolve_missing amb w rest (k + length pre)
           (snd (fst (fst (Concurrent.resolve_missing amb w pre k body s))))
           (fst (fst (fst (Concurrent.resolve_missing amb w pre k body s)))))),
     snd (Concurrent.resolve_missing amb w rest (k + length pre)
           (snd (fst (fst (Concurrent.resolve_missing amb w pre k body s))))
           (fst (fst (fst (Concurrent.resolve_missing amb w pre k body s)))))).
Proof.
  induction pre as [| n pre IH]; intros k body s Hnone.
  - simpl. rewrite Nat.add_0_r.
    destruct (Concurrent.resolve_missing amb w rest k body s) as [[[? ?] ?] ?].
    reflexivity.
  - cbn [app Concurrent.resolve_missing] in *.
    destruct (prompts w k) as [u |]; [| discriminate].
    destruct (Concurrent.read_pattern amb u body s) as [[[pattern |] body1] s1];
      [| discriminate].
    destruct (creates w k) as [m | [] d]; try discriminate.
    specialize (IH (S k) body1 (Concurrent.meanwhile amb (Concurrent.AwaitCreate k) s1)).
    destruct (Concurrent.resolve_missing amb w pre (S k) body1 _)
      as [[[s3 body3] effects] thrown] eqn:Hpre.
    cbn [fst snd] in *. subst thrown. rewrite (IH eq_refl).
    replace (k + length (n :: pre))%nat with (S k + length pre)%nat
      by (simpl; lia).
    destruct (Concurrent.resolve_missing amb w rest (S k + length pre) body3 s3)
      as [[[s4 body4] effects'] thrown'].
    cbn [fst snd app]. reflexivity.
Qed.

Lemma on_success_among data w s :
  Concurrent.on_success amb data w s
  = (fst (Concurrent.refreshed amb w s),
     GetPositions (current_product (clearSelection s))
       (snd (Concurrent.refreshed amb w s))
     :: match hedge_applied data with
        | Some message => [ConsoleLog message]
        | None => []
        end,
     match hedge_applied data with
     | Some _ => None
     | None => Some (JS.type_error "hedged_name")
     end).
Proof.
  unfold Concurrent.on_success, Concurrent.refreshed.
  destruct (loadPositions_resume _ _ _) as [s2 path].
  destruct (hedge_applied data); reflexivity.
Qed.


(** What the [try] block comes to, whatever the others do meanwhile.  Up
    to the point where the outcome is settled the run writes nothing to
    the page, submits nothing but the retry, fetches no positions, logs
    nothing and raises no alert.  It ends on the success path when the
    hedge is accepted, and with an error thrown otherwise. *)
Lemma hedge_try_outcome body w s :
  let s1 := Concurrent.meanwhile amb Concurrent.AwaitSubmit s in
  let gap :=
    match submit w with
    | Response false data => Concurrent.resolved amb data body w s1
    | _ => false
    end in
  let body' :=
    match submit w with
    | Response false data => Concurrent.retry_payload amb data body w s1
    | _ => body
    end in
  ∃ s0 before,
    Concurrent.by_others amb s s0
    ∧ posts before = [] ∧ alerts before = [] ∧ fetches before = []
    ∧ logs before = []
    ∧ match (match submit w with
             | Response true data => Some data
             | _ => if gap then match retry w with
                                | Response true data => Some data
                                | _ => None
                                end
                    else None
             end) with
      | Some data =>
          Concurrent.hedge_try amb body w s
          = (fst (Concurrent.refreshed amb w s0),
             before ++ (if gap then [PostHedge body'] else [])
             ++ GetPositions (current_product (clearSelection s0))
                  (snd (Concurrent.refreshed amb w s0))
                :: match hedge_applied data with
                   | Some message => [ConsoleLog message]
                   | None => []
                   end,
             match hedge_applied data with
             | Some _ => None
             | None => Some (JS.type_error "hedged_name")
             end)
      | None =>
          ∃ message,
            Concurrent.hedge_try amb body w s
            = (s0, before ++ (if gap then [PostHedge body'] else []), Some message)
      end.
Proof.
  intros s1 gap body'. subst gap body'. unfold Concurrent.hedge_try. fold s1.
  pose proof (by_others_meanwhile Concurrent.AwaitSubmit s) as H1. fold s1 in H1.
  assert (Hretry : ∀ b s2 asked,
    Concurrent.by_others amb s s2 →
    posts asked = [] → alerts asked = [] → fetches asked = [] → logs asked = [] →
    ∃ s0 before,
      Concurrent.by_others amb s s0
      ∧ posts before = [] ∧ alerts before = [] ∧ fetches before = []
      ∧ logs before = []
      ∧ match (match retry w with Response true data => Some data | _ => None end) with
        | Some data =>
            (let '(s', more, thrown) := Concurrent.retry_once amb b w s2 in
             (s', asked ++ more, thrown))
            = (fst (Concurrent.refreshed amb w s0),
               before ++ [PostHedge b]
               ++ GetPositions (current_product (clearSelection s0))
                    (snd (Concurrent.refreshed amb w s0))
                  :: match hedge_applied data with
                     | Some message => [ConsoleLog message]
                     | None => []
                     end,
               match hedge_applied data with
               | Some _ => None
               | None => Some (JS.type_error "hedged_name")
               end)
        | None =>
            ∃ message,
              (let '(s', more, thrown) := Concurrent.retry_once amb b w s2 in
               (s', asked ++ more, thrown))
              = (s0, before ++ [PostHedge b], Some message)
        end).
  { intros b s2 asked H2 Hp Ha Hf Hl.
    exists (Concurrent.meanwhile amb Concurrent.AwaitRetry s2), asked.
    split; [eapply by_others_trans; [exact H2 | apply by_others_meanwhile] |].
    do 4 (split; [assumption |]).
    unfold Concurrent.retry_once.
    destruct (retry w) as [m | [] d].
    - eexists. reflexivity.
    - rewrite on_success_among. reflexivity.
    - eexists. reflexivity. }
  destruct (submit w) as [m | [] data].
  - exists s1, []. repeat split; auto. eexists. reflexivity.
  - exists s1, []. repeat split; auto. rewrite on_success_among. reflexivity.
  - unfold Concurrent.resolved, Concurrent.retry_payload.
    destruct (classify data) as [missing | pattern |].
    + unfold Concurrent.missing_strategies.
      destruct (resolve_missing_frame w missing 0 body s1)
        as (Hf & Hp & Ha & Hg & Hl & _ & _).
      destruct (Concurrent.resolve_missing amb w missing 0 body s1)
        as [[[s2 body2] effects] [m |]]; cbn [fst snd] in *.
      * exists s2, effects. split; [eapply by_others_trans; eassumption |].
        do 4 (split; [assumption |]). exists m. rewrite app_nil_r. reflexivity.
      * apply Hretry; auto. eapply by_others_trans; eassumption.
    + unfold Concurrent.missing_hedged_pattern.
      destruct (prompts w 0) as [suggested |].
      2:{ exists s1, [prompt_name pattern]. repeat split; auto. eexists. reflexivity. }
      pose proof (by_others_trans _ _ _ H1
                    (by_others_meanwhile (Concurrent.AwaitCreate 0) s1)) as H2.
      destruct (creates w 0) as [m | [] d].
      * exists (Concurrent.meanwhile amb (Concurrent.AwaitCreate 0) s1),
          [prompt_name pattern; PostCreate (JS.VStr suggested) pattern].
        repeat split; auto. eexists. reflexivity.
      * apply Hretry; auto.
      * exists (Concurrent.meanwhile amb (Concurrent.AwaitCreate 0) s1),
          [prompt_name pattern; PostCreate (JS.VStr suggested) pattern].
        repeat split; auto. eexists. reflexivity.
    + exists s1, []. repeat split; auto. eexists. reflexivity.
Qed.

Lemma applyHedgeFromSelection_among w s prod :
  selectedCells s ≠ [] → product s = Some prod →
  let body := build_payload prod (selectedCells s) in
  Concurrent.applyHedgeFromSelection amb w s
  = (fst (fst (Concurrent.hedge_try amb body w s)),
     PostHedge body :: snd (fst (Concurrent.hedge_try amb body w s)) ++
       match snd (Concurrent.hedge_try amb body w s) with
       | None => []
       | Some message => [Alert ("Error: " +:+ message); ConsoleError message]
       end).
Proof.
  intros Hne Hprod. unfold Concurrent.applyHedgeFromSelection. rewrite Hprod.
  destruct (selectedCells s) as [| sel l] eqn:Es; [contradiction |].
  cbv zeta.
  destruct (Concurrent.hedge_try _ _ _ _) as [[s' effects] [message |]]; cbn [fst snd].
  - reflexivity.
  - rewrite app_nil_r. reflexivity.
Qed.

End ConcurrentFacts.

(** *** The quiet run *)

Lemma quiet_resolve_missing ev w missing : ∀ k body s,
  Concurrent.resolve_missing (Concurrent.quiet ev) w missing k body s
  = (s, body, fst (resolve_missing ev w missing k), snd (resolve_missing ev w missing k)).
Proof.
  induction missing as [| n missing IH]; intros k body s; [reflexivity |].
  cbn [Concurrent.resolve_missing resolve_missing].
  destruct (prompts w k) as [u |]; [| reflexivity].
  unfold Concurrent.read_pattern, read_pattern. cbn [Concurrent.quiet Concurrent.js_eval].
  destruct (ev u) as [v |]; [| reflexivity].
  destruct (JS.isArray v); [| reflexivity].
  cbn [Concurrent.meanwhile].
  destruct (creates w k) as [m | [] d]; try reflexivity.
  rewrite IH. destruct (resolve_missing ev w missing (S k)) as [effects thrown].
  reflexivity.
Qed.

(** With nothing else running and texts without side effects, the run is
    [applyHedgeFromSelection] as defined for the page alone. *)
Lemma quiet_run ev w s :
  Concurrent.applyHedgeFromSelection (Concurrent.quiet ev) w s
  = applyHedgeFromSelection ev w s.
Proof.
  unfold Concurrent.applyHedgeFromSelection, applyHedgeFromSelection.
  destruct (selectedCells s); [reflexivity |].
  destruct (product s) as [prod |]; [| reflexivity].
  cbv zeta.
  assert (Ht : ∀ body, Concurrent.hedge_try (Concurrent.quiet ev) body w s
                       = hedge_try ev body w s).
  { intros body. unfold Concurrent.hedge_try, hedge_try.
    cbn [Concurrent.quiet Concurrent.meanwhile].
    destruct (submit w) as [m | [] data]; try reflexivity.
    destruct (classify data) as [missing | pattern |]; [| | reflexivity].
    - unfold Concurrent.missing_strategies, missing_strategies.
      rewrite quiet_resolve_missing.
      destruct (resolve_missing ev w missing 0) as [effects [m |]]; reflexivity.
    - unfold Concurrent.missing_hedged_pattern, missing_hedged_pattern.
      cbn [Concurrent.quiet Concurrent.meanwhile].
      destruct (prompts w 0); [| reflexivity].
      destruct (creates w 0) as [m | [] d]; reflexivity. }
  rewrite Ht. reflexivity.
Qed.

(** *** Reaching the k-th missing name *)

Section ConcurrentReach.

Variable amb : Concurrent.Ambient.

(** When the loop runs through the first [k] names, it gets to the k-th
    with the page and the payload as those left them. *)
Lemma resolve_missing_reaches w missing k missingName body s :
  missing !! k = Some missingName →
  snd (Concurrent.resolve_missing amb w (take k missing) 0 body s) = None →
  ∃ sk bodyk asked,
    Concurrent.resolve_missing amb w (take k missing) 0 body s
    = (sk, bodyk, asked, None)
    ∧ Concurrent.by_others amb s sk
    ∧ created asked = take k missing
    ∧ posts asked = [] ∧ alerts asked = [] ∧ fetches asked = [] ∧ logs asked = []
    ∧ Concurrent.resolve_missing amb w missing 0 body s
      = (fst (fst (fst (Concurrent.resolve_missing amb w
                          (missingName :: drop (S k) missing) k bodyk sk))),
         snd (fst (fst (Concurrent.resolve_missing amb w
                          (missingName :: drop (S k) missing) k bodyk sk))),
         asked ++ snd (fst (Concurrent.resolve_missing amb w
                              (missingName :: drop (S k) missing) k bodyk sk)),
         snd (Concurrent.resolve_missing amb w
                (missingName :: drop (S k) missing) k bodyk sk)).
Proof.
  intros Hname Hnone.
  pose proof (lookup_lt_Some _ _ _ Hname) as Hlt.
  pose proof (resolve_missing_app amb w (take k missing)
                (missingName :: drop (S k) missing) 0 body s Hnone) as Happ.
  rewrite <- (drop_S _ _ _ Hname), take_drop in Happ.
  rewrite length_take, Nat.min_l in Happ by lia. cbn [Nat.add] in Happ.
  destruct (resolve_missing_frame amb w (take k missing) 0 body s)
    as (Hf & Hp & Ha & Hg & Hl & _ & Hc).
  destruct (Concurrent.resolve_missing amb w (take k missing) 0 body s)
    as [[[sk bodyk] asked] thrown].
  cbn [fst snd] in *. subst thrown.
  exists sk, bodyk, asked. rewrite <- (drop_S _ _ _ Hname).
  repeat split; auto.
Qed.

End ConcurrentReach.

(** *** What a run comes to *)

Section ConcurrentOutcome.

Variable amb : Concurrent.Ambient.

(** Every run with a selection and a product selector, whatever the others
    do meanwhile.  Until its outcome is settled the run writes nothing to
    the page; it submits the hedge, and once more after a resolved gap; it
    then either takes the success path from the page as it stands, or
    raises one alert and stops. *)
Lemma run_outcome w s prod :
  selectedCells s ≠ [] → product s = Some prod →
  let body := build_payload prod (selectedCells s) in
  let body' :=
    match submit w with
    | Response false data =>
        Concurrent.retry_payload amb data body w
          (Concurrent.meanwhile amb Concurrent.AwaitSubmit s)
    | _ => body
    end in
  let again := if Concurrent.recovered amb w s then [PostHedge body'] else [] in
  ∃ s0 before,
    Concurrent.by_others amb s s0
    ∧ posts before = [] ∧ alerts before = [] ∧ fetches before = []
    ∧ logs before = []
    ∧ match Concurrent.accepted amb w s with
      | Some data =>
          Concurrent.applyHedgeFromSelection amb w s
          = (fst (Concurrent.refreshed amb w s0),
             PostHedge body :: before ++ again
             ++ GetPositions (current_product (clearSelection s0))
                  (snd (Concurrent.refreshed amb w s0))
                :: match hedge_applied data with
                   | Some message => [ConsoleLog message]
                   | None =>
                       [Alert ("Error: " +:+ JS.type_error "hedged_name");
                        ConsoleError (JS.type_error "hedged_name")]
                   end)
      | None =>
          ∃ message,
            Concurrent.applyHedgeFromSelection amb w s
            = (s0, PostHedge body :: before ++ again
                   ++ [Alert ("Error: " +:+ message); ConsoleError message])
      end.
Proof.
  intros Hne Hprod body body' again. subst again body'.
  rewrite (applyHedgeFromSelection_among amb w s prod Hne Hprod). fold body.
  assert (Hcur : current_product s = prod).
  { unfold current_product. rewrite Hprod. reflexivity. }
  unfold Concurrent.accepted, Concurrent.recovered. rewrite Hcur. fold body.
  destruct (hedge_try_outcome amb body w s)
    as (s0 & before & Hf & Hp & Ha & Hg & Hl & Hrun).
  exists s0, before. do 5 (split; [assumption |]).
  destruct (submit w) as [m | [] data].
  - destruct Hrun as [message ->]. exists message. cbn [fst snd].
    rewrite <- !app_assoc. reflexivity.
  - rewrite Hrun. cbn [fst snd].
    destruct (hedge_applied data); rewrite <- !app_assoc; cbn [app];
      rewrite ?app_nil_r; reflexivity.
  - destruct (Concurrent.resolved amb data body w _).
    + destruct (retry w) as [m | [] d].
      * destruct Hrun as [message ->]. exists message. cbn [fst snd].
        rewrite <- !app_assoc. reflexivity.
      * rewrite Hrun. cbn [fst snd].
        destruct (hedge_applied d); rewrite <- !app_assoc; cbn [app];
          rewrite ?app_nil_r; reflexivity.
      * destruct Hrun as [message ->]. exists message. cbn [fst snd].
        rewrite <- !app_assoc. reflexivity.
    + destruct Hrun as [message ->]. exists message. cbn [fst snd].
      rewrite <- !app_assoc. reflexivity.
Qed.

End ConcurrentOutcome.

(** ** Hedge application protocol: the claims *)

Section ConcurrentClaims.

Variable amb : Concurrent.Ambient.

(** C1 as the code has it.  When the backend accepts the hedge, on the
    first submit or on the retry, with a JSON object as body, the run has
    written nothing to the page until then; it empties the store of the
    page as it stands, calls [loadPositions] once and logs one
    confirmation with the hedge name, the base contract and the lots, and
    raises no alert.  The call of [loadPositions] is the ordinary one: it
    renders only a snapshot whose fingerprint differs from the stored one,
    and leaves through the short-circuit when the fingerprints are equal.
    When nothing else runs during that call the store is empty at the
    end.  After an acceptance on the first submit, the page the run finds
    is the one the other handlers made during that one request. *)
Theorem accepted_hedge_clears_and_reloads w s prod fields :
  selectedCells s ≠ [] → product s = Some prod →
  Concurrent.accepted amb w s = Some (JS.VObj fields) →
  ∃ s0,
    let cleared := clearSelection s0 in
    let waited := Concurrent.meanwhile amb Concurrent.AwaitRefresh cleared in
    let after := loadPositions_resume (current_product cleared) (refresh w) waited in
    let result := Concurrent.applyHedgeFromSelection amb w s in
    Concurrent.by_others amb s s0
    ∧ selectedCells cleared = []
    ∧ fst result = fst after
    ∧ fetches (snd result) = [(current_product cleared, snd after)]
    ∧ logs (snd result)
      = ["Hedge applied: " +:+ JS.to_string (JS.assoc "hedged_name" fields)
         +:+ " @ " +:+ JS.to_string (JS.assoc "base_contract" fields)
         +:+ " (+" +:+ JS.to_string (JS.assoc "hedged_lots" fields) +:+ ")"]
    ∧ alerts (snd result) = []
    ∧ (snd after = Rendered →
         ∃ snap, refresh w = PosOk snap ∧ prevDataJSON waited ≠ Some (dataJSON snap))
    ∧ (∀ snap, refresh w = PosOk snap → container waited ≠ None →
         prevDataJSON waited = Some (dataJSON snap) →
         snd after = Unchanged ∧ fst result = waited)
    ∧ (waited = cleared → selectedCells (fst result) = [])
    ∧ (∀ data, submit w = Response true data →
         s0 = Concurrent.meanwhile amb Concurrent.AwaitSubmit s).
Proof.
  intros Hne Hprod Hacc.
  assert (Hout : ∃ s0 before,
    Concurrent.by_others amb s s0
    ∧ posts before = [] ∧ alerts before = [] ∧ fetches before = []
    ∧ logs before = []
    ∧ (∀ data, submit w = Response true data →
         s0 = Concurrent.meanwhile amb Concurrent.AwaitSubmit s)
    ∧ Concurrent.applyHedgeFromSelection amb w s
      = (fst (Concurrent.refreshed amb w s0),
         PostHedge (build_payload prod (selectedCells s)) :: before
         ++ (if Concurrent.recovered amb w s
             then [PostHedge
                     match submit w with
                     | Response false data =>
                         Concurrent.retry_payload amb data
                           (build_payload prod (selectedCells s)) w
                           (Concurrent.meanwhile amb Concurrent.AwaitSubmit s)
                     | _ => build_payload prod (selectedCells s)
                     end]
             else [])
         ++ GetPositions (current_product (clearSelection s0))
              (snd (Concurrent.refreshed amb w s0))
            :: match hedge_applied (JS.VObj fields) with
               | Some message => [ConsoleLog message]
               | None =>
                   [Alert ("Error: " +:+ JS.type_error "hedged_name");
                    ConsoleError (JS.type_error "hedged_name")]
               end)).
  { destruct (submit w) as [m | [] data] eqn:Hsub.
    - unfold Concurrent.accepted, Concurrent.recovered in Hacc.
      rewrite Hsub in Hacc. discriminate.
    - exists (Concurrent.meanwhile amb Concurrent.AwaitSubmit s), [].
      split; [apply by_others_meanwhile |]. do 4 (split; [reflexivity |]).
      split; [reflexivity |].
      assert (Hd : data = JS.VObj fields).
      { unfold Concurrent.accepted in Hacc. rewrite Hsub in Hacc. congruence. }
      subst data.
      rewrite (applyHedgeFromSelection_among amb w s prod Hne Hprod).
      unfold Concurrent.hedge_try, Concurrent.recovered. rewrite Hsub.
      rewrite on_success_among. reflexivity.
    - destruct (run_outcome amb w s prod Hne Hprod)
        as (s0 & before & Hf & Hp & Ha & Hg & Hl & Hrun).
      rewrite Hacc, Hsub in Hrun. exists s0, before.
      do 5 (split; [assumption |]). split; [discriminate | exact Hrun]. }
  destruct Hout as (s0 & before & Hf & Hp & Ha & Hg & Hl & Hfirst & Hrun).
  exists s0. cbv zeta.
  fold (Concurrent.refreshed amb w s0). rewrite Hrun. cbn [fst snd].
  split; [exact Hf |]. split; [reflexivity |]. split; [reflexivity |].
  assert (Hagain : ∀ b, fetches (if Concurrent.recovered amb w s
                                   then [PostHedge b] else []) = []
                        ∧ logs (if Concurrent.recovered amb w s
                                then [PostHedge b] else []) = []
                        ∧ alerts (if Concurrent.recovered amb w s
                                  then [PostHedge b] else []) = []).
  { intros b. destruct (Concurrent.recovered amb w s); auto. }
  split; [| split; [| split]].
  - cbn [fetches]. rewrite !fetches_app, Hg, (proj1 (Hagain _)). reflexivity.
  - cbn [logs]. rewrite !logs_app, Hl, (proj1 (proj2 (Hagain _))). reflexivity.
  - cbn [alerts]. rewrite !alerts_app, Ha, (proj2 (proj2 (Hagain _))). reflexivity.
  - unfold Concurrent.refreshed.
    set (waited := Concurrent.meanwhile amb Concurrent.AwaitRefresh (clearSelection s0)).
    split; [| split].
    + intros Hr.
      destruct (loadPositions_resume (current_product (clearSelection s0))
                  (refresh w) waited) as [s' path] eqn:Hlp.
      cbn [snd] in Hr. subst path.
      destruct (loadPositions_resume_rendered _ _ _ _ Hlp)
        as (snap & region & Hsnap & _ & Hprev & _).
      exists snap. auto.
    + intros snap Hsnap Hc Hprev. rewrite Hsnap.
      rewrite loadPositions_resume_unchanged; auto.
    + split; [| exact Hfirst].
      intros Hw. rewrite Hw.
      destruct (loadPositions_resume_store
                  (current_product (clearSelection s0)) (refresh w) (clearSelection s0))
        as [-> | ->]; reflexivity.
Qed.


(** C3 as the code has it.  The operator declines the k-th prompt of a
    recovery, every earlier one having been resolved.  The run has
    written nothing to the page: the store and the grid are as the other
    handlers and the evaluated texts left them, and as they were at the
    start when those left them alone.  The create requests issued are
    those of the k names before the declined one and no other, the hedge
    is not submitted again, no positions are fetched, and the run ends
    with the alert of the cancellation. *)
Theorem declined_prompt_cancels w s prod data k :
  selectedCells s ≠ [] → product s = Some prod →
  submit w = Response false data →
  (k < prompts_of (classify data))%nat →
  let body := build_payload prod (selectedCells s) in
  snd (Concurrent.resolved_upto amb data body w
         (Concurrent.meanwhile amb Concurrent.AwaitSubmit s) k) = None →
  prompts w k = None →
  let result := Concurrent.applyHedgeFromSelection amb w s in
  Concurrent.by_others amb s (fst result)
  ∧ ((∀ a p, Concurrent.meanwhile amb a p = p) →
     (∀ userInput b p, snd (Concurrent.js_eval amb userInput b p) = p) →
     fst result = s)
  ∧ created (snd result) = take k (missing_names (classify data))
  ∧ posts (snd result) = [body]
  ∧ fetches (snd result) = []
  ∧ alerts (snd result) = ["Error: Operation cancelled by user"].
Proof.
  intros Hne Hprod Hsub Hk body Hupto Hno result. subst result.
  assert (Hmain :
    Concurrent.by_others amb s (fst (Concurrent.applyHedgeFromSelection amb w s))
    ∧ created (snd (Concurrent.applyHedgeFromSelection amb w s))
      = take k (missing_names (classify data))
    ∧ posts (snd (Concurrent.applyHedgeFromSelection amb w s)) = [body]
    ∧ fetches (snd (Concurrent.applyHedgeFromSelection amb w s)) = []
    ∧ alerts (snd (Concurrent.applyHedgeFromSelection amb w s))
      = ["Error: Operation cancelled by user"]).
  { rewrite (applyHedgeFromSelection_among amb w s prod Hne Hprod). fold body.
    unfold Concurrent.hedge_try. rewrite Hsub.
    pose proof (by_others_meanwhile amb Concurrent.AwaitSubmit s) as H1.
    unfold Concurrent.resolved_upto in Hupto.
    destruct (classify data) as [missing | pattern |]; cbn [prompts_of] in Hk;
      cbn [missing_names] in *.
    - destruct (lookup_lt_is_Some_2 missing k Hk) as [missingName Hname].
      destruct (resolve_missing_reaches amb w missing k missingName body _ Hname Hupto)
        as (sk & bodyk & asked & _ & Hf & Hc & Hp & Ha & Hg & Hl & Hrun).
      unfold Concurrent.missing_strategies. rewrite Hrun.
      cbn [Concurrent.resolve_missing]. rewrite Hno. cbn [fst snd].
      split; [eapply by_others_trans; eassumption |].
      cbn [created posts fetches alerts].
      rewrite !created_app, !posts_app, !fetches_app, !alerts_app, Hc, Hp, Hg, Ha.
      cbn. rewrite ?app_nil_r. auto.
    - assert (k = 0)%nat as -> by lia.
      unfold Concurrent.missing_hedged_pattern. rewrite Hno. cbn. auto.
    - lia. }
  destruct Hmain as (Hf & Hc & Hp & Hg & Ha).
  split; [exact Hf |]. split; [| auto].
  intros Hm He. symmetry. apply (Hf (λ p, s = p)); [| reflexivity].
  split.
  - intros a p ->. symmetry. apply Hm.
  - intros u b p ->. symmetry. apply He.
Qed.

(** C4 as the code has it.  The k-th missing name is reached and its
    prompt is answered with [userInput], which is handed to [eval] with
    the payload and the page as they stand.  When [eval] gives an array,
    the create request for that name goes out with the array as it is,
    whatever its elements.  When [eval] throws or gives anything else, the
    run aborts: no create request goes out for that name or a later one,
    the hedge is not submitted again, and the alert names the strategy. *)
Theorem pattern_is_any_evaluated_array w s prod data missing k missingName userInput :
  selectedCells s ≠ [] → product s = Some prod →
  submit w = Response false data →
  classify data = MissingStrategies missing →
  missing !! k = Some missingName →
  let body := build_payload prod (selectedCells s) in
  let upto :=
    Concurrent.resolved_upto amb data body w
      (Concurrent.meanwhile amb Concurrent.AwaitSubmit s) k in
  snd upto = None →
  prompts w k = Some userInput →
  let result := Concurrent.applyHedgeFromSelection amb w s in
  match fst (fst (Concurrent.js_eval amb userInput
                    (snd (fst (fst upto))) (fst (fst (fst upto))))) with
  | Some (JS.VArr items) =>
      In (PostCreate missingName (JS.VArr items)) (snd result)
  | _ =>
      created (snd result) = take k missing
      ∧ posts (snd result) = [body]
      ∧ alerts (snd result)
        = ["Error: Invalid pattern provided for " +:+ JS.to_string missingName]
  end.
Proof.
  intros Hne Hprod Hsub Hcl Hname body upto Hupto Hu result. subst result upto.
  unfold Concurrent.resolved_upto in *. rewrite Hcl in *. cbn [missing_names] in *.
  rewrite (applyHedgeFromSelection_among amb w s prod Hne Hprod). fold body.
  unfold Concurrent.hedge_try. rewrite Hsub, Hcl.
  destruct (resolve_missing_reaches amb w missing k missingName body _ Hname Hupto)
    as (sk & bodyk & asked & Hpre & Hf & Hc & Hp & Ha & Hg & Hl & Hrun).
  rewrite Hpre. cbn [fst snd].
  unfold Concurrent.missing_strategies. rewrite Hrun.
  cbn [Concurrent.resolve_missing]. rewrite Hu.
  unfold Concurrent.read_pattern.
  destruct (Concurrent.js_eval amb userInput bodyk sk) as [[v body1] s1].
  cbn [fst snd].
  destruct v as [[| | | | | items |] |];
    try (cbn [JS.isArray fst snd];
         cbn [created posts alerts];
         rewrite !created_app, !posts_app, !alerts_app, Hc, Hp, Ha; cbn;
         rewrite ?app_nil_r; auto).
  cbn [JS.isArray]. right.
  apply in_or_app. left.
  destruct (creates w k) as [m | [] d]; cbn [fst snd].
  - apply in_or_app. right. right. left. reflexivity.
  - destruct (Concurrent.resolve_missing amb w (drop (S k) missing) (S k) body1 _)
      as [[[s3 body3] effects] [m |]]; cbn [fst snd].
    + apply in_or_app. right. right. left. reflexivity.
    + destruct (Concurrent.retry_once amb body3 w s3) as [[s' more] thrown].
      cbn [fst snd]. apply in_or_app. left.
      apply in_or_app. right. right. left. reflexivity.
  - apply in_or_app. right. right. left. reflexivity.
Qed.

End ConcurrentClaims.

(** ** Every event keeps the invariants *)

Section Reachable.

Variable js_eval : string → option JS.value.

(** A run of the protocol leaves the page as it was or as the success path
    makes it. *)
Lemma applyHedgeFromSelection_page w s :
  fst (applyHedgeFromSelection js_eval w s) = s
  ∨ fst (applyHedgeFromSelection js_eval w s)
    = fst (loadPositions (refresh w) (clearSelection s)).
Proof.
  unfold applyHedgeFromSelection.
  destruct (selectedCells s); [left; reflexivity |].
  destruct (product s) as [prod |]; [| left; reflexivity].
  set (body := build_payload prod _).
  assert (H : fst (fst (hedge_try js_eval body w s)) = s
              ∨ fst (fst (hedge_try js_eval body w s))
                = fst (loadPositions (refresh w) (clearSelection s))).
  { assert (Hretry : fst (fst (retry_once body w s)) = s
              ∨ fst (fst (retry_once body w s))
                = fst (loadPositions (refresh w) (clearSelection s))).
    { destruct (retry_once_run body w s) as (effects & thrown & -> & _).
      destruct (retry_failed w); auto. }
    unfold hedge_try.
    destruct (submit w) as [message | [] data]; [left; reflexivity | |].
    - destruct (on_success_run data w s) as (effects & thrown & -> & _). auto.
    - destruct (classify data) as [missing | pattern |]; [| | left; reflexivity].
      + unfold missing_strategies.
        destruct (resolve_missing js_eval w missing 0) as [effects [message |]];
          [left; reflexivity |].
        destruct (retry_once body w s) as [[s' more] thrown]. exact Hretry.
      + unfold missing_hedged_pattern.
        destruct (prompts w 0); [| left; reflexivity].
        destruct (creates w 0) as [| [] createData]; try (left; reflexivity).
        destruct (retry_once body w s) as [[s' more] thrown]. exact Hretry. }
  destruct (hedge_try js_eval body w s) as [[s' effects] [message |]]; exact H.
Qed.

Lemma step_ok s ev : page_ok s → page_ok (step js_eval s ev).
Proof.
  intros Hok. destruct ev as [prod r | id ctrlKey | i v | i | p | x | w]; simpl.
  - apply loadPositions_resume_ok, Hok.
  - apply click_ok, Hok.
  - apply input_ok, Hok.
  - apply remove_ok, Hok.
  - apply product_change_ok, Hok.
  - apply scroll_ok, Hok.
  - destruct (applyHedgeFromSelection_page w s) as [-> | ->]; [exact Hok |].
    apply loadPositions_resume_ok, clearSelection_ok, Hok.
Qed.

Lemma run_ok s evs : page_ok s → page_ok (run js_eval s evs).
Proof.
  revert s. induction evs as [| ev evs IH]; intros s Hok; [exact Hok |].
  apply IH, step_ok, Hok.
Qed.

(** *** What the gestures of the operator leave alone *)

Lemma clearSelection_frame s :
  prevDataJSON (clearSelection s) = prevDataJSON s
  ∧ container (clearSelection s) = container s
  ∧ product (clearSelection s) = product s.
Proof. auto. Qed.

Lemma toggleCellSelection_frame id s :
  prevDataJSON (toggleCellSelection id s) = prevDataJSON s
  ∧ container (toggleCellSelection id s) = container s
  ∧ product (toggleCellSelection id s) = product s.
Proof.
  unfold toggleCellSelection.
  destruct (panel s); [| auto].
  destruct (elems s !! id); [| auto].
  destruct (findIndex _ _);
    match goal with
    | |- context [renderSelectionPanel ?t] =>
        destruct (renderSelectionPanel_fields t) as (_ & _ & -> & -> & -> & _)
    end; auto.
Qed.

Lemma gesture_frame s ev :
  gesture ev = true →
  prevDataJSON (step js_eval s ev) = prevDataJSON s
  ∧ (container (step js_eval s ev) = None ↔ container s = None).
Proof.
  destruct ev as [prod r | id ctrlKey | i v | i | p | x | w]; try discriminate;
    intros _; simpl.
  - unfold click. destruct (elems s !! id) as [cell |]; [| tauto].
    destruct (cell_clickable cell); [| tauto].
    destruct ctrlKey;
      match goal with
      | |- context [toggleCellSelection id ?t] =>
          destruct (toggleCellSelection_frame id t) as (-> & -> & _)
      end; simpl; tauto.
  - unfold input. destruct (panel s) as [pn |]; [| tauto].
    destruct (items pn !! i); [| tauto].
    destruct (selectedCells s !! i); simpl; tauto.
  - unfold remove. destruct (panel s) as [pn |]; [| tauto].
    destruct (items pn !! i); [| tauto].
    destruct (selectedCells s !! i); [| tauto].
    match goal with
    | |- context [renderSelectionPanel ?t] =>
        destruct (renderSelectionPanel_fields t) as (_ & _ & -> & -> & _)
    end. simpl. tauto.
  - unfold scroll. destruct (container s) as [[| t | h b y] |] eqn:Ec;
      simpl; rewrite ?Ec; intuition congruence.
Qed.

Lemma between_frame s ev :
  between ev = true →
  prevDataJSON (step js_eval s ev) = prevDataJSON s
  ∧ (container (step js_eval s ev) = None ↔ container s = None).
Proof.
  destruct ev as [prod [message | | snap] | id ctrlKey | i v | i | p | x | w];
    try discriminate; try (apply gesture_frame);
    intros _; simpl; unfold load_error;
    destruct (container s) eqn:Ec; simpl; rewrite ?Ec; intuition congruence.
Qed.

Lemma betweens_frame s evs :
  forallb between evs = true →
  prevDataJSON (run js_eval s evs) = prevDataJSON s
  ∧ (container (run js_eval s evs) = None ↔ container s = None).
Proof.
  revert s. induction evs as [| ev evs IH]; intros s Hg; [tauto |].
  simpl in Hg. apply andb_true_iff in Hg as [Hev Hevs].
  destruct (between_frame s ev Hev) as [Hp Hc].
  destruct (IH (step js_eval s ev) Hevs) as [Hp' Hc'].
  unfold run in *. simpl. rewrite Hp', Hp. tauto.
Qed.

(** A call of [loadPositions] keeps the slot or stores a fingerprint. *)
Lemma loadPositions_resume_prev prod r s :
  prevDataJSON (fst (loadPositions_resume prod r s)) = prevDataJSON s
  ∨ ∃ snap, prevDataJSON (fst (loadPositions_resume prod r s)) = Some (dataJSON snap).
Proof.
  unfold loadPositions_resume, load_error.
  destruct r as [message | | snap]; try (destruct (container s); left; reflexivity).
  destruct (container s) as [region |]; [| left; reflexivity].
  destruct (bool_decide _); [left; reflexivity |].
  destruct (is_nil (contracts snap) && is_nil (rows snap));
    right; exists snap; reflexivity.
Qed.

End Reachable.

(** ** The store keeps its keys apart and the panel mirrors it *)

Lemma findIndex_None k l : findIndex k l = None → k ∉ key <$> l.
Proof.
  induction l as [| sel l IH]; simpl; intros H.
  - apply not_elem_of_nil.
  - destruct (String.eqb_spec (key sel) k) as [| Hne]; [discriminate |].
    destruct (findIndex k l); [discriminate |].
    rewrite not_elem_of_cons. auto.
Qed.

Lemma keys_alter_value v (i : nat) (l : list Selected) :
  key <$> alter (set_value v) i l = key <$> l.
Proof.
  rewrite (list_fmap_alter key (set_value v) id).
  - apply list_alter_id. reflexivity.
  - apply Forall_forall. reflexivity.
Qed.

Lemma labels_alter_value v (i : nat) (l : list Selected) :
  label_of <$> alter (set_value v) i l = label_of <$> l.
Proof.
  rewrite (list_fmap_alter label_of (set_value v) id).
  - apply list_alter_id. reflexivity.
  - apply Forall_forall. reflexivity.
Qed.

Lemma labels_alter_input v (i : nat) (l : list Item) :
  item_label <$> alter (set_input v) i l = item_label <$> l.
Proof.
  rewrite (list_fmap_alter item_label (set_input v) id).
  - apply list_alter_id. reflexivity.
  - apply Forall_forall. reflexivity.
Qed.

Lemma labels_item_of (l : list Selected) :
  item_label <$> (item_of <$> l) = label_of <$> l.
Proof. rewrite <- list_fmap_compose. reflexivity. Qed.

Lemma clearSelection_store_ok s : store_ok (clearSelection s).
Proof.
  split; simpl.
  - constructor.
  - constructor.
  - destruct (panel s); intros pn [= <-]. left. reflexivity.
Qed.

Lemma renderSelectionPanel_store_ok s :
  NoDup (key <$> selectedCells s) →
  Forall (λ sel, key sel = structure sel +:+ "||" +:+ contract sel) (selectedCells s) →
  store_ok (renderSelectionPanel s).
Proof.
  intros Hk Hb.
  destruct (renderSelectionPanel_fields s) as (Es & _).
  split; rewrite ?Es; auto.
  unfold renderSelectionPanel.
  destruct (panel s) as [pn0 |] eqn:Ep; [| rewrite Ep; discriminate].
  destruct (selectedCells s) eqn:El; [| destruct (product s)];
    unfold with_panel; cbn [panel]; intros pn [= <-]; cbn [items];
    try (left; reflexivity).
  right. exact (labels_item_of (_ :: _)).
Qed.

Lemma toggleCellSelection_store_ok id s :
  store_ok s → store_ok (toggleCellSelection id s).
Proof.
  intros Hok. pose proof Hok as [Hk Hb Hm]. unfold toggleCellSelection.
  destruct (panel s) as [pn |]; [| exact Hok].
  destruct (elems s !! id) as [cell |]; [| exact Hok].
  destruct (findIndex _ _) as [idx |] eqn:Ef;
    apply renderSelectionPanel_store_ok; simpl.
  - rewrite list_fmap_delete.
    apply (sublist_NoDup _ _ Hk), sublist_delete.
  - apply Forall_delete, Hb.
  - rewrite fmap_app. apply NoDup_app. split; [exact Hk |]. split.
    + intros k Hin Hk'. simpl in Hk'. apply list_elem_of_singleton in Hk'.
      subst k. exact (findIndex_None _ _ Ef Hin).
    + apply NoDup_singleton.
  - apply Forall_app_2; [exact Hb |]. constructor; [reflexivity | constructor].
Qed.

Lemma click_store_ok id ctrlKey s : store_ok s → store_ok (click id ctrlKey s).
Proof.
  intros Hok. unfold click.
  destruct (elems s !! id) as [cell |]; [| exact Hok].
  destruct (cell_clickable cell); [| exact Hok].
  destruct ctrlKey; apply toggleCellSelection_store_ok;
    [exact Hok | apply clearSelection_store_ok].
Qed.

Lemma input_store_ok i v s : store_ok s → store_ok (input i v s).
Proof.
  intros Hok. pose proof Hok as [Hk Hb Hm]. unfold input.
  destruct (panel s) as [pn |] eqn:Ep; [| exact Hok].
  destruct (items pn !! i) as [it |] eqn:Ei; [| exact Hok].
  destruct (selectedCells s !! i) as [sel |]; [| exact Hok].
  split; simpl.
  - rewrite keys_alter_value. exact Hk.
  - apply Forall_alter; [exact Hb |]. intros x _ Hx. exact Hx.
  - intros pn' [= <-]. simpl. right.
    rewrite labels_alter_input, labels_alter_value.
    destruct (Hm pn eq_refl) as [Hnil | Hl]; [| exact Hl].
    rewrite Hnil in Ei. discriminate.
Qed.

Lemma remove_store_ok i s : store_ok s → store_ok (remove i s).
Proof.
  intros Hok. pose proof Hok as [Hk Hb Hm]. unfold remove.
  destruct (panel s) as [pn |]; [| exact Hok].
  destruct (items pn !! i); [| exact Hok].
  destruct (selectedCells s !! i) as [sel |]; [| exact Hok].
  apply renderSelectionPanel_store_ok; simpl.
  - apply (sublist_NoDup _ _ Hk), fmap_sublist, sublist_filter.
  - apply Forall_forall. intros x Hx.
    apply list_elem_of_filter in Hx as [_ Hx].
    revert x Hx. apply Forall_forall, Hb.
Qed.

Lemma with_prev_store_ok f s : store_ok s → store_ok (with_prev f s).
Proof. intros [Hk Hb Hm]. split; assumption. Qed.

Lemma with_container_store_ok c s : store_ok s → store_ok (with_container c s).
Proof. intros [Hk Hb Hm]. split; assumption. Qed.

Lemma with_product_store_ok p s : store_ok s → store_ok (with_product p s).
Proof. intros [Hk Hb Hm]. split; assumption. Qed.

Lemma buildGrid_store_ok cs rws x s : store_ok s → store_ok (buildGrid cs rws x s).
Proof.
  intros [Hk Hb Hm]. unfold buildGrid.
  destruct (build_rows _ _ _) as [cells body].
  unfold attachCellSelectionHandlers. simpl.
  destruct (panel s) as [pn |] eqn:Ep.
  - split; simpl; [constructor | constructor |].
    intros pn' [= <-]. left. reflexivity.
  - split; simpl; [exact Hk | exact Hb |]. rewrite ?Ep. discriminate.
Qed.

Lemma loadPositions_resume_store_ok prod r s :
  store_ok s → store_ok (fst (loadPositions_resume prod r s)).
Proof.
  intros Hok. unfold loadPositions_resume, load_error.
  destruct r as [message | | snap];
    try (destruct (container s); simpl;
         [apply with_container_store_ok |]; exact Hok).
  destruct (container s) as [region |]; [| exact Hok].
  destruct (bool_decide _); [exact Hok |].
  destruct (is_nil (contracts snap) && is_nil (rows snap)); simpl.
  - apply with_prev_store_ok, with_container_store_ok, Hok.
  - apply with_prev_store_ok, buildGrid_store_ok, Hok.
Qed.

Lemma product_change_store_ok p s : store_ok s → store_ok (product_change p s).
Proof.
  intros Hok. unfold product_change.
  destruct (product s); [| exact Hok].
  destruct (container _); [apply with_container_store_ok |];
    apply with_prev_store_ok, with_product_store_ok, Hok.
Qed.

Lemma scroll_store_ok x s : store_ok s → store_ok (scroll x s).
Proof.
  intros Hok. unfold scroll.
  destruct (container s) as [[| t | h b y] |]; try exact Hok.
  apply with_container_store_ok, Hok.
Qed.

Lemma initial_page_store_ok prod hc hp : store_ok (initial_page prod hc hp).
Proof.
  split; simpl; [constructor | constructor |].
  destruct hp; intros pn [= <-]. left. reflexivity.
Qed.

(** On every page the script can reach, no two entries of the store share
    a key and the panel lists the entries of the store, so that the i-th
    item of the panel edits and removes the i-th entry. *)
Lemma run_store_ok js_eval s evs : store_ok s → store_ok (run js_eval s evs).
Proof.
  revert s. induction evs as [| ev evs IH]; intros s Hok; [exact Hok |].
  apply IH. destruct ev as [prod r | id ctrlKey | i v | i | p | x | w]; simpl.
  - apply loadPositions_resume_store_ok, Hok.
  - apply click_store_ok, Hok.
  - apply input_store_ok, Hok.
  - apply remove_store_ok, Hok.
  - apply product_change_store_ok, Hok.
  - apply scroll_store_ok, Hok.
  - destruct (applyHedgeFromSelection_page js_eval w s) as [-> | ->]; [exact Hok |].
    apply loadPositions_resume_store_ok, clearSelection_store_ok.
Qed.

(** ** Snapshot fetcher and selection: the claims *)

Section PageClaims.

Variable js_eval : string → option JS.value.

(** C6 as the code has it.  Two snapshots with the same fingerprint go
    through [loadPositions] one after the other, with no product change
    and no hedge run in between: the operator clicks, edits, removes and
    scrolls (and requests fail, if any do).
    The second call leaves through the short-circuit (or, on a page
    without a container, through the early return that renders nothing
    either) and the page after it is the page before it: grid, scroll
    offset, store, cell texts and panel inputs. *)
Theorem equal_fingerprint_is_not_rendered prod1 prod2 snap1 snap2 evs s :
  dataJSON snap1 = dataJSON snap2 →
  forallb between evs = true →
  let s1 := run js_eval (fst (loadPositions_resume prod1 (PosOk snap1) s)) evs in
  fst (loadPositions_resume prod2 (PosOk snap2) s1) = s1
  ∧ (snd (loadPositions_resume prod2 (PosOk snap2) s1) = Unchanged
     ∨ snd (loadPositions_resume prod2 (PosOk snap2) s1) = NoContainer).
Proof.
  intros Hfp Hg s1.
  destruct (betweens_frame js_eval
              (fst (loadPositions_resume prod1 (PosOk snap1) s)) evs Hg)
    as [Hprev Hcont].
  fold s1 in Hprev, Hcont.
  destruct (container s1) as [region |] eqn:Ec.
  - assert (Hs : container s ≠ None).
    { intros Hn. apply (loadPositions_resume_container prod1 (PosOk snap1)) in Hn.
      apply Hcont in Hn. discriminate. }
    rewrite (loadPositions_resume_slot prod1 snap1 s Hs), Hfp in Hprev.
    rewrite loadPositions_resume_unchanged; [auto | congruence | exact Hprev].
  - simpl. rewrite Ec. auto.
Qed.

(** C7 as the code has it.  The slot starts empty; the change listener of
    the product selector empties it; no other event empties a slot that
    holds a fingerprint; and rendering the empty result stores the
    fingerprint of the empty snapshot in it. *)
Theorem fingerprint_slot_cleared_by_product_change_only prod hc hp s ev :
  prevDataJSON (initial_page prod hc hp) = None
  ∧ (∀ p, product s ≠ None → prevDataJSON (product_change p s) = None)
  ∧ (is_Some (prevDataJSON s) → prevDataJSON (step js_eval s ev) = None →
       ∃ p, ev = ProductChange p)
  ∧ (∀ prd snap,
       snd (loadPositions_resume prd (PosOk snap) s) = Placeholder →
       prevDataJSON (fst (loadPositions_resume prd (PosOk snap) s))
       = Some (dataJSON snap)).
Proof.
  split; [reflexivity |]. split; [| split].
  - intros p Hp. unfold product_change.
    destruct (product s); [| contradiction].
    destruct (container _); reflexivity.
  - intros [f Hf] Hnone.
    assert (Hload : ∀ prd r t, prevDataJSON t = Some f →
              prevDataJSON (fst (loadPositions_resume prd r t)) ≠ None).
    { intros prd r t Ht.
      destruct (loadPositions_resume_prev prd r t) as [-> | [snap ->]]; congruence. }
    destruct ev as [prd r | id ctrlKey | i v | i | p | x | w];
      try (match type of Hnone with
           | prevDataJSON (step _ _ ?e) = None =>
               destruct (gesture_frame js_eval s e eq_refl) as [Hp _]
           end; rewrite Hp in Hnone; congruence).
    + destruct (Hload prd r s Hf Hnone).
    + exists p. reflexivity.
    + simpl in Hnone.
      destruct (applyHedgeFromSelection_page js_eval w s) as [He | He];
        rewrite He in Hnone; [congruence |].
      destruct (Hload (current_product (clearSelection s)) (refresh w)
                  (clearSelection s) Hf Hnone).
  - intros prd snap. simpl.
    destruct (container s) as [region |]; [| discriminate].
    destruct (bool_decide _); [discriminate |].
    destruct (is_nil (contracts snap) && is_nil (rows snap)); [reflexivity |].
    discriminate.
Qed.

(** C8.  On every page the script can reach, a click
    on a cell of the row named "Total", with or without the control key,
    changes nothing: the store keeps its entries, the cell is not marked
    selected, and no entry of the store has the structure "Total", so none
    stands for that cell. *)
Theorem total_row_click_is_inert prod hc hp evs id ctrlKey cell :
  let s := run js_eval (initial_page prod hc hp) evs in
  elems s !! id = Some cell →
  cell_structure cell = "Total" →
  click id ctrlKey s = s
  ∧ cell_selected cell = false
  ∧ Forall (λ sel, structure sel ≠ "Total"
                   ∧ (structure sel, contract sel)
                     ≠ (cell_structure cell, cell_contract cell))
           (selectedCells s).
Proof.
  intros s Hcell Htotal.
  pose proof (run_ok js_eval _ evs (initial_page_ok prod hc hp)) as Hok.
  fold s in Hok.
  destruct (Forall_lookup_1 _ _ _ _ (ok_cells _ Hok) Hcell Htotal) as [Hk Hsel].
  split; [| split].
  - unfold click. rewrite Hcell, Hk. reflexivity.
  - exact Hsel.
  - eapply Forall_impl; [exact (ok_store _ Hok) |].
    intros sel Hne. split; [exact Hne |]. congruence.
Qed.

(** C10 as the code has it.  On every page the script can reach that has
    a container, a snapshot that is not the empty result and whose
    fingerprint differs from the stored one is rendered by [buildGrid],
    and that empties the store and the selection panel, whatever the
    snapshot contains. *)
Theorem rendering_a_grid_resets_selection prod hc hp evs prd snap :
  let s := run js_eval (initial_page prod hc hp) evs in
  container s ≠ None →
  prevDataJSON s ≠ Some (dataJSON snap) →
  is_nil (contracts snap) && is_nil (rows snap) = false →
  snd (loadPositions_resume prd (PosOk snap) s) = Rendered
  ∧ selectedCells (fst (loadPositions_resume prd (PosOk snap) s)) = []
  ∧ panel (fst (loadPositions_resume prd (PosOk snap) s))
    = match panel s with Some _ => Some empty_panel | None => None end.
Proof.
  intros s Hc Hprev Hnil.
  pose proof (run_ok js_eval _ evs (initial_page_ok prod hc hp)) as Hok.
  fold s in Hok. simpl.
  destruct (container s) as [region |]; [| contradiction].
  rewrite bool_decide_eq_false_2 by exact Hprev.
  rewrite Hnil. simpl. unfold buildGrid.
  destruct (build_rows _ _ _) as [cells body].
  unfold attachCellSelectionHandlers. simpl.
  pose proof (ok_panel _ Hok) as Hpanel.
  destruct (panel s) eqn:Ep; simpl; rewrite ?Ep; auto.
Qed.

End PageClaims.

(** ** Request construction: the claim *)

(** *** The integer parse reads back the lot a cell shows *)

Lemma take_digits_step c r acc n :
  JS.is_digit c = true →
  JS.take_digits acc n (String c r) = JS.take_digits (10 * acc + JS.digit_val c) (S n) r.
Proof. intros H. simpl. rewrite H. reflexivity. Qed.

Ltac digit_step :=
  rewrite take_digits_step by reflexivity;
  match goal with
  | |- context [JS.digit_val ?c] =>
      let v := eval vm_compute in (JS.digit_val c) in
      change (JS.digit_val c) with v
  end.

Lemma take_digits_acc d : ∀ acc n,
  JS.take_digits (Z.pos acc) n (NilEmpty.string_of_uint d)
  = (Z.pos (Pos.of_uint_acc d acc), (n + Decimal.nb_digits d)%nat, EmptyString).
Proof.
  induction d; intros acc n; cbn [NilEmpty.string_of_uint Pos.of_uint_acc Decimal.nb_digits];
    [simpl; rewrite Nat.add_0_r; reflexivity | ..];
    digit_step;
    match goal with
    | |- JS.take_digits ?a _ _ = (Z.pos (Pos.of_uint_acc _ ?b), _, _) =>
        replace a with (Z.pos b) by lia
    end;
    rewrite IHd; do 2 f_equal; lia.
Qed.

Lemma take_digits_uint d : ∀ n,
  JS.take_digits 0 n (NilEmpty.string_of_uint d)
  = (Z.of_N (Pos.of_uint d), (n + Decimal.nb_digits d)%nat, EmptyString).
Proof.
  induction d; intros n; cbn [NilEmpty.string_of_uint Pos.of_uint Decimal.nb_digits];
    [simpl; rewrite Nat.add_0_r; reflexivity | ..];
    digit_step; rewrite Z.mul_0_r, Z.add_0_l;
    [rewrite IHd; do 2 f_equal; lia | ..];
    rewrite take_digits_acc; cbn [Z.of_N]; do 2 f_equal; lia.
Qed.

Lemma trim_start_uint d :
  JS.trim_start (NilEmpty.string_of_uint d) = NilEmpty.string_of_uint d.
Proof. destruct d; reflexivity. Qed.

Lemma trim_end_uint d :
  JS.trim_end (NilEmpty.string_of_uint d) = NilEmpty.string_of_uint d.
Proof.
  induction d; cbn [NilEmpty.string_of_uint JS.trim_end]; [reflexivity | ..];
    rewrite IHd; destruct (NilEmpty.string_of_uint d); reflexivity.
Qed.

Lemma num_lots_string_of_Z z : num_lots (JS.string_of_Z z) = z.
Proof.
  unfold num_lots, JS.string_of_Z, JS.trim, JS.parseInt10.
  destruct z as [| p | p]; [reflexivity | |]; cbn [Z.to_int NilEmpty.string_of_int].
  - rewrite trim_start_uint, trim_end_uint, trim_start_uint.
    pose proof (DecimalPos.Unsigned.to_uint_nonnil p) as Hnil.
    pose proof (DecimalPos.Unsigned.of_to p) as Hof.
    pose proof (take_digits_uint (Pos.to_uint p) 0) as Htd.
    destruct (Pos.to_uint p) as [| d | d | d | d | d | d | d | d | d | d];
      [contradiction | ..];
      cbn [NilEmpty.string_of_uint] in *; rewrite Htd, Hof; reflexivity.
  - change (JS.trim_start (String "-" ?s)) with (String "-" s).
    pose proof (DecimalPos.Unsigned.to_uint_nonnil p) as Hnil.
    pose proof (DecimalPos.Unsigned.of_to p) as Hof.
    pose proof (take_digits_uint (Pos.to_uint p) 0) as Htd.
    assert (He : JS.trim_end (String "-" (NilEmpty.string_of_uint (Pos.to_uint p)))
                 = String "-" (NilEmpty.string_of_uint (Pos.to_uint p))).
    { cbn [JS.trim_end]. rewrite trim_end_uint.
      destruct (NilEmpty.string_of_uint _); reflexivity. }
    rewrite He.
    change (JS.trim_start (String "-" ?s)) with (String "-" s).
    cbv beta iota. rewrite Htd, Hof.
    destruct (Pos.to_uint p); [contradiction | ..]; reflexivity.
Qed.

Lemma trim_string_of_Z z : JS.trim (JS.string_of_Z z) = JS.string_of_Z z.
Proof.
  unfold JS.string_of_Z, JS.trim.
  destruct (Z.to_int z) as [d | d]; cbn [NilEmpty.string_of_int].
  - rewrite trim_start_uint. apply trim_end_uint.
  - change (JS.trim_start (String "-" ?s)) with (String "-" s).
    cbn [JS.trim_end]. rewrite trim_end_uint.
    destruct (NilEmpty.string_of_uint d); reflexivity.
Qed.

(** The text a cell takes from the snapshot is submitted as the lot it
    came from. *)
Lemma num_lots_new_cell cs row_name idx l :
  num_lots (JS.trim (cell_text (new_cell cs row_name idx l))) = l.
Proof.
  simpl. destruct (Z.eqb_spec l 0) as [-> | Hne]; [reflexivity |].
  rewrite trim_string_of_Z. apply num_lots_string_of_Z.
Qed.

Lemma collect_spec l names cs ns :
  collect l names cs ns
  = (names ++ (structure <$> l), cs ++ (contract <$> l),
     ns ++ ((λ sel, num_lots (value sel)) <$> l)).
Proof.
  revert names cs ns. induction l as [| sel l IH]; intros names cs ns; simpl.
  - rewrite !app_nil_r. reflexivity.
  - rewrite IH, <- !app_assoc. reflexivity.
Qed.

Lemma trim_start_head v :
  JS.trim_start v = EmptyString
  ∨ ∃ c r, JS.trim_start v = String c r ∧ JS.is_ws c = false.
Proof.
  induction v as [| c v IH]; [left; reflexivity |].
  cbn [JS.trim_start]. destruct (JS.is_ws c) eqn:Hc; [exact IH |].
  right. exists c, v. auto.
Qed.

(** A trimmed text does not start with white space. *)
Lemma trim_head v c r : JS.trim v = String c r → JS.is_ws c = false.
Proof.
  unfold JS.trim. destruct (trim_start_head v) as [-> | (c0 & r0 & -> & Hc0)];
    [discriminate |].
  cbn [JS.trim_end]. destruct (JS.trim_end r0); rewrite ?Hc0; intros [= <- _]; exact Hc0.
Qed.

(** [parseInt] reads nothing from a text that starts with neither a sign
    nor a digit. *)
Lemma parseInt10_no_integer c r :
  JS.is_ws c = false → JS.is_digit c = false →
  c ≠ "-"%char → c ≠ "+"%char →
  JS.parseInt10 (String c r) = None.
Proof.
  intros Hws Hd Hm Hp. unfold JS.parseInt10. cbn [JS.trim_start]. rewrite Hws.
  assert (Hbody : (match String c r with
                   | String "-" r0 => (true, r0)
                   | String "+" r0 => (false, r0)
                   | _ => (false, String c r)
                   end) = (false, String c r)).
  { destruct c as [[] [] [] [] [] [] [] []]; try reflexivity; congruence. }
  rewrite Hbody. cbn [JS.take_digits]. rewrite Hd. reflexivity.
Qed.

(** C9.  The payload has one entry per entry of the store in each of its
    three arrays, in store order: the structure, the contract, and the
    integer read from the text of the entry.  A text that is empty, or
    that starts with neither a sign nor a digit once trimmed, is sent as
    0, and the decimal text of a safe integer is sent as that integer.
    The in-panel edit treats what is no number in the same way: a text
    [Number] does not read, and the empty text, are shown as zero. *)
Theorem payload_follows_store prod l :
  build_payload prod l
  = {| payload_product := prod;
       lis_structure_names := structure <$> l;
       lis_starting_contracts := contract <$> l;
       lis_num_lots := (λ sel, num_lots (value sel)) <$> l |}
  ∧ length (lis_structure_names (build_payload prod l)) = length l
  ∧ length (lis_starting_contracts (build_payload prod l)) = length l
  ∧ length (lis_num_lots (build_payload prod l)) = length l
  ∧ (∀ v, JS.trim v = "" → num_lots v = 0)
  ∧ (∀ v c r, JS.trim v = String c r → JS.is_digit c = false →
       c ≠ "-"%char → c ≠ "+"%char → num_lots v = 0)
  ∧ (∀ n, safe_integer n → num_lots (JS.string_of_Z n) = n)
  ∧ (∀ v c, JS.Number v = JS.NaN → edited_span v c = set_span "" Zero c)
  ∧ (∀ v c, JS.trim v = "" → edited_span v c = set_span "" Zero c).
Proof.
  assert (H : build_payload prod l
              = {| payload_product := prod;
                   lis_structure_names := structure <$> l;
                   lis_starting_contracts := contract <$> l;
                   lis_num_lots := (λ sel, num_lots (value sel)) <$> l |}).
  { unfold build_payload. rewrite collect_spec. reflexivity. }
  rewrite H. cbn [lis_structure_names lis_starting_contracts lis_num_lots].
  rewrite !length_fmap.
  do 4 (split; [reflexivity |]). split; [| split; [| split; [| split]]].
  - intros v Hv. unfold num_lots. rewrite Hv. reflexivity.
  - intros v c r Hv Hd Hm Hp. unfold num_lots. rewrite Hv.
    rewrite parseInt10_no_integer; auto. apply (trim_head v c r Hv).
  - intros n _. apply num_lots_string_of_Z.
  - intros v c Hv. unfold edited_span. rewrite Hv. reflexivity.
  - intros v c Hv. unfold edited_span, JS.Number. rewrite Hv. reflexivity.
Qed.

(** ** Poll loop: the claim *)

Module PollFacts.
Import Poll.

Lemma count_delete (f : Origin → bool) l k o :
  l !! k = Some o →
  length (List.filter f l)
  = (length (List.filter f (delete k l)) + (if f o then 1 else 0))%nat.
Proof.
  revert k. induction l as [| x l IH]; intros [| k] Hk; try discriminate.
  - injection Hk as ->. simpl. destruct (f o); simpl; lia.
  - simpl in Hk. specialize (IH k Hk). simpl.
    destruct (f x); simpl; lia.
Qed.

Lemma count_app (f : Origin → bool) l o :
  length (List.filter f (l ++ [o]))
  = (length (List.filter f l) + (if f o then 1 else 0))%nat.
Proof.
  rewrite List.filter_app, length_app. simpl. destruct (f o); reflexivity.
Qed.

Lemma guarded_start : guarded start.
Proof. split; reflexivity. Qed.

Lemma guarded_step l sg : guarded l → guarded (step l sg).
Proof.
  intros [Ht Hi]. unfold guarded, ticks, firsts in *.
  destruct sg as [| k | |]; simpl.
  - destruct (intervals l) as [| n] eqn:En; [rewrite En; auto |].
    destruct (isLoading l) eqn:El; simpl.
    + rewrite El, En. auto.
    + rewrite !count_app. simpl. lia.
  - destruct (in_flight l !! k) as [o |] eqn:Ek; [| auto].
    pose proof (count_delete is_tick _ _ _ Ek) as Hdt.
    pose proof (count_delete is_first _ _ _ Ek) as Hdf.
    destruct o; simpl in *; destruct (isLoading l); simpl in *; lia.
  - rewrite !count_app. simpl. lia.
  - rewrite !count_app. simpl. lia.
Qed.

Lemma guarded_run sgs : guarded (run sgs).
Proof.
  unfold run. generalize guarded_start. generalize start.
  induction sgs as [| sg sgs IH]; intros l Hl; [exact Hl |].
  apply IH, guarded_step, Hl.
Qed.

(** C5 as the code has it.  However timer ticks, completions, product
    changes and post-hedge refreshes interleave: at most one request
    started by the timer is in flight, and the guard is up exactly then;
    a tick that comes while the guard is up starts nothing; there is at
    most one interval; a product change starts one more request and
    touches neither the interval nor the guard. *)
Theorem single_flight_among_ticks sgs :
  let l := run sgs in
  (ticks l ≤ 1)%nat
  ∧ (isLoading l = true ↔ ticks l = 1%nat)
  ∧ (intervals l ≤ 1)%nat
  ∧ (isLoading l = true → step l TimerFires = l)
  ∧ intervals (step l ProductChanged) = intervals l
  ∧ isLoading (step l ProductChanged) = isLoading l
  ∧ in_flight (step l ProductChanged) = in_flight l ++ [Change].
Proof.
  intros l. destruct (guarded_run sgs) as [Ht Hi]. fold l in Ht, Hi.
  split; [destruct (isLoading l); lia |].
  split; [destruct (isLoading l); split; intros; try lia; congruence |].
  split; [lia |].
  split; [| auto].
  intros Hl. simpl. rewrite Hl. destruct (intervals l); reflexivity.
Qed.

(** C5, as stated, fails: a tick that comes while the request of a product
    change is in flight finds the guard down and starts a second one. *)
Lemma tick_overlaps_product_change :
  in_flight (run [Completes 0; ProductChanged; TimerFires]) = [Change; Tick]
  ∧ length (in_flight (run [Completes 0; ProductChanged; TimerFires])) = 2%nat
  ∧ isLoading (run [Completes 0; ProductChanged]) = false.
Proof. repeat split. Qed.

Lemma single_flight_among_ticks_witness :
  step (run [Completes 0; TimerFires]) TimerFires = run [Completes 0; TimerFires].
Proof.
  apply (single_flight_among_ticks [Completes 0; TimerFires]). reflexivity.
Defined.

End PollFacts.

(** ** Concrete runs *)

Module Runs.
Import Sample.

(** C1, as stated, fails: the backend accepts the hedge and sends back the
    positions it sent before.  The refresh leaves through the fingerprint
    short-circuit, nothing is rendered, and the cell goes on showing the 7
    the operator typed where the snapshot says 5. *)
Lemma accepted_hedge_takes_short_circuit :
  accepted Literal.eval accepts = Some applied
  ∧ selectedCells edited ≠ []
  ∧ snd (applyHedgeFromSelection Literal.eval accepts edited)
    = [PostHedge {| payload_product := "CL"; lis_structure_names := ["A"];
                    lis_starting_contracts := ["Z5"]; lis_num_lots := [7] |};
       GetPositions "CL" Unchanged;
       ConsoleLog "Hedge applied: fly @ Z5 (+7)"]
  ∧ container (fst (applyHedgeFromSelection Literal.eval accepts edited))
    = container edited
  ∧ cell_text <$> elems (fst (applyHedgeFromSelection Literal.eval accepts edited)) !! 0%nat
    = Some "7"
  ∧ lots <$> rows snap = [[5]].
Proof. repeat split; try (vm_compute; reflexivity). vm_compute. discriminate. Qed.

(** C4, as stated, fails: the text ['a'] evaluates to an array, so it is
    taken as a pattern although its element is no number, and the create
    request goes out with it. *)
Lemma nonnumeric_array_is_accepted :
  Literal.eval "['a']" = Some (JS.VArr [JS.VStr "a"])
  ∧ In (PostCreate (JS.VStr "X") (JS.VArr [JS.VStr "a"]))
       (snd (applyHedgeFromSelection Literal.eval
               (gap (λ _, Some "['a']") (Response true applied)) edited))
  ∧ alerts (snd (applyHedgeFromSelection Literal.eval
                   (gap (λ _, Some "['a']") (Response true applied)) edited))
    = [].
Proof.
  split; [reflexivity |]. split; [| reflexivity].
  vm_compute. right. right. left. reflexivity.
Qed.

(** The same snapshot twice, with a click, an edit, a scroll and a failed
    request between. *)
Lemma equal_fingerprint_is_not_rendered_witness :
  let s1 := run Literal.eval (fst (loadPositions_resume "CL" (PosOk snap) page0))
              [Click 0 false; Input 0 "7"; Scroll 3; Loaded "CL" PosNotOk] in
  fst (loadPositions_resume "CL" (PosOk snap) s1) = s1
  ∧ (snd (loadPositions_resume "CL" (PosOk snap) s1) = Unchanged
     ∨ snd (loadPositions_resume "CL" (PosOk snap) s1) = NoContainer).
Proof.
  apply (equal_fingerprint_is_not_rendered Literal.eval "CL" "CL" snap snap
           [Click 0 false; Input 0 "7"; Scroll 3; Loaded "CL" PosNotOk] page0).
  - reflexivity.
  - reflexivity.
Defined.

(** C7, as stated, fails: rendering the empty result does not clear the
    slot, it stores the fingerprint of the empty snapshot in it. *)
Lemma empty_result_stores_fingerprint :
  snd (loadPositions (PosOk snap_empty) page0) = Placeholder
  ∧ prevDataJSON (fst (loadPositions (PosOk snap_empty) page0))
    = Some (dataJSON snap_empty)
  ∧ prevDataJSON (fst (loadPositions (PosOk snap_empty) page0)) ≠ None.
Proof. repeat split; try reflexivity. vm_compute. discriminate. Qed.

Lemma fingerprint_slot_witness :
  prevDataJSON (product_change "HO" edited) = None.
Proof.
  apply (fingerprint_slot_cleared_by_product_change_only Literal.eval
           (Some "CL") true true edited (Scroll 0)).
  vm_compute. discriminate.
Defined.

(** The cell of the total row of [snap_total], after the other cell has
    been selected. *)
Lemma total_row_click_is_inert_witness :
  let s := run Literal.eval (initial_page (Some "CL") true true)
             [Loaded "CL" (PosOk snap_total); Click 1 false] in
  let cell := new_cell ["Z5"] "Total" 0 5 in
  click 0 true s = s
  ∧ cell_selected (attach_one cell) = false
  ∧ Forall (λ sel, structure sel ≠ "Total"
                   ∧ (structure sel, contract sel)
                     ≠ (cell_structure (attach_one cell),
                        cell_contract (attach_one cell)))
           (selectedCells s).
Proof.
  apply (total_row_click_is_inert Literal.eval (Some "CL") true true
           [Loaded "CL" (PosOk snap_total); Click 1 false] 0 true).
  - reflexivity.
  - reflexivity.
Defined.

(** C10, as stated, fails on the empty result: its fingerprint differs
    from the stored one and it is rendered, as the placeholder, with the
    store and the panel left as they were. *)
Lemma empty_result_keeps_selection :
  let r := loadPositions_resume "CL" (PosOk snap_empty) edited in
  prevDataJSON edited ≠ Some (dataJSON snap_empty)
  ∧ snd r = Placeholder
  ∧ container (fst r) = Some (Message "No positions found for CL.")
  ∧ selectedCells (fst r) = selectedCells edited
  ∧ length (selectedCells (fst r)) = 1%nat
  ∧ panel (fst r) = panel edited.
Proof. repeat split; try (vm_compute; reflexivity). vm_compute. discriminate. Qed.

(** The snapshot with a total row arrives on a page that shows [snap] with
    its cell selected. *)
Lemma rendering_a_grid_resets_selection_witness :
  let s := run Literal.eval (initial_page (Some "CL") true true)
             [Loaded "CL" (PosOk snap); Click 0 false; Input 0 "7"] in
  snd (loadPositions_resume "CL" (PosOk snap_total) s) = Rendered
  ∧ selectedCells (fst (loadPositions_resume "CL" (PosOk snap_total) s)) = []
  ∧ panel (fst (loadPositions_resume "CL" (PosOk snap_total) s))
    = match panel s with Some _ => Some empty_panel | None => None end.
Proof.
  apply (rendering_a_grid_resets_selection Literal.eval (Some "CL") true true
           [Loaded "CL" (PosOk snap); Click 0 false; Input 0 "7"] "CL" snap_total).
  - vm_compute. discriminate.
  - vm_compute. discriminate.
  - reflexivity.
Defined.

(** C6, as stated, fails when the product changes between the two
    fetches: the change listener empties the slot, so the second snapshot,
    though its fingerprint equals that of the first, is rendered again and
    the selection and the edit are lost. *)
Lemma product_change_between_equal_snapshots :
  let s1 := run Literal.eval page0
              [Loaded "CL" (PosOk snap); Click 0 false; Input 0 "7";
               ProductChange "HO"] in
  selectedCells s1 ≠ []
  ∧ snd (loadPositions_resume "HO" (PosOk snap) s1) = Rendered
  ∧ selectedCells (fst (loadPositions_resume "HO" (PosOk snap) s1)) = []
  ∧ fst (loadPositions_resume "HO" (PosOk snap) s1) ≠ s1.
Proof. vm_compute. repeat split; discriminate. Qed.

End Runs.

(** ** Concrete runs among other handlers *)

Module AmongRuns.
Import Sample SampleAmbients.

Lemma accepted_hedge_clears_and_reloads_witness :
  ∃ s0,
    Concurrent.by_others busy edited s0
    ∧ selectedCells (clearSelection s0) = []
    ∧ fetches (snd (Concurrent.applyHedgeFromSelection busy accepts edited))
      = [(current_product (clearSelection s0),
          snd (loadPositions_resume (current_product (clearSelection s0))
                 (refresh accepts)
                 (Concurrent.meanwhile busy Concurrent.AwaitRefresh (clearSelection s0))))]
    ∧ alerts (snd (Concurrent.applyHedgeFromSelection busy accepts edited)) = [].
Proof.
  destruct (accepted_hedge_clears_and_reloads busy accepts edited "CL"
              [("hedged_name", JS.VStr "fly"); ("base_contract", JS.VStr "Z5");
               ("hedged_lots", JS.VNum 7)])
    as (s0 & Hf & Hc & _ & Hg & _ & Ha & _).
  - vm_compute. discriminate.
  - reflexivity.
  - reflexivity.
  - exists s0. auto.
Defined.



(** C3, as stated, fails when a poll tick renders a changed snapshot while
    the first submit is awaited: the operator cancels, and the store that
    was populated when the run started is empty when it ends. *)
Lemma cancelled_run_finds_store_emptied :
  let result := Concurrent.applyHedgeFromSelection busy (gap (λ _, None) refused) edited in
  selectedCells edited ≠ []
  ∧ selectedCells (fst result) = []
  ∧ alerts (snd result) = ["Error: Operation cancelled by user"].
Proof. vm_compute. repeat split. discriminate. Qed.

Lemma declined_prompt_cancels_witness :
  let w := gap (λ k, match k with O => Some "[1,-1]" | S _ => None end) refused in
  let result := Concurrent.applyHedgeFromSelection busy w edited in
  Concurrent.by_others busy edited (fst result)
  ∧ created (snd result) = [JS.VStr "X"]
  ∧ posts (snd result) = [build_payload "CL" (selectedCells edited)]
  ∧ alerts (snd result) = ["Error: Operation cancelled by user"].
Proof.
  destruct (declined_prompt_cancels busy
              (gap (λ k, match k with O => Some "[1,-1]" | S _ => None end) refused)
              edited "CL" missing_xy 1)
    as (Hf & _ & Hc & Hp & _ & Ha).
  - vm_compute. discriminate.
  - reflexivity.
  - reflexivity.
  - simpl. lia.
  - reflexivity.
  - reflexivity.
  - auto.
Defined.

Lemma pattern_is_any_evaluated_array_witness :
  In (PostCreate (JS.VStr "X") (JS.VArr [JS.VStr "a"]))
     (snd (Concurrent.applyHedgeFromSelection busy (gap (λ _, Some "['a']") refused)
             edited)).
Proof.
  apply (pattern_is_any_evaluated_array busy (gap (λ _, Some "['a']") refused) edited
           "CL" missing_xy [JS.VStr "X"; JS.VStr "Y"] 0 (JS.VStr "X") "['a']").
  - vm_compute. discriminate.
  - reflexivity.
  - reflexivity.
  - reflexivity.
  - reflexivity.
  - reflexivity.
  - reflexivity.
Defined.

End AmongRuns.

(** * Further properties of the script *)

(** ** Selection store *)

Lemma reached_ok js_eval s : reached js_eval s → page_ok s ∧ store_ok s.
Proof.
  intros (prod & hc & hp & evs & ->). split.
  - apply run_ok, initial_page_ok.
  - apply run_store_ok, initial_page_store_ok.
Qed.

(** X1.  On every page the script can reach, no two entries of the store
    have the same key, and the key of an entry is the text
    structure||contract of that entry. *)
Theorem store_keys_are_distinct js_eval prod hc hp evs :
  let s := run js_eval (initial_page prod hc hp) evs in
  NoDup (key <$> selectedCells s)
  ∧ Forall (λ sel, key sel = structure sel +:+ "||" +:+ contract sel)
           (selectedCells s).
Proof.
  intros s.
  destruct (run_store_ok js_eval _ evs (initial_page_store_ok prod hc hp))
    as [Hk Hb _].
  split; assumption.
Qed.

(** X2.  On every page the script can reach, the panel shows either no
    item or one item per entry of the store, in store order and with the
    label of its entry: the i-th input and the i-th remove button stand for
    the i-th entry. *)
Theorem panel_lists_the_store js_eval prod hc hp evs pn :
  let s := run js_eval (initial_page prod hc hp) evs in
  panel s = Some pn →
  items pn = []
  ∨ (item_label <$> items pn
     = (λ sel, structure sel +:+ " — " +:+ contract sel) <$> selectedCells s
     ∧ length (items pn) = length (selectedCells s)).
Proof.
  intros s Hp.
  destruct (run_store_ok js_eval _ evs (initial_page_store_ok prod hc hp))
    as [_ _ Hm].
  destruct (Hm pn Hp) as [Hnil | Hl]; [left; exact Hnil | right].
  split; [exact Hl |].
  apply (f_equal length) in Hl. rewrite !length_fmap in Hl. exact Hl.
Qed.

Lemma lookup_unselect_cell h l id c' :
  foldl remove_selected_class h l !! id = Some c' →
  ∃ c, h !! id = Some c ∧ (c' = c ∨ c' = set_selected false c).
Proof.
  revert h. induction l as [| sel l IH]; intros h Hl.
  - exists c'. auto.
  - destruct (IH _ Hl) as (c1 & H1 & Hc).
    unfold remove_selected_class in H1.
    rewrite list_lookup_alter in H1.
    destruct (decide (element sel = id)) as [-> | Hne].
    + destruct (h !! id) as [c |] eqn:Ec; [| discriminate].
      injection H1 as <-. exists c. split; [reflexivity |].
      destruct Hc as [-> | ->]; auto.
    + exists c1. auto.
Qed.

Lemma lookup_unselect_Some h l id c :
  h !! id = Some c →
  ∃ c', foldl remove_selected_class h l !! id = Some c'
        ∧ (c' = c ∨ c' = set_selected false c).
Proof.
  intros Hc.
  destruct (foldl remove_selected_class h l !! id) as [c' |] eqn:El.
  - destruct (lookup_unselect_cell _ _ _ _ El) as (c0 & H0 & Hc').
    exists c'. split; [reflexivity |]. congruence.
  - exfalso. apply lookup_ge_None in El.
    assert (Hlen : ∀ l h, length (foldl remove_selected_class h l) = length h).
    { clear. intros l. induction l as [| x l IH]; intros h; [reflexivity |].
      simpl. rewrite IH. apply length_alter. }
    rewrite Hlen in El. apply lookup_lt_Some in Hc. lia.
Qed.

(** X3.  A click without the control key on a cell that has a listener
    leaves exactly that cell in the store, whatever was selected before
    (the cell itself included), and marks it selected. *)
Theorem plain_click_selects_only_that_cell id s cell :
  panel s ≠ None →
  elems s !! id = Some cell →
  cell_clickable cell = true →
  selectedCells (click id false s) = [entry_of id cell]
  ∧ cell_selected <$> elems (click id false s) !! id = Some true.
Proof.
  intros Hp Hcell Hk. unfold click. rewrite Hcell, Hk.
  destruct (lookup_unselect_Some (elems s) (selectedCells s) id cell Hcell)
    as (c' & Hc' & Heq).
  unfold toggleCellSelection. cbn [panel clearSelection elems selectedCells].
  destruct (panel s) as [pn |]; [| contradiction].
  rewrite Hc'. cbn [findIndex].
  match goal with
  | |- context [renderSelectionPanel ?t] =>
      destruct (renderSelectionPanel_fields t) as (-> & -> & _)
  end.
  cbn [selectedCells elems]. split.
  - destruct Heq as [-> | ->]; reflexivity.
  - rewrite list_lookup_alter_eq, Hc'. reflexivity.
Qed.

Lemma findIndex_app_new k l e :
  findIndex k l = None → key e = k →
  findIndex k (l ++ [e]) = Some (length l).
Proof.
  intros Hn He. induction l as [| x l IH]; simpl in *.
  - rewrite He, String.eqb_refl. reflexivity.
  - destruct (String.eqb (key x) k); [discriminate |].
    destruct (findIndex k l); [discriminate |].
    rewrite IH by reflexivity. reflexivity.
Qed.

Lemma delete_last {A} (l : list A) (x : A) : delete (length l) (l ++ [x]) = l.
Proof.
  induction l as [| y l IH]; [reflexivity |]. simpl. rewrite IH. reflexivity.
Qed.

(** X4.  Two clicks with the control key on a cell that has a listener and
    is not in the store leave the store as it was, and the cell unmarked:
    the first click appends the cell, the second removes it again. *)
Theorem ctrl_click_twice_restores_store id s cell :
  panel s ≠ None →
  elems s !! id = Some cell →
  cell_clickable cell = true →
  findIndex (cell_key cell) (selectedCells s) = None →
  selectedCells (click id true s) = selectedCells s ++ [entry_of id cell]
  ∧ selectedCells (click id true (click id true s)) = selectedCells s
  ∧ cell_selected <$> elems (click id true (click id true s)) !! id = Some false.
Proof.
  intros Hp Hcell Hk Hfree.
  assert (H1 : selectedCells (click id true s) = selectedCells s ++ [entry_of id cell]
               ∧ elems (click id true s) = alter (set_selected true) id (elems s)
               ∧ panel (click id true s) ≠ None).
  { unfold click. rewrite Hcell, Hk. unfold toggleCellSelection.
    destruct (panel s) as [pn |] eqn:Ep; [| contradiction].
    rewrite Hcell. fold (cell_key cell). rewrite Hfree.
    match goal with
    | |- context [renderSelectionPanel ?t] =>
        destruct (renderSelectionPanel_fields t) as (-> & -> & _ & _ & _ & Hpn)
    end.
    cbn [selectedCells elems panel] in *.
    split; [reflexivity |]. split; [reflexivity |].
    intros Hn. apply Hpn in Hn. discriminate. }
  destruct H1 as (Hs1 & He1 & Hp1).
  split; [exact Hs1 |].
  assert (Hc1 : elems (click id true s) !! id = Some (set_selected true cell)).
  { rewrite He1, list_lookup_alter_eq, Hcell. reflexivity. }
  unfold click at 1 3. rewrite Hc1. cbn [cell_clickable set_selected]. rewrite Hk.
  unfold toggleCellSelection.
  destruct (panel (click id true s)) as [pn1 |]; [| contradiction].
  rewrite Hc1. cbn [cell_structure cell_contract set_selected].
  fold (cell_key cell). rewrite Hs1.
  rewrite (findIndex_app_new _ _ (entry_of id cell) Hfree eq_refl).
  match goal with
  | |- context [renderSelectionPanel ?t] =>
      destruct (renderSelectionPanel_fields t) as (-> & -> & _)
  end.
  cbn [selectedCells elems]. rewrite delete_last. split; [reflexivity |].
  rewrite lookup_app_r, Nat.sub_diag by lia. cbn [lookup list_lookup].
  unfold remove_selected_class. cbn [element entry_of].
  rewrite list_lookup_alter_eq, Hc1. reflexivity.
Qed.

Lemma findIndex_Some k l idx :
  findIndex k l = Some idx → ∃ sel, l !! idx = Some sel ∧ key sel = k.
Proof.
  revert idx. induction l as [| x l IH]; intros idx; simpl; [discriminate |].
  destruct (String.eqb_spec (key x) k) as [He | Hne].
  - intros [= <-]. exists x. auto.
  - destruct (findIndex k l) as [j |]; [| discriminate].
    intros [= <-]. apply (IH j eq_refl).
Qed.

Lemma keys_delete_fresh (l : list Selected) i sel :
  NoDup (key <$> l) → l !! i = Some sel → key sel ∉ key <$> delete i l.
Proof.
  revert i. induction l as [| x l IH]; intros [| i] Hnd Hi; try discriminate.
  - injection Hi as ->. simpl in *. apply NoDup_cons in Hnd as [Hx _]. exact Hx.
  - simpl in *. apply NoDup_cons in Hnd as [Hx Hnd].
    apply not_elem_of_cons. split; [| apply IH; assumption].
    intros He. apply Hx. rewrite <- He.
    apply list_elem_of_fmap_2, (list_elem_of_lookup_2 _ _ _ Hi).
Qed.

Lemma filter_keys_fresh (l : list Selected) k :
  k ∉ key <$> l → filter (λ x, key x ≠ k) l = l.
Proof.
  induction l as [| x l IH]; intros Hk; [reflexivity |].
  simpl in Hk. apply not_elem_of_cons in Hk as [Hx Hl].
  rewrite filter_cons_True by congruence. rewrite IH by exact Hl. reflexivity.
Qed.

Lemma filter_key_delete (l : list Selected) i sel :
  NoDup (key <$> l) → l !! i = Some sel →
  filter (λ x, key x ≠ key sel) l = delete i l.
Proof.
  revert i. induction l as [| x l IH]; intros [| i] Hnd Hi; try discriminate.
  - injection Hi as ->. simpl in *. apply NoDup_cons in Hnd as [Hx _].
    rewrite filter_cons_False by (intros H; apply H; reflexivity).
    apply filter_keys_fresh, Hx.
  - simpl in *. apply NoDup_cons in Hnd as [Hx Hnd].
    rewrite filter_cons_True.
    + rewrite (IH i Hnd Hi). reflexivity.
    + intros He. apply Hx. rewrite He.
      apply list_elem_of_fmap_2, (list_elem_of_lookup_2 _ _ _ Hi).
Qed.

(** X5.  On every page the script can reach, a click with the control key
    on a cell whose key is in the store removes the entry with that key
    and nothing else: the store is one entry shorter and no longer holds
    the key. *)
Theorem ctrl_click_on_selected_removes_it js_eval prod hc hp evs id cell idx :
  let s := run js_eval (initial_page prod hc hp) evs in
  elems s !! id = Some cell →
  cell_clickable cell = true →
  findIndex (cell_key cell) (selectedCells s) = Some idx →
  selectedCells (click id true s) = delete idx (selectedCells s)
  ∧ (cell_key cell ∉ key <$> selectedCells (click id true s))
  ∧ S (length (selectedCells (click id true s))) = length (selectedCells s).
Proof.
  intros s Hcell Hk Hidx.
  destruct (reached_ok js_eval s) as [Hok Hst].
  { exists prod, hc, hp, evs. reflexivity. }
  destruct (findIndex_Some _ _ _ Hidx) as (sel & Hsel & Hkey).
  assert (Hs : selectedCells (click id true s) = delete idx (selectedCells s)).
  { unfold click. rewrite Hcell, Hk. unfold toggleCellSelection.
    destruct (panel s) as [pn |] eqn:Ep.
    - rewrite Hcell. fold (cell_key cell). rewrite Hidx.
      match goal with
      | |- context [renderSelectionPanel ?t] =>
          destruct (renderSelectionPanel_fields t) as (-> & _)
      end. reflexivity.
    - rewrite (ok_panel _ Hok Ep) in Hsel. discriminate. }
  rewrite Hs. split; [reflexivity |]. split.
  - rewrite <- Hkey. apply keys_delete_fresh; [apply Hst | exact Hsel].
  - rewrite length_delete by eauto.
    apply lookup_lt_Some in Hsel. lia.
Qed.

(** X6.  [clearSelection] takes the mark off every cell element an entry
    of the store refers to and leaves every other cell element, and the
    text, class and listener of all of them, as they were. *)
Theorem clearSelection_unmarks_exactly_the_store s id :
  elems (clearSelection s) !! id
  = if bool_decide (id ∈ element <$> selectedCells s)
    then set_selected false <$> elems s !! id
    else elems s !! id.
Proof.
  cbn [clearSelection elems]. generalize (elems s) as h.
  induction (selectedCells s) as [| sel l IH]; intros h.
  - rewrite bool_decide_eq_false_2 by apply not_elem_of_nil. reflexivity.
  - simpl. rewrite IH. unfold remove_selected_class.
    rewrite list_lookup_alter.
    destruct (decide (element sel = id)) as [-> | Hne].
    + rewrite (bool_decide_eq_true_2 (id ∈ id :: _)) by apply list_elem_of_here.
      destruct (bool_decide _); destruct (h !! id); reflexivity.
    + destruct (bool_decide_reflect (id ∈ element <$> l)) as [Hin | Hnin].
      * rewrite bool_decide_eq_true_2; [reflexivity |].
        apply list_elem_of_further, Hin.
      * rewrite bool_decide_eq_false_2; [reflexivity |].
        apply not_elem_of_cons. auto.
Qed.

(** X7.  On every page the script can reach, the remove button of the
    i-th item of the panel deletes the i-th entry of the store, keeps the
    other entries in their order, and takes the mark off the cell of the
    entry it deletes. *)
Theorem remove_button_deletes_its_entry js_eval prod hc hp evs pn i :
  let s := run js_eval (initial_page prod hc hp) evs in
  panel s = Some pn →
  (i < length (items pn))%nat →
  ∃ sel,
    selectedCells s !! i = Some sel
    ∧ selectedCells (remove i s) = delete i (selectedCells s)
    ∧ elems (remove i s) = alter (set_selected false) (element sel) (elems s).
Proof.
  intros s Hp Hi.
  destruct (reached_ok js_eval s) as [Hok Hst].
  { exists prod, hc, hp, evs. reflexivity. }
  destruct (lookup_lt_is_Some_2 _ _ Hi) as [it Hit].
  destruct (panel_mirrors _ Hst pn Hp) as [Hnil | Hl].
  { rewrite Hnil in Hi. simpl in Hi. lia. }
  apply (f_equal length) in Hl. rewrite !length_fmap in Hl.
  destruct (lookup_lt_is_Some_2 (selectedCells s) i) as [sel Hsel]; [lia |].
  exists sel. split; [exact Hsel |].
  unfold remove. rewrite Hp, Hit, Hsel.
  match goal with
  | |- context [renderSelectionPanel ?t] =>
      destruct (renderSelectionPanel_fields t) as (-> & -> & _)
  end.
  cbn [selectedCells elems]. split; [| reflexivity].
  apply filter_key_delete; [apply Hst | exact Hsel].
Qed.

(** *** Entries of the store and the cells they refer to *)

Lemma points_at_alter h sel f i :
  (∀ c, cell_structure (f c) = cell_structure c
        ∧ cell_contract (f c) = cell_contract c
        ∧ (cell_selected c = true → cell_selected (f c) = true)) →
  points_at h sel → points_at (alter f i h) sel.
Proof.
  intros Hf (c & Hc & Hs & Hk & Hm). unfold points_at.
  rewrite list_lookup_alter.
  destruct (decide (i = element sel)) as [-> | Hne].
  - exists (f c). rewrite Hc. destruct (Hf c) as (-> & -> & Hsel). auto.
  - exists c. auto.
Qed.

Lemma points_at_alter_other h sel f i :
  i ≠ element sel → points_at h sel → points_at (alter f i h) sel.
Proof.
  intros Hne (c & Hc & H). exists c.
  rewrite list_lookup_alter_ne by exact Hne. auto.
Qed.

Lemma points_at_app h cells sel : points_at h sel → points_at (h ++ cells) sel.
Proof.
  intros (c & Hc & H). exists c. split; [| exact H].
  apply lookup_app_l_Some, Hc.
Qed.

(** Two entries that refer to the same cell element have the same key. *)
Lemma same_element_same_key h x y :
  key x = structure x +:+ "||" +:+ contract x →
  key y = structure y +:+ "||" +:+ contract y →
  points_at h x → points_at h y → element x = element y → key x = key y.
Proof.
  intros Hx Hy (c & Hc & Hs & Hk & _) (d & Hd & Hs' & Hk' & _) He.
  rewrite He in Hc. rewrite Hc in Hd. injection Hd as <-.
  rewrite Hx, Hy. congruence.
Qed.

Lemma renderSelectionPanel_points_ok s :
  points_ok s → points_ok (renderSelectionPanel s).
Proof.
  unfold points_ok.
  destruct (renderSelectionPanel_fields s) as (-> & -> & _). auto.
Qed.

Lemma toggleCellSelection_points_ok id s :
  store_ok s → points_ok s → points_ok (toggleCellSelection id s).
Proof.
  intros [Hk Hb _] Hpt. unfold toggleCellSelection.
  destruct (panel s) as [pn |]; [| exact Hpt].
  destruct (elems s !! id) as [cell |] eqn:Ecell; [| exact Hpt].
  destruct (findIndex _ _) as [idx |] eqn:Ef;
    apply renderSelectionPanel_points_ok; unfold points_ok in *; simpl.
  - destruct (findIndex_Some _ _ _ Ef) as (removed & Hrem & _).
    rewrite Hrem. apply Forall_forall. intros e He.
    pose proof (list_elem_of_delete_inv _ _ _ He) as Hin.
    apply points_at_alter_other; [| exact (proj1 (Forall_forall _ _) Hpt e Hin)].
    intros Heq.
    apply (keys_delete_fresh _ _ _ Hk Hrem).
    rewrite (same_element_same_key (elems s) removed e); auto.
    + apply list_elem_of_fmap_2, He.
    + exact (proj1 (Forall_forall _ _) Hb removed (list_elem_of_lookup_2 _ _ _ Hrem)).
    + exact (proj1 (Forall_forall _ _) Hb e Hin).
    + exact (proj1 (Forall_forall _ _) Hpt removed (list_elem_of_lookup_2 _ _ _ Hrem)).
    + exact (proj1 (Forall_forall _ _) Hpt e Hin).
  - apply Forall_app_2.
    + eapply Forall_impl; [exact Hpt |]. intros e He.
      apply points_at_alter; [| exact He]. intros c. auto.
    + constructor; [| constructor].
      exists (set_selected true cell). simpl.
      rewrite list_lookup_alter_eq, Ecell. auto.
Qed.

Lemma clearSelection_points_ok s : points_ok (clearSelection s).
Proof. constructor. Qed.

Lemma click_points_ok id ctrlKey s :
  store_ok s → points_ok s → points_ok (click id ctrlKey s).
Proof.
  intros Hst Hpt. unfold click.
  destruct (elems s !! id) as [cell |]; [| exact Hpt].
  destruct (cell_clickable cell); [| exact Hpt].
  destruct ctrlKey; apply toggleCellSelection_points_ok; auto.
  - apply clearSelection_store_ok.
  - apply clearSelection_points_ok.
Qed.

Lemma input_points_ok i v s : points_ok s → points_ok (input i v s).
Proof.
  intros Hpt. unfold input.
  destruct (panel s) as [pn |]; [| exact Hpt].
  destruct (items pn !! i); [| exact Hpt].
  destruct (selectedCells s !! i) as [sel |]; [| exact Hpt].
  unfold points_ok in *. simpl.
  apply Forall_alter.
  - eapply Forall_impl; [exact Hpt |]. intros e He.
    apply points_at_alter; [| exact He].
    intros c. unfold edited_span. destruct (class_of_num _); auto.
  - intros x _ Hx. exact Hx.
Qed.

Lemma remove_points_ok i s : store_ok s → points_ok s → points_ok (remove i s).
Proof.
  intros [Hk Hb _] Hpt. unfold remove.
  destruct (panel s) as [pn |]; [| exact Hpt].
  destruct (items pn !! i); [| exact Hpt].
  destruct (selectedCells s !! i) as [sel |] eqn:Hsel; [| exact Hpt].
  apply renderSelectionPanel_points_ok. unfold points_ok in *. simpl.
  apply Forall_forall. intros e He.
  apply list_elem_of_filter in He as [Hne Hin].
  apply points_at_alter_other; [| exact (proj1 (Forall_forall _ _) Hpt e Hin)].
  intros Heq. apply Hne.
  pose proof (list_elem_of_lookup_2 _ _ _ Hsel) as Hsin.
  symmetry. apply (same_element_same_key (elems s) sel e); auto.
  - exact (proj1 (Forall_forall _ _) Hb sel Hsin).
  - exact (proj1 (Forall_forall _ _) Hb e Hin).
  - exact (proj1 (Forall_forall _ _) Hpt sel Hsin).
  - exact (proj1 (Forall_forall _ _) Hpt e Hin).
Qed.

Lemma buildGrid_points_ok cs rws x s : points_ok s → points_ok (buildGrid cs rws x s).
Proof.
  intros Hpt. unfold buildGrid.
  destruct (build_rows _ _ _) as [cells body].
  unfold attachCellSelectionHandlers. simpl.
  destruct (panel s); unfold points_ok in *; simpl; [constructor |].
  eapply Forall_impl; [exact Hpt |]. intros e. apply points_at_app.
Qed.

Lemma loadPositions_resume_points_ok prod r s :
  points_ok s → points_ok (fst (loadPositions_resume prod r s)).
Proof.
  intros Hpt. unfold loadPositions_resume, load_error.
  destruct r as [message | | snap];
    try (destruct (container s); exact Hpt).
  destruct (container s) as [region |]; [| exact Hpt].
  destruct (bool_decide _); [exact Hpt |].
  destruct (is_nil (contracts snap) && is_nil (rows snap)); simpl.
  - exact Hpt.
  - apply (buildGrid_points_ok _ _ _ s Hpt).
Qed.

Lemma step_points_ok js_eval s ev :
  store_ok s → points_ok s → points_ok (step js_eval s ev).
Proof.
  intros Hst Hpt. destruct ev as [prod r | id ctrlKey | i v | i | p | x | w]; simpl.
  - apply loadPositions_resume_points_ok, Hpt.
  - apply click_points_ok; assumption.
  - apply input_points_ok, Hpt.
  - apply remove_points_ok; assumption.
  - unfold product_change. destruct (product s); [| exact Hpt].
    destruct (container _); exact Hpt.
  - unfold scroll. destruct (container s) as [[| t | h b y] |]; exact Hpt.
  - destruct (applyHedgeFromSelection_page js_eval w s) as [-> | ->]; [exact Hpt |].
    apply loadPositions_resume_points_ok, clearSelection_points_ok.
Qed.

Lemma step_store_ok js_eval s ev : store_ok s → store_ok (step js_eval s ev).
Proof. intros Hok. exact (run_store_ok js_eval s [ev] Hok). Qed.

Lemma run_points_ok js_eval s evs :
  store_ok s → points_ok s → points_ok (run js_eval s evs).
Proof.
  revert s. induction evs as [| ev evs IH]; intros s Hst Hpt; [exact Hpt |].
  apply IH; [apply step_store_ok, Hst | apply step_points_ok; assumption].
Qed.

(** X8.  On every page the script can reach, each entry of the store
    refers to a cell element that exists, that has the structure and the
    contract the entry was stored with, and that is marked selected; and
    no two entries refer to the same cell element. *)
Theorem store_entries_point_at_marked_cells js_eval prod hc hp evs :
  let s := run js_eval (initial_page prod hc hp) evs in
  Forall (λ sel, ∃ c, elems s !! element sel = Some c
                      ∧ cell_structure c = structure sel
                      ∧ cell_contract c = contract sel
                      ∧ cell_selected c = true)
         (selectedCells s)
  ∧ NoDup (element <$> selectedCells s).
Proof.
  intros s.
  pose proof (run_store_ok js_eval _ evs (initial_page_store_ok prod hc hp)) as Hst.
  assert (Hpt : points_ok s).
  { apply run_points_ok; [apply initial_page_store_ok | constructor]. }
  split; [exact Hpt |].
  destruct Hst as [Hk Hb _]. fold s in Hk, Hb. unfold points_ok in Hpt.
  induction (selectedCells s) as [| x l IH]; [constructor |].
  simpl in *. apply NoDup_cons in Hk as [Hx Hk].
  apply Forall_cons in Hb as [Hbx Hb]. apply Forall_cons in Hpt as [Hpx Hpt].
  apply NoDup_cons. split; [| apply IH; assumption].
  intros Hin. apply list_elem_of_fmap_1 in Hin as (y & Hy & Hyl).
  apply Hx.
  rewrite (same_element_same_key (elems s) x y); auto.
  - apply list_elem_of_fmap_2, Hyl.
  - exact (proj1 (Forall_forall _ _) Hb y Hyl).
  - exact (proj1 (Forall_forall _ _) Hpt y Hyl).
Qed.

(** ** Snapshot fetcher and grid renderer *)

(** X9.  A request that fails while a grid is shown replaces the grid by
    the error message and keeps the fingerprint slot and the store.  The
    snapshot that was rendered before, arriving again, therefore leaves
    through the short-circuit: the error message stays where the grid
    was. *)
Theorem failed_request_hides_unchanged_grid prod prod' r snap s :
  container s ≠ None →
  prevDataJSON s = Some (dataJSON snap) →
  (∀ sn, r ≠ PosOk sn) →
  let message :=
    match r with PosFailed m => m | _ => "Network response was not ok" end in
  let s1 := fst (loadPositions_resume prod r s) in
  container s1 = Some (Message ("Error loading data: " +:+ message))
  ∧ prevDataJSON s1 = prevDataJSON s
  ∧ selectedCells s1 = selectedCells s
  ∧ panel s1 = panel s
  ∧ loadPositions_resume prod' (PosOk snap) s1 = (s1, Unchanged).
Proof.
  intros Hc Hp Hr message s1.
  assert (Hs1 : s1 = with_container
                       (Some (Message ("Error loading data: " +:+ message))) s).
  { subst s1 message. unfold loadPositions_resume, load_error.
    destruct r as [m | | sn]; [| | destruct (Hr sn eq_refl)];
      destruct (container s); try contradiction; reflexivity. }
  rewrite Hs1. do 4 (split; [reflexivity |]).
  apply loadPositions_resume_unchanged; [discriminate | exact Hp].
Qed.

(** X10.  The change listener of the product selector shows the loading
    placeholder, empties the fingerprint slot and leaves the store and the
    panel alone.  The next snapshot that arrives is rendered whatever it
    is, as the placeholder when it is the empty result and as a grid
    otherwise, and never leaves through the short-circuit. *)
Theorem product_change_forces_next_render p prod snap s :
  product s ≠ None →
  container s ≠ None →
  let s1 := product_change p s in
  product s1 = Some p
  ∧ container s1 = Some (Message "Loading…")
  ∧ selectedCells s1 = selectedCells s
  ∧ panel s1 = panel s
  ∧ snd (loadPositions_resume prod (PosOk snap) s1)
    = (if is_nil (contracts snap) && is_nil (rows snap)
       then Placeholder else Rendered).
Proof.
  intros Hprod Hc s1. subst s1. unfold product_change.
  destruct (product s); [| contradiction].
  destruct (container s) as [region |] eqn:Ec; [| contradiction].
  cbn [container with_prev with_product]. rewrite Ec.
  do 4 (split; [reflexivity |]).
  simpl. destruct (is_nil (contracts snap) && is_nil (rows snap)); reflexivity.
Qed.

Lemma buildGrid_container cs rws x s :
  ∃ body, container (buildGrid cs rws x s) = Some (Grid cs body x)
          ∧ body = snd (build_rows cs rws (length (elems s))).
Proof.
  unfold buildGrid. destruct (build_rows _ _ _) as [cells body].
  exists body. unfold attachCellSelectionHandlers. simpl.
  destruct (panel s); auto.
Qed.

(** X11.  A snapshot that is rendered as a grid takes over the horizontal
    scroll offset of the grid it replaces; when it replaces a placeholder,
    an error message or the initial markup, it starts at offset 0. *)
Theorem rendered_grid_keeps_scroll_offset prod snap s region :
  container s = Some region →
  prevDataJSON s ≠ Some (dataJSON snap) →
  is_nil (contracts snap) && is_nil (rows snap) = false →
  ∃ body,
    container (fst (loadPositions_resume prod (PosOk snap) s))
    = Some (Grid (contracts snap) body
              (match region with Grid _ _ x => x | _ => 0 end)).
Proof.
  intros Hc Hp Hnil. simpl. rewrite Hc.
  rewrite bool_decide_eq_false_2 by exact Hp. rewrite Hnil. simpl.
  destruct (buildGrid_container (contracts snap) (rows snap)
              (match region with Grid _ _ x => x | _ => 0 end) s)
    as (body & Hb & _).
  exists body. exact Hb.
Qed.

Lemma build_rows_ids cs rws next :
  concat (snd <$> snd (build_rows cs rws next))
  = seq next (length (fst (build_rows cs rws next)))
  ∧ fst <$> snd (build_rows cs rws next) = name <$> rws.
Proof.
  revert next. induction rws as [| r rws IH]; intros next; [auto |].
  destruct (IH (next + length (lots r))%nat) as [Hids Hnames].
  cbn [build_rows].
  destruct (build_rows cs rws _) as [cells body]. cbn [fst snd] in *.
  rewrite !fmap_cons. cbn [fst snd].
  rewrite concat_cons, Hids, Hnames, length_app, length_imap, seq_app. auto.
Qed.

Lemma foldl_alter_seq (f : Cell → Cell) cells : ∀ h,
  foldl (λ h id, alter f id h) (h ++ cells) (seq (length h) (length cells))
  = h ++ (f <$> cells).
Proof.
  induction cells as [| c cells IH]; intros h; [reflexivity |].
  simpl.
  replace (alter f (length h) (h ++ c :: cells)) with ((h ++ [f c]) ++ cells).
  - replace (S (length h)) with (length (h ++ [f c]))
      by (rewrite length_app; simpl; lia).
    rewrite IH, <- app_assoc. reflexivity.
  - rewrite <- (Nat.add_0_r (length h)).
    rewrite alter_app_r, <- app_assoc. reflexivity.
Qed.

(** The cell elements after [buildGrid]: the old ones, then the new. *)
Lemma buildGrid_elems cs rws x s :
  elems (buildGrid cs rws x s)
  = elems s ++ (match panel s with
                | Some _ => attach_one <$> fst (build_rows cs rws (length (elems s)))
                | None => fst (build_rows cs rws (length (elems s)))
                end).
Proof.
  pose proof (build_rows_ids cs rws (length (elems s))) as [Hids _].
  unfold buildGrid.
  destruct (build_rows cs rws (length (elems s))) as [cells body].
  cbn [fst snd] in *.
  unfold attachCellSelectionHandlers, grid_cells. cbn [panel container elems].
  destruct (panel s); cbn [elems]; [| reflexivity].
  rewrite Hids. apply foldl_alter_seq.
Qed.

(** X12.  [buildGrid] creates one new cell element per lot of the
    snapshot and touches no cell element that existed before: the elements
    of earlier grids keep their text, mark and listener.  The cells of the
    page's grid are then exactly the new ones, and on a page with a
    selection panel each of them has gone through the handler set-up. *)
Theorem buildGrid_adds_fresh_cells cs rws x s :
  let cells := fst (build_rows cs rws (length (elems s))) in
  elems (buildGrid cs rws x s)
  = elems s ++ (match panel s with Some _ => attach_one <$> cells | None => cells end)
  ∧ grid_cells (buildGrid cs rws x s) = seq (length (elems s)) (length cells)
  ∧ length cells = sum_list (length <$> (lots <$> rws)).
Proof.
  intros cells. subst cells.
  split; [apply buildGrid_elems |]. split.
  - pose proof (build_rows_ids cs rws (length (elems s))) as [Hids _].
    unfold buildGrid.
    destruct (build_rows cs rws (length (elems s))) as [cells body].
    cbn [fst snd] in *.
    unfold attachCellSelectionHandlers, grid_cells. cbn [panel container].
    destruct (panel s); cbn [container]; exact Hids.
  - generalize (length (elems s)) as next.
    induction rws as [| r rws IH]; intros next; [reflexivity |].
    simpl. specialize (IH (next + length (lots r))%nat).
    destruct (build_rows cs rws _) as [cells body]. simpl in *.
    rewrite length_app, length_imap, IH. reflexivity.
Qed.

Lemma build_rows_lookup cs rws : ∀ next j r i l,
  rws !! j = Some r → lots r !! i = Some l →
  ∃ ids id,
    snd (build_rows cs rws next) !! j = Some (name r, ids)
    ∧ ids !! i = Some id
    ∧ (next ≤ id)%nat
    ∧ fst (build_rows cs rws next) !! (id - next)%nat
      = Some (new_cell cs (name r) i l).
Proof.
  induction rws as [| r0 rws IH]; intros next j r i l Hj Hi; [discriminate |].
  simpl. destruct j as [| j].
  - injection Hj as ->.
    destruct (build_rows cs rws _) as [cells body]. simpl.
    exists (seq next (length (lots r))), (next + i)%nat.
    pose proof (lookup_lt_Some _ _ _ Hi) as Hlt.
    split; [reflexivity |]. split; [apply lookup_seq_lt, Hlt |].
    split; [lia |].
    replace (next + i - next)%nat with i by lia.
    rewrite lookup_app_l by (rewrite length_imap; exact Hlt).
    rewrite list_lookup_imap, Hi. reflexivity.
  - simpl in Hj.
    destruct (IH (next + length (lots r0))%nat j r i l Hj Hi)
      as (ids & id & Hb & Hid & Hle & Hc).
    destruct (build_rows cs rws _) as [cells body]. simpl in *.
    exists ids, id. split; [exact Hb |]. split; [exact Hid |]. split; [lia |].
    rewrite lookup_app_r by (rewrite length_imap; lia).
    rewrite length_imap.
    replace (id - next - length (lots r0))%nat
      with (id - (next + length (lots r0)))%nat by lia.
    exact Hc.
Qed.

(** X13.  After [buildGrid] on a page with a selection panel, the cell of
    lot [i] of row [j] of the snapshot carries the name of the row and the
    contract of column [i] (the empty text when the row has more lots than
    there are contracts), shows the lot when it is a safe integer (blank
    for zero), is not marked selected, and has a click listener exactly
    when its row is not named "Total", in which case it is styled as
    disabled instead. *)
Theorem rendered_cell_of_lot cs rws x s j r i l :
  panel s ≠ None →
  rws !! j = Some r →
  lots r !! i = Some l →
  ∃ body ids id c,
    container (buildGrid cs rws x s) = Some (Grid cs body x)
    ∧ body !! j = Some (name r, ids)
    ∧ ids !! i = Some id
    ∧ elems (buildGrid cs rws x s) !! id = Some c
    ∧ cell_structure c = name r
    ∧ cell_contract c = default "" (cs !! i)
    ∧ (safe_integer l → cell_text c = (if l =? 0 then "" else JS.string_of_Z l))
    ∧ cell_selected c = false
    ∧ cell_clickable c = negb (String.eqb (name r) "Total")
    ∧ cell_disabled c = String.eqb (name r) "Total".
Proof.
  intros Hp Hj Hi.
  destruct (buildGrid_container cs rws x s) as (body & Hcont & Hbody).
  destruct (build_rows_lookup cs rws (length (elems s)) j r i l Hj Hi)
    as (ids & id & Hb & Hid & Hle & Hc).
  pose proof (buildGrid_elems cs rws x s) as He.
  destruct (panel s) as [pn |]; [| contradiction].
  exists body, ids, id, (attach_one (new_cell cs (name r) i l)).
  split; [exact Hcont |]. split; [rewrite Hbody; exact Hb |].
  split; [exact Hid |]. split.
  - rewrite He, lookup_app_r by exact Hle.
    rewrite list_lookup_fmap, Hc. reflexivity.
  - unfold attach_one. cbn [new_cell cell_structure].
    destruct (String.eqb (name r) "Total"); repeat split; reflexivity.
Qed.

(** ** Hedge application protocol *)

Section ProtocolShape.

Variable js_eval : string → option JS.value.

Lemma all_answered_intro w n :
  (∀ j, (j < n)%nat → answered js_eval w j = true) →
  all_answered js_eval w n = true.
Proof.
  intros H. unfold all_answered. apply forallb_forall.
  intros j Hj. apply in_seq in Hj. apply H. lia.
Qed.

(** The loop over the missing names, whatever the answers: it submits no
    hedge and raises no alert, its create requests are those of the first
    names of the list, in order, and it runs to its end exactly when every
    prompt is answered with an array and every create request accepted. *)
Lemma resolve_missing_shape w missing : ∀ k0,
  posts (fst (resolve_missing js_eval w missing k0)) = []
  ∧ alerts (fst (resolve_missing js_eval w missing k0)) = []
  ∧ created (fst (resolve_missing js_eval w missing k0)) `prefix_of` missing
  ∧ (snd (resolve_missing js_eval w missing k0) = None →
       ∀ j, (j < length missing)%nat → answered js_eval w (k0 + j) = true).
Proof.
  induction missing as [| n missing IH]; intros k0.
  - simpl. repeat split; auto. intros _ j Hj. simpl in Hj. lia.
  - cbn [resolve_missing]. unfold read_pattern.
    destruct (prompts w k0) as [u |] eqn:Hu.
    2:{ simpl. repeat split; auto using prefix_nil. discriminate. }
    destruct (js_eval u) as [v |] eqn:Hev.
    2:{ simpl. repeat split; auto using prefix_nil. discriminate. }
    destruct (JS.isArray v) eqn:Harr.
    2:{ simpl. repeat split; auto using prefix_nil. discriminate. }
    destruct (creates w k0) as [m | [] d] eqn:Hcr.
    + simpl. repeat split; auto. apply prefix_cons, prefix_nil. discriminate.
    + destruct (IH (S k0)) as (Hp & Ha & Hc & Hn).
      destruct (resolve_missing js_eval w missing (S k0)) as [effects thrown].
      simpl in *. repeat split; auto.
      * apply prefix_cons, Hc.
      * intros Ht [| j] Hj.
        -- rewrite Nat.add_0_r. unfold answered. rewrite Hu, Hev, Hcr.
           destruct v; try discriminate. reflexivity.
        -- replace (k0 + S j)%nat with (S k0 + j)%nat by lia.
           apply Hn; [exact Ht | lia].
    + simpl. repeat split; auto. apply prefix_cons, prefix_nil. discriminate.
Qed.

(** What the [try] block of a run comes to, for every world: the page is
    the one of the success path when the hedge is accepted and the old one
    otherwise; the hedge is submitted a second time exactly after a
    resolved recovery; no alert is raised inside; and an error is thrown
    unless the hedge is accepted with a body that is not null. *)
Lemma hedge_try_shape body w s :
  ∃ before effects thrown,
    hedge_try js_eval body w s
    = (match accepted js_eval w with
       | Some _ => fst (loadPositions (refresh w) (clearSelection s))
       | None => s
       end,
       before ++ (if recovered js_eval w then PostHedge body :: effects else effects),
       thrown)
    ∧ posts before = [] ∧ alerts before = []
    ∧ posts effects = [] ∧ alerts effects = [] ∧ created effects = []
    ∧ match accepted js_eval w with
      | Some data =>
          match hedge_applied data with
          | Some _ => thrown = None
          | None => thrown = Some (JS.type_error "hedged_name")
          end
      | None => is_Some thrown
      end.
Proof.
  assert (Hsucc : ∀ data,
    ∃ effects thrown,
      on_success data w s
      = (fst (loadPositions (refresh w) (clearSelection s)), effects, thrown)
      ∧ posts effects = [] ∧ alerts effects = [] ∧ created effects = []
      ∧ match hedge_applied data with
        | Some _ => thrown = None
        | None => thrown = Some (JS.type_error "hedged_name")
        end).
  { intros data. unfold on_success.
    destruct (loadPositions (refresh w) (clearSelection s)) as [s2 path].
    destruct (hedge_applied data); eexists _, _; repeat split; reflexivity. }
  assert (Hretry :
    ∃ effects thrown,
      retry_once body w s
      = (match retry w with
         | Response true _ => fst (loadPositions (refresh w) (clearSelection s))
         | _ => s
         end, PostHedge body :: effects, thrown)
      ∧ posts effects = [] ∧ alerts effects = [] ∧ created effects = []
      ∧ match retry w with
        | Response true data =>
            match hedge_applied data with
            | Some _ => thrown = None
            | None => thrown = Some (JS.type_error "hedged_name")
            end
        | _ => is_Some thrown
        end).
  { unfold retry_once. destruct (retry w) as [m | [] data].
    - exists [], (Some m). repeat split; eauto.
    - destruct (Hsucc data) as (effects & thrown & -> & H).
      exists effects, thrown. split; [reflexivity | exact H].
    - eexists [], (Some _). repeat split; eauto. }
  unfold hedge_try, accepted, recovered.
  destruct (submit w) as [m | [] data].
  - exists [], [], (Some m). repeat split; eauto.
  - destruct (Hsucc data) as (effects & thrown & -> & H).
    exists [], effects, thrown. split; [reflexivity |]. tauto.
  - destruct (classify data) as [missing | pattern |].
    + unfold missing_strategies.
      destruct (resolve_missing_shape w missing 0) as (Hp & Ha & _ & Hn).
      destruct (resolve_missing js_eval w missing 0) as [asked [m |]] eqn:Hres;
        simpl in Hp, Ha, Hn.
      * destruct (all_answered js_eval w (length missing)) eqn:Hall.
        -- destruct (resolve_missing_all js_eval w missing Hall) as (a & Ha' & _).
           congruence.
        -- exists asked, [], (Some m). rewrite app_nil_r.
           repeat split; eauto.
      * rewrite (all_answered_intro w (length missing)) by (apply Hn; reflexivity).
        destruct Hretry as (effects & thrown & -> & Hpe & Hae & Hce & Ht).
        exists asked, effects, thrown.
        destruct (retry w) as [m | [] d]; repeat split; auto.
    + unfold missing_hedged_pattern.
      destruct (prompts w 0) as [suggested |].
      2:{ eexists [_], [], (Some _). repeat split; eauto. }
      destruct (creates w 0) as [m | [] d].
      * eexists [_; _], [], (Some _). repeat split; eauto.
      * destruct Hretry as (effects & thrown & -> & Hpe & Hae & Hce & Ht).
        eexists [_; _], effects, thrown.
        destruct (retry w) as [m | [] d']; repeat split; auto.
      * eexists [_; _], [], (Some _). repeat split; eauto.
    + eexists [], [], (Some _). repeat split; eauto.
Qed.

End ProtocolShape.

Section ProtocolExtras.

Variable js_eval : string → option JS.value.

(** X17.  When strategies are missing, the create requests of the run are
    those of the first names of the list the backend sent, one per name
    and in the order of the list; all of them when the gap is resolved. *)
Theorem create_requests_follow_missing_names w s prod data missing :
  selectedCells s ≠ [] → product s = Some prod →
  submit w = Response false data →
  classify data = MissingStrategies missing →
  created (snd (applyHedgeFromSelection js_eval w s)) `prefix_of` missing
  ∧ (recovered js_eval w = true →
       created (snd (applyHedgeFromSelection js_eval w s)) = missing).
Proof.
  intros Hne Hprod Hsub Hcl.
  rewrite (applyHedgeFromSelection_run js_eval w s prod Hne Hprod).
  set (body := build_payload prod (selectedCells s)).
  assert (Hc : created (snd (fst (hedge_try js_eval body w s)))
               = created (fst (resolve_missing js_eval w missing 0))).
  { unfold hedge_try. rewrite Hsub, Hcl. unfold missing_strategies.
    destruct (resolve_missing js_eval w missing 0) as [asked [m |]]; [reflexivity |].
    destruct (retry_once_run body w s) as (effects & thrown & -> & _ & Hce & _).
    cbn [fst snd]. rewrite created_app. cbn [created]. rewrite Hce.
    apply app_nil_r. }
  assert (Hall : created (PostHedge body :: snd (fst (hedge_try js_eval body w s)) ++
                   match snd (hedge_try js_eval body w s) with
                   | Some message => [Alert ("Error: " +:+ message); ConsoleError message]
                   | None => []
                   end)
                 = created (fst (resolve_missing js_eval w missing 0))).
  { cbn [created]. rewrite created_app, Hc.
    destruct (snd (hedge_try js_eval body w s)); apply app_nil_r. }
  cbn [snd]. rewrite Hall. split.
  - apply (resolve_missing_shape js_eval w missing 0).
  - unfold recovered. rewrite Hsub, Hcl. intros Hrec.
    destruct (resolve_missing_all js_eval w missing Hrec) as (asked & -> & <- & _).
    reflexivity.
Qed.

(** X20.  A product change keeps the store and the panel, the label of
    the apply button included.  A hedge applied after it is submitted for
    the new product with the entries selected under the old one. *)
Theorem hedge_after_product_change_uses_new_product w p s :
  product s ≠ None →
  selectedCells s ≠ [] →
  panel (product_change p s) = panel s
  ∧ selectedCells (product_change p s) = selectedCells s
  ∧ ∃ rest,
      snd (applyHedgeFromSelection js_eval w (product_change p s))
      = PostHedge (build_payload p (selectedCells s)) :: rest.
Proof.
  intros Hprod Hne.
  assert (H : panel (product_change p s) = panel s
              ∧ selectedCells (product_change p s) = selectedCells s
              ∧ product (product_change p s) = Some p).
  { unfold product_change. destruct (product s); [| contradiction].
    destruct (container _); auto. }
  destruct H as (Hp & Hs & Hpr). split; [exact Hp |]. split; [exact Hs |].
  rewrite (applyHedgeFromSelection_run js_eval w _ p); [| congruence | exact Hpr].
  rewrite Hs. eexists. reflexivity.
Qed.

End ProtocolExtras.

(** *** Among the other handlers *)

Section ConcurrentExtras.

Variable amb : Concurrent.Ambient.

(** X14.  A run that the backend does not accept, on the first submit or
    on the retry, writes nothing to the page, however it fails and
    whatever runs during its awaits: the page it leaves is what the other
    handlers and the evaluated texts made of it.  It fetches no positions,
    logs no confirmation and raises exactly one alert. *)
Theorem hedge_changes_page_only_when_accepted w s prod :
  selectedCells s ≠ [] → product s = Some prod →
  Concurrent.accepted amb w s = None →
  let result := Concurrent.applyHedgeFromSelection amb w s in
  Concurrent.by_others amb s (fst result)
  ∧ fetches (snd result) = []
  ∧ logs (snd result) = []
  ∧ ∃ message, alerts (snd result) = ["Error: " +:+ message].
Proof.
  intros Hne Hprod Hacc result. subst result.
  destruct (run_outcome amb w s prod Hne Hprod)
    as (s0 & before & Hf & Hp & Ha & Hg & Hl & Hrun).
  rewrite Hacc in Hrun. destruct Hrun as [message ->]. cbn [fst snd].
  split; [exact Hf |].
  cbn [fetches logs alerts]. rewrite !fetches_app, !logs_app, !alerts_app, Hg, Hl, Ha.
  destruct (Concurrent.recovered amb w s); cbn; eauto.
Qed.

(** X15.  The hedge is submitted a second time only after a resolved gap:
    a run whose gap is not resolved, or whose first submit fails in any
    other way or is accepted, submits it exactly once, with the payload
    built from the store at the start. *)
Theorem hedge_is_submitted_once_or_twice w s prod :
  selectedCells s ≠ [] → product s = Some prod →
  Concurrent.recovered amb w s = false →
  posts (snd (Concurrent.applyHedgeFromSelection amb w s))
  = [build_payload prod (selectedCells s)].
Proof.
  intros Hne Hprod Hrec.
  destruct (run_outcome amb w s prod Hne Hprod)
    as (s0 & before & Hf & Hp & Ha & Hg & Hl & Hrun).
  rewrite Hrec in Hrun.
  destruct (Concurrent.accepted amb w s) as [data |].
  - rewrite Hrun. cbn [fst snd posts]. rewrite !posts_app, Hp. cbn [posts app].
    destruct (hedge_applied data); reflexivity.
  - destruct Hrun as [message ->]. cbn [fst snd posts].
    rewrite !posts_app, Hp. reflexivity.
Qed.

(** X16.  When the backend accepts the hedge, the run takes the success
    path whatever the body is: it empties the store of the page it finds
    and fetches the positions once.  With a body the confirmation can be
    built from, it logs the confirmation and raises no alert.  With the
    body null, building the confirmation throws: nothing is logged and
    the run ends with one alert carrying the TypeError, as if the hedge
    had failed. *)
Theorem hedge_alerts_once_unless_confirmed w s prod data :
  selectedCells s ≠ [] → product s = Some prod →
  Concurrent.accepted amb w s = Some data →
  let result := Concurrent.applyHedgeFromSelection amb w s in
  ∃ s0,
    Concurrent.by_others amb s s0
    ∧ fst result = fst (Concurrent.refreshed amb w s0)
    ∧ fetches (snd result)
      = [(current_product (clearSelection s0), snd (Concurrent.refreshed amb w s0))]
    ∧ logs (snd result)
      = match hedge_applied data with Some message => [message] | None => [] end
    ∧ alerts (snd result)
      = match hedge_applied data with
        | Some _ => []
        | None => ["Error: " +:+ JS.type_error "hedged_name"]
        end.
Proof.
  intros Hne Hprod Hacc result. subst result.
  destruct (run_outcome amb w s prod Hne Hprod)
    as (s0 & before & Hf & Hp & Ha & Hg & Hl & Hrun).
  rewrite Hacc in Hrun. exists s0. rewrite Hrun. cbn [fst snd].
  split; [exact Hf |]. split; [reflexivity |].
  cbn [fetches logs alerts].
  rewrite !fetches_app, !logs_app, !alerts_app, Hg, Hl, Ha.
  destruct (Concurrent.recovered amb w s); destruct (hedge_applied data);
    repeat split; reflexivity.
Qed.

(** X18.  A rejection whose error is a text other than the two gap kinds
    ends the run at once: the hedge has been submitted once, nothing is
    asked or created, the page is what the other handlers made of it
    during that one request, and the alert shows the text of the backend
    as it is. *)
Theorem other_rejection_is_alerted_verbatim w s prod fields message :
  selectedCells s ≠ [] → product s = Some prod →
  submit w = Response false (JS.VObj fields) →
  JS.assoc "error" fields = JS.VStr message →
  message ≠ "" →
  message ≠ "missing_strategies" →
  message ≠ "missing_hedged_pattern" →
  Concurrent.applyHedgeFromSelection amb w s
  = (Concurrent.meanwhile amb Concurrent.AwaitSubmit s,
     [PostHedge (build_payload prod (selectedCells s));
      Alert ("Error: " +:+ message); ConsoleError message]).
Proof.
  intros Hne Hprod Hsub Herr Hm Hms Hmh.
  rewrite (applyHedgeFromSelection_among amb w s prod Hne Hprod).
  unfold Concurrent.hedge_try. rewrite Hsub.
  assert (Hcl : classify (JS.VObj fields) = OtherFailure).
  { unfold classify. cbn [JS.truthy JS.get default from_option id].
    rewrite Herr. cbn [JS.is_str].
    destruct (String.eqb_spec message "missing_strategies"); [contradiction |].
    destruct (String.eqb_spec message "missing_hedged_pattern"); [contradiction |].
    destruct (JS.assoc "missing" fields); reflexivity. }
  rewrite Hcl. cbn [fst snd]. unfold error_of. cbn [JS.get]. rewrite Herr.
  cbn [JS.truthy JS.to_string].
  destruct (String.eqb_spec message ""); [contradiction |]. reflexivity.
Qed.

(** X19.  The backend refuses the create request of the k-th missing
    name with a JSON object.  The run ends there: the create requests
    issued are those of the names up to that one, the hedge is not
    submitted again, and the one alert shows the error text of the
    backend, or, when the object has no error member, "Failed to create
    strategy" and the name. *)
Theorem refused_create_aborts w s prod data missing k missingName userInput items fields :
  selectedCells s ≠ [] → product s = Some prod →
  submit w = Response false data →
  classify data = MissingStrategies missing →
  missing !! k = Some missingName →
  let body := build_payload prod (selectedCells s) in
  let upto :=
    Concurrent.resolved_upto amb data body w
      (Concurrent.meanwhile amb Concurrent.AwaitSubmit s) k in
  snd upto = None →
  prompts w k = Some userInput →
  fst (fst (Concurrent.js_eval amb userInput
              (snd (fst (fst upto))) (fst (fst (fst upto)))))
  = Some (JS.VArr items) →
  creates w k = Response false (JS.VObj fields) →
  let result := Concurrent.applyHedgeFromSelection amb w s in
  created (snd result) = take (S k) missing
  ∧ posts (snd result) = [body]
  ∧ (∀ e, JS.assoc "error" fields = JS.VStr e → e ≠ "" →
       alerts (snd result) = ["Error: " +:+ e])
  ∧ (JS.assoc "error" fields = JS.VUndefined →
       alerts (snd result)
       = ["Error: Failed to create strategy " +:+ JS.to_string missingName]).
Proof.
  intros Hne Hprod Hsub Hcl Hname body upto Hupto Hu Hev Hcr result.
  subst result upto.
  unfold Concurrent.resolved_upto in *. rewrite Hcl in *. cbn [missing_names] in *.
  rewrite (applyHedgeFromSelection_among amb w s prod Hne Hprod). fold body.
  unfold Concurrent.hedge_try. rewrite Hsub, Hcl.
  destruct (resolve_missing_reaches amb w missing k missingName body _ Hname Hupto)
    as (sk & bodyk & asked & Hpre & Hf & Hc & Hp & Ha & Hg & Hl & Hrun).
  rewrite Hpre in Hev. cbn [fst snd] in Hev.
  unfold Concurrent.missing_strategies. rewrite Hrun.
  cbn [Concurrent.resolve_missing]. rewrite Hu.
  unfold Concurrent.read_pattern.
  destruct (Concurrent.js_eval amb userInput bodyk sk) as [[v body1] s1].
  cbn [fst snd] in Hev. subst v. cbn [JS.isArray]. rewrite Hcr. cbn [fst snd].
  rewrite (take_S_r _ _ _ Hname).
  cbn [created posts alerts].
  rewrite !created_app, !posts_app, !alerts_app, Hc, Hp, Ha. cbn [created posts alerts app].
  rewrite ?app_nil_r.
  split; [reflexivity |]. split; [reflexivity |].
  unfold error_of. cbn [JS.get]. split.
  - intros e He Hne'. rewrite He. cbn [JS.truthy JS.to_string].
    destruct (String.eqb_spec e ""); [contradiction |]. reflexivity.
  - intros He. rewrite He. reflexivity.
Qed.

(** X30.  Whatever runs during its awaits, a run writes to the page only
    through [clearSelection] and the completion of [loadPositions]: a
    property of the page that those two keep, and that the other handlers
    and the evaluated texts keep, still holds when the run ends. *)
Theorem hedge_run_writes_by_clearing_and_loading w s (P : Page → Prop) :
  Concurrent.kept amb P →
  (∀ p, P p → P (clearSelection p)) →
  (∀ prod r p, P p → P (fst (loadPositions_resume prod r p))) →
  P s →
  P (fst (Concurrent.applyHedgeFromSelection amb w s)).
Proof.
  intros Hkept Hclear Hload Hs.
  destruct (selectedCells s) as [| sel l] eqn:Es.
  { unfold Concurrent.applyHedgeFromSelection. rewrite Es. exact Hs. }
  destruct (product s) as [prod |] eqn:Hprod.
  2:{ unfold Concurrent.applyHedgeFromSelection. rewrite Es, Hprod. exact Hs. }
  assert (Hne : selectedCells s ≠ []) by (rewrite Es; discriminate).
  destruct (run_outcome amb w s prod Hne Hprod) as (s0 & before & Hf & _ & _ & _ & _ & Hrun).
  pose proof (Hf P Hkept Hs) as H0.
  destruct (Concurrent.accepted amb w s) as [data |].
  - rewrite Hrun. cbn [fst]. unfold Concurrent.refreshed.
    apply Hload. destruct Hkept as [Hm _]. apply Hm, Hclear, H0.
  - destruct Hrun as [message ->]. exact H0.
Qed.

End ConcurrentExtras.

(** ** Request construction and edits *)

(** X21.  A cell whose lot is a safe integer, selected as the grid shows
    it and not edited, is submitted with the lot the snapshot gave for it:
    the text the cell shows, trimmed and parsed, is that lot again (0 for
    the blank cell of a zero lot). *)
Theorem unedited_cell_submits_its_lot cs row_name idx l id :
  safe_integer l →
  num_lots (value (entry_of id (attach_one (new_cell cs row_name idx l)))) = l.
Proof.
  intros _.
  assert (Ht : cell_text (attach_one (new_cell cs row_name idx l))
               = cell_text (new_cell cs row_name idx l)).
  { unfold attach_one. destruct (String.eqb _ _); reflexivity. }
  cbn [value entry_of]. rewrite Ht. apply num_lots_new_cell.
Qed.

Lemma fmap_alter_insert {A B} (g : A → B) (f : A → A) (l : list A) i x :
  l !! i = Some x → g <$> alter f i l = <[i := g (f x)]> (g <$> l).
Proof.
  revert i. induction l as [| y l IH]; intros [| i] Hi; try discriminate.
  - injection Hi as ->. reflexivity.
  - simpl in *. f_equal. apply (IH i Hi).
Qed.

(** X22.  On every page the script can reach, typing [v] into the i-th
    input of the panel changes the payload of a later submission in one
    place only: the i-th lot becomes the integer parse of [v]; the other
    lots, the structure names and the contracts stay as they were. *)
Theorem edit_changes_one_lot js_eval prod hc hp evs pn i v p :
  let s := run js_eval (initial_page prod hc hp) evs in
  panel s = Some pn →
  (i < length (items pn))%nat →
  lis_num_lots (build_payload p (selectedCells (input i v s)))
  = <[i := num_lots v]> (lis_num_lots (build_payload p (selectedCells s)))
  ∧ lis_structure_names (build_payload p (selectedCells (input i v s)))
    = lis_structure_names (build_payload p (selectedCells s))
  ∧ lis_starting_contracts (build_payload p (selectedCells (input i v s)))
    = lis_starting_contracts (build_payload p (selectedCells s)).
Proof.
  intros s Hp Hi.
  destruct (reached_ok js_eval s) as [_ Hst].
  { exists prod, hc, hp, evs. reflexivity. }
  destruct (lookup_lt_is_Some_2 _ _ Hi) as [it Hit].
  destruct (panel_mirrors _ Hst pn Hp) as [Hnil | Hl].
  { rewrite Hnil in Hi. simpl in Hi. lia. }
  apply (f_equal length) in Hl. rewrite !length_fmap in Hl.
  destruct (lookup_lt_is_Some_2 (selectedCells s) i) as [sel Hsel]; [lia |].
  assert (Hs : selectedCells (input i v s) = alter (set_value v) i (selectedCells s)).
  { unfold input. rewrite Hp, Hit, Hsel. reflexivity. }
  rewrite Hs. unfold build_payload. rewrite !collect_spec.
  cbn [lis_num_lots lis_structure_names lis_starting_contracts app].
  split; [| split].
  - apply (fmap_alter_insert (λ sel, num_lots (value sel)) (set_value v) _ i sel Hsel).
  - rewrite (list_fmap_alter structure (set_value v) id).
    + apply list_alter_id. reflexivity.
    + apply Forall_forall. reflexivity.
  - rewrite (list_fmap_alter contract (set_value v) id).
    + apply list_alter_id. reflexivity.
    + apply Forall_forall. reflexivity.
Qed.

(** ** The change-detection fingerprint *)

(** *** Appending texts *)

Lemma string_app_assoc (a b c : string) : (a +:+ b) +:+ c = a +:+ (b +:+ c).
Proof.
  induction a as [| x a IH]; [reflexivity |].
  change (String x ((a +:+ b) +:+ c) = String x (a +:+ (b +:+ c))).
  f_equal. exact IH.
Qed.

Lemma string_app_inv_head (a b c : string) : a +:+ b = a +:+ c → b = c.
Proof.
  induction a as [| x a IH]; [auto |].
  change (String x (a +:+ b) = String x (a +:+ c) → b = c).
  intros [= H]. auto.
Qed.

Lemma app_String c (a b : string) : String c a +:+ b = String c (a +:+ b).
Proof. reflexivity. Qed.

Lemma string_app_nil_r (a : string) : a +:+ "" = a.
Proof.
  induction a as [| k a IH]; [reflexivity |].
  rewrite app_String, IH. reflexivity.
Qed.

(** *** The fingerprint is the text of the snapshot, member by member *)

Lemma stringify_array (items : list JS.value) (texts : list string) :
  Forall2 (λ v t, JS.stringify v = Some t) items texts →
  JS.stringify (JS.VArr items) = Some ("[" +:+ comma_join texts +:+ "]").
Proof.
  intros H. cbn [JS.stringify]. do 2 f_equal.
  apply (f_equal (λ x, x +:+ "]")).
  induction H as [| v t items texts Hv H IH]; [reflexivity |].
  rewrite Hv. cbn [default from_option id comma_join]. f_equal.
  destruct H as [| v' t' items' texts' Hv' H']; [reflexivity |].
  f_equal. exact IH.
Qed.

Lemma stringify_row (r : Row) : JS.stringify (row_value r) = Some (row_text r).
Proof.
  unfold row_value.
  assert (Hn : JS.stringify (JS.VArr (JS.VNum <$> lots r))
               = Some ("[" +:+ comma_join (JS.string_of_Z <$> lots r) +:+ "]")).
  { apply stringify_array. induction (lots r); constructor; auto. }
  revert Hn. generalize (JS.VArr (JS.VNum <$> lots r)) as v. intros v Hn.
  cbn [JS.stringify]. rewrite Hn. unfold row_text. f_equal.
  rewrite !string_app_assoc. reflexivity.
Qed.

Lemma dataJSON_text (snap : Snapshot) : dataJSON snap = snapshot_text snap.
Proof.
  unfold dataJSON.
  assert (Hc : JS.stringify (JS.VArr (JS.VStr <$> contracts snap))
               = Some ("[" +:+ comma_join (JS.quote <$> contracts snap) +:+ "]")).
  { apply stringify_array. induction (contracts snap); constructor; auto. }
  assert (Hr : JS.stringify (JS.VArr (row_value <$> rows snap))
               = Some ("[" +:+ comma_join (row_text <$> rows snap) +:+ "]")).
  { apply stringify_array. induction (rows snap); constructor; auto using stringify_row. }
  revert Hc Hr.
  generalize (JS.VArr (JS.VStr <$> contracts snap)) as c.
  generalize (JS.VArr (row_value <$> rows snap)) as r. intros r c Hc Hr.
  cbn [JS.stringify]. rewrite Hc, Hr. unfold snapshot_text.
  cbn [default from_option id].
  rewrite !string_app_assoc. reflexivity.
Qed.

(** *** Quoted texts end at their closing quote *)

Lemma unescape_escape_char c r :
  unescape_char (JS.escape_char c +:+ r) = Some (c, r).
Proof.
  destruct c as [[] [] [] [] [] [] [] []]; reflexivity.
Qed.

Lemma escape_char_inj c d x y :
  JS.escape_char c +:+ x = JS.escape_char d +:+ y → c = d ∧ x = y.
Proof.
  intros H. apply (f_equal unescape_char) in H.
  rewrite !unescape_escape_char in H. injection H as -> ->. auto.
Qed.

Lemma escape_inj s : ∀ t x y,
  JS.escape s +:+ JS.dquote +:+ x = JS.escape t +:+ JS.dquote +:+ y → s = t ∧ x = y.
Proof.
  induction s as [| c s IH]; intros [| d t] x y H.
  - apply (string_app_inv_head JS.dquote) in H. auto.
  - apply (f_equal unescape_char) in H. cbn [JS.escape] in H.
    rewrite string_app_assoc, unescape_escape_char in H. discriminate.
  - apply (f_equal unescape_char) in H. cbn [JS.escape] in H.
    rewrite string_app_assoc, unescape_escape_char in H. discriminate.
  - cbn [JS.escape] in H. rewrite !string_app_assoc in H.
    apply escape_char_inj in H as [-> H].
    apply IH in H as [-> ->]. auto.
Qed.

Lemma quote_inj s t x y : JS.quote s +:+ x = JS.quote t +:+ y → s = t ∧ x = y.
Proof.
  unfold JS.quote. rewrite !string_app_assoc. intros H.
  apply string_app_inv_head in H. apply escape_inj. exact H.
Qed.

(** *** The text of an integer ends where the digits end *)

Lemma take_digits_stop c x acc n :
  JS.is_digit c = false → JS.take_digits acc n (String c x) = (acc, n, String c x).
Proof. intros H. simpl. rewrite H. reflexivity. Qed.

Lemma take_digits_acc_then d c x : JS.is_digit c = false → ∀ acc n,
  JS.take_digits (Z.pos acc) n (NilEmpty.string_of_uint d +:+ String c x)
  = (Z.pos (Pos.of_uint_acc d acc), (n + Decimal.nb_digits d)%nat, String c x).
Proof.
  intros Hc.
  induction d; intros acc n;
    cbn [NilEmpty.string_of_uint Pos.of_uint_acc Decimal.nb_digits];
    [change (EmptyString +:+ String c x) with (String c x);
     rewrite take_digits_stop, Nat.add_0_r by exact Hc; reflexivity | ..];
    rewrite app_String; digit_step;
    match goal with
    | |- JS.take_digits ?a _ _ = (Z.pos (Pos.of_uint_acc _ ?b), _, _) =>
        replace a with (Z.pos b) by lia
    end;
    rewrite IHd; do 2 f_equal; lia.
Qed.

Lemma take_digits_uint_then d c x : JS.is_digit c = false → ∀ n,
  JS.take_digits 0 n (NilEmpty.string_of_uint d +:+ String c x)
  = (Z.of_N (Pos.of_uint d), (n + Decimal.nb_digits d)%nat, String c x).
Proof.
  intros Hc.
  induction d; intros n; cbn [NilEmpty.string_of_uint Pos.of_uint Decimal.nb_digits];
    [change (EmptyString +:+ String c x) with (String c x);
     rewrite take_digits_stop, Nat.add_0_r by exact Hc; reflexivity | ..];
    rewrite app_String; digit_step; rewrite Z.mul_0_r, Z.add_0_l;
    [rewrite IHd; do 2 f_equal; lia | ..];
    rewrite take_digits_acc_then by exact Hc; cbn [Z.of_N]; do 2 f_equal; lia.
Qed.

(** [parseInt] reads an integer back from its decimal text whatever
    follows it, as long as that does not start with a digit. *)
Lemma parseInt10_string_of_Z_then z c x :
  JS.is_digit c = false →
  JS.parseInt10 (JS.string_of_Z z +:+ String c x) = Some z.
Proof.
  intros Hc. unfold JS.string_of_Z, JS.parseInt10.
  destruct z as [| p | p]; cbn [Z.to_int NilEmpty.string_of_int].
  - change (NilEmpty.string_of_uint (Decimal.D0 Decimal.Nil) +:+ String c x)
      with (String "0" (String c x)).
    change (JS.trim_start (String "0" ?s)) with (String "0" s). cbv beta iota.
    digit_step. rewrite take_digits_stop by exact Hc. reflexivity.
  - pose proof (DecimalPos.Unsigned.to_uint_nonnil p) as Hnil.
    pose proof (DecimalPos.Unsigned.of_to p) as Hof.
    pose proof (take_digits_uint_then (Pos.to_uint p) c x Hc 0) as Htd.
    destruct (Pos.to_uint p) as [| d | d | d | d | d | d | d | d | d | d];
      [contradiction | ..];
      cbn [NilEmpty.string_of_uint] in *; rewrite app_String in *;
      match goal with
      | |- context [JS.trim_start (String ?k ?s)] =>
          change (JS.trim_start (String k s)) with (String k s)
      end; cbv beta iota; rewrite Htd, Hof; reflexivity.
  - rewrite app_String.
    change (JS.trim_start (String "-" ?s)) with (String "-" s). cbv beta iota.
    pose proof (DecimalPos.Unsigned.to_uint_nonnil p) as Hnil.
    pose proof (DecimalPos.Unsigned.of_to p) as Hof.
    rewrite (take_digits_uint_then (Pos.to_uint p) c x Hc 0), Hof.
    destruct (Pos.to_uint p); [contradiction | ..]; reflexivity.
Qed.

Lemma string_of_Z_inj a b c d x y :
  JS.is_digit c = false → JS.is_digit d = false →
  JS.string_of_Z a +:+ String c x = JS.string_of_Z b +:+ String d y →
  a = b ∧ String c x = String d y.
Proof.
  intros Hc Hd H.
  assert (Hab : a = b).
  { apply (f_equal JS.parseInt10) in H.
    rewrite !parseInt10_string_of_Z_then in H by assumption. congruence. }
  subst b. split; [reflexivity |]. exact (string_app_inv_head _ _ _ H).
Qed.

Lemma string_of_Z_head z x : ∃ k r, JS.string_of_Z z +:+ x = String k r ∧ k ≠ "]"%char.
Proof.
  unfold JS.string_of_Z.
  destruct z as [| p | p]; cbn [Z.to_int NilEmpty.string_of_int].
  - eexists _, _. split; [reflexivity | discriminate].
  - pose proof (DecimalPos.Unsigned.to_uint_nonnil p) as Hnil.
    destruct (Pos.to_uint p); [contradiction | ..];
      (eexists _, _; split; [reflexivity | discriminate]).
  - eexists _, _. split; [reflexivity | discriminate].
Qed.

(** *** Arrays *)

Section Joined.

Context {A : Type} (f : A → string).

Hypothesis f_inj : ∀ a b c d x y,
  (c = ","%char ∨ c = "]"%char) → (d = ","%char ∨ d = "]"%char) →
  f a +:+ String c x = f b +:+ String d y → a = b ∧ String c x = String d y.

Hypothesis f_head : ∀ a x, ∃ k r, f a +:+ x = String k r ∧ k ≠ "]"%char.

Lemma join_cons_then a l x :
  comma_join (f <$> a :: l) +:+ String "]" x
  = f a +:+ match l with
            | [] => String "]" x
            | _ => String "," (comma_join (f <$> l) +:+ String "]" x)
            end.
Proof.
  cbn [fmap list_fmap comma_join]. rewrite string_app_assoc. f_equal.
  destruct l; reflexivity.
Qed.

Lemma join_inj l : ∀ l' x y,
  comma_join (f <$> l) +:+ String "]" x = comma_join (f <$> l') +:+ String "]" y →
  l = l' ∧ x = y.
Proof.
  induction l as [| a l IH]; intros [| b l'] x y H.
  - injection H as ->. auto.
  - rewrite join_cons_then in H.
    destruct (f_head b (match l' with
                        | [] => String "]" y
                        | _ => String "," (comma_join (f <$> l') +:+ String "]" y)
                        end)) as (k & r & Hk & Hne).
    rewrite Hk in H. injection H as <- _. congruence.
  - rewrite join_cons_then in H.
    destruct (f_head a (match l with
                        | [] => String "]" x
                        | _ => String "," (comma_join (f <$> l) +:+ String "]" x)
                        end)) as (k & r & Hk & Hne).
    rewrite Hk in H. injection H as -> _. congruence.
  - rewrite !join_cons_then in H.
    destruct l as [| a' l]; destruct l' as [| b' l'].
    + apply f_inj in H as [-> [= ->]]; auto.
    + apply f_inj in H as [_ [=]]; auto.
    + apply f_inj in H as [_ [=]]; auto.
    + apply f_inj in H as [-> [= H]]; auto.
      change (comma_join (f <$> a' :: l) +:+ String "]" x
              = comma_join (f <$> b' :: l') +:+ String "]" y) in H.
      apply IH in H as [-> ->]. auto.
Qed.

End Joined.

Lemma lots_inj l l' x y :
  comma_join (JS.string_of_Z <$> l) +:+ String "]" x
  = comma_join (JS.string_of_Z <$> l') +:+ String "]" y → l = l' ∧ x = y.
Proof.
  apply join_inj.
  - intros a b c d x' y' [-> | ->] [-> | ->]; apply string_of_Z_inj; reflexivity.
  - apply string_of_Z_head.
Qed.

Lemma row_text_inj r r' x y : row_text r +:+ x = row_text r' +:+ y → r = r' ∧ x = y.
Proof.
  unfold row_text. rewrite !string_app_assoc. intros H.
  apply (string_app_inv_head "{") in H.
  apply (string_app_inv_head (JS.quote "name")) in H.
  apply (string_app_inv_head ":") in H.
  apply quote_inj in H as [Hn H].
  apply (string_app_inv_head ",") in H.
  apply (string_app_inv_head (JS.quote "lots")) in H.
  apply (string_app_inv_head ":[") in H.
  change ("]}" +:+ ?z) with (String "]" (String "}" z)) in H.
  apply lots_inj in H as [Hl [= ->]].
  split; [| reflexivity].
  destruct r, r'; simpl in *; congruence.
Qed.

Lemma contracts_inj l l' x y :
  comma_join (JS.quote <$> l) +:+ String "]" x
  = comma_join (JS.quote <$> l') +:+ String "]" y → l = l' ∧ x = y.
Proof.
  apply join_inj.
  - intros a b c d x' y' _ _. apply quote_inj.
  - intros a x'. eexists _, _. split; [reflexivity | discriminate].
Qed.

Lemma rows_inj l l' x y :
  comma_join (row_text <$> l) +:+ String "]" x
  = comma_join (row_text <$> l') +:+ String "]" y → l = l' ∧ x = y.
Proof.
  apply join_inj.
  - intros a b c d x' y' _ _. apply row_text_inj.
  - intros a x'. eexists _, _. split; [reflexivity | discriminate].
Qed.

Lemma dataJSON_inj a b : dataJSON a = dataJSON b → a = b.
Proof.
  rewrite !dataJSON_text. unfold snapshot_text. intros H.
  apply (string_app_inv_head "{") in H.
  apply (string_app_inv_head (JS.quote "contracts")) in H.
  apply (string_app_inv_head ":[") in H.
  change ("]," +:+ ?z) with (String "]" (String "," z)) in H.
  apply contracts_inj in H as [Hc [= H]].
  change (comma_join (row_text <$> rows a) +:+ String "]" "}"
          = comma_join (row_text <$> rows b) +:+ String "]" "}") in H.
  apply rows_inj in H as [Hr _].
  destruct a, b; simpl in *; congruence.
Qed.

(** X24.  The fingerprint tells snapshots of safe integers apart: with
    the fingerprint of snapshot [a] in the slot, a snapshot [b] that
    differs from [a] in a contract, a row name or a lot is never skipped.
    It is rendered, as the placeholder when it is the empty result and as
    a grid otherwise, and its fingerprint is the one stored afterwards. *)
Theorem short_circuit_only_for_same_snapshot prod a b s :
  container s ≠ None →
  prevDataJSON s = Some (dataJSON a) →
  safe_snapshot a → safe_snapshot b →
  b ≠ a →
  snd (loadPositions_resume prod (PosOk b) s)
  = (if is_nil (contracts b) && is_nil (rows b) then Placeholder else Rendered)
  ∧ prevDataJSON (fst (loadPositions_resume prod (PosOk b) s)) = Some (dataJSON b).
Proof.
  intros Hc Hp _ _ Hab. unfold loadPositions_resume.
  destruct (container s) as [region |]; [| contradiction].
  destruct (bool_decide_reflect (prevDataJSON s = Some (dataJSON b))) as [He | Hne].
  - exfalso. apply Hab, dataJSON_inj. congruence.
  - destruct (is_nil (contracts b) && is_nil (rows b)); auto.
Qed.

(** ** What an edit shows and what it submits *)



















Lemma trim_end_cons k r :
  JS.is_ws k = false → JS.trim_end (String k r) = String k (JS.trim_end r).
Proof. intros H. cbn [JS.trim_end]. destruct (JS.trim_end r); rewrite ?H; reflexivity. Qed.

Lemma trim_end_uint_then d t :
  JS.trim_end (NilEmpty.string_of_uint d +:+ t)
  = NilEmpty.string_of_uint d +:+ JS.trim_end t.
Proof.
  induction d; cbn [NilEmpty.string_of_uint]; [reflexivity | ..];
    rewrite !app_String, trim_end_cons, IHd by reflexivity; reflexivity.
Qed.

Lemma trim_string_of_Z_then z t :
  JS.trim (JS.string_of_Z z +:+ t) = JS.string_of_Z z +:+ JS.trim_end t.
Proof.
  unfold JS.trim.
  assert (Hs : JS.trim_start (JS.string_of_Z z +:+ t) = JS.string_of_Z z +:+ t).
  { destruct (string_of_Z_head z t) as (k & r & Hk & Hne).
    unfold JS.string_of_Z in *.
    destruct z as [| p | p]; cbn [Z.to_int NilEmpty.string_of_int] in *;
      [reflexivity | | reflexivity].
    pose proof (DecimalPos.Unsigned.to_uint_nonnil p) as Hnil.
    destruct (Pos.to_uint p); [contradiction | ..]; reflexivity. }
  rewrite Hs. unfold JS.string_of_Z.
  destruct (Z.to_int z) as [d | d]; cbn [NilEmpty.string_of_int].
  - apply trim_end_uint_then.
  - rewrite !app_String, trim_end_cons by reflexivity.
    rewrite trim_end_uint_then. reflexivity.
Qed.

Lemma trim_end_head c x :
  JS.trim_end (String c x) = EmptyString ∨ ∃ x', JS.trim_end (String c x) = String c x'.
Proof.
  cbn [JS.trim_end]. destruct (JS.trim_end x); [destruct (JS.is_ws c) |]; eauto.
Qed.

(** X26.  The submission reads the leading integer of the text of an entry
    and drops whatever follows it: after the digits of a safe integer, a
    fraction, an exponent or any other text does not change the lot that
    is sent. *)
Theorem typed_suffix_is_not_submitted z c x :
  safe_integer z →
  JS.is_digit c = false →
  num_lots (JS.string_of_Z z +:+ String c x) = z.
Proof.
  intros _ Hc. unfold num_lots. rewrite trim_string_of_Z_then.
  destruct (trim_end_head c x) as [-> | [x' ->]].
  - rewrite string_app_nil_r.
    pose proof (num_lots_string_of_Z z) as H. unfold num_lots in H.
    rewrite trim_string_of_Z in H. exact H.
  - rewrite parseInt10_string_of_Z_then by exact Hc. reflexivity.
Qed.

(** ** The panel and its apply button *)

Lemma renderSelectionPanel_button_ok s : button_ok (renderSelectionPanel s).
Proof.
  unfold button_ok, renderSelectionPanel. intros pn.
  destruct (panel s) as [pn0 |] eqn:Hp; [| rewrite Hp; discriminate].
  destruct (selectedCells s) as [| sel l] eqn:Es.
  - cbn [with_panel panel product selectedCells]. intros [= <-].
    rewrite Es. destruct (product s); [split; [reflexivity | tauto] | reflexivity].
  - destruct (product s) as [p |] eqn:Epr;
      cbn [with_panel panel product selectedCells]; intros [= <-];
      rewrite Epr, ?Es; [| reflexivity].
    cbn [items apply_button length]. split; [f_equal; apply length_fmap |].
    split; discriminate.
Qed.

Lemma clearSelection_button_ok s : button_ok (clearSelection s).
Proof.
  unfold button_ok, clearSelection. cbn [panel product selectedCells]. intros pn.
  destruct (panel s); intros [= <-].
  destruct (product s); [split; [reflexivity | tauto] | reflexivity].
Qed.

Lemma toggleCellSelection_button_ok id s :
  button_ok s → button_ok (toggleCellSelection id s).
Proof.
  intros Hok. unfold toggleCellSelection.
  destruct (panel s); [| exact Hok].
  destruct (elems s !! id); [| exact Hok].
  destruct (findIndex _ _); apply renderSelectionPanel_button_ok.
Qed.

Lemma click_button_ok id ctrlKey s : button_ok s → button_ok (click id ctrlKey s).
Proof.
  intros Hok. unfold click.
  destruct (elems s !! id) as [cell |]; [| exact Hok].
  destruct (cell_clickable cell); [| exact Hok].
  destruct ctrlKey; apply toggleCellSelection_button_ok;
    [exact Hok | apply clearSelection_button_ok].
Qed.

Lemma input_button_ok i v s : button_ok s → button_ok (input i v s).
Proof.
  intros Hok. unfold input.
  destruct (panel s) as [pn |] eqn:Hp; [| exact Hok].
  destruct (items pn !! i); [| exact Hok].
  destruct (selectedCells s !! i) as [sel |] eqn:Hsel; [| exact Hok].
  intros pn' [= <-]. specialize (Hok pn Hp).
  cbn [product selectedCells items apply_button].
  destruct (product s); [| subst pn; reflexivity].
  rewrite !length_alter. destruct Hok as [Hl Hb]. split; [exact Hl |].
  rewrite Hb. split; intros H.
  - rewrite H in Hsel. discriminate.
  - apply (f_equal length) in H. rewrite length_alter in H.
    destruct (selectedCells s); [reflexivity | discriminate].
Qed.

Lemma remove_button_ok i s : button_ok s → button_ok (remove i s).
Proof.
  intros Hok. unfold remove.
  destruct (panel s) as [pn |]; [| exact Hok].
  destruct (items pn !! i); [| exact Hok].
  destruct (selectedCells s !! i); [| exact Hok].
  apply renderSelectionPanel_button_ok.
Qed.

Lemma buildGrid_button_ok cs rws x s : button_ok s → button_ok (buildGrid cs rws x s).
Proof.
  intros Hok. unfold buildGrid.
  destruct (build_rows _ _ _) as [cells body].
  unfold attachCellSelectionHandlers. cbn [panel].
  destruct (panel s) eqn:Hp.
  - intros pn [= <-]. cbn [product selectedCells].
    destruct (product s); [split; [reflexivity | tauto] | reflexivity].
  - intros pn. cbn [panel]. discriminate.
Qed.

Lemma loadPositions_resume_button_ok prod r s :
  button_ok s → button_ok (fst (loadPositions_resume prod r s)).
Proof.
  intros Hok. unfold loadPositions_resume, load_error.
  destruct r as [message | | snap];
    try (destruct (container s); exact Hok).
  destruct (container s) as [region |]; [| exact Hok].
  destruct (bool_decide _); [exact Hok |].
  destruct (is_nil (contracts snap) && is_nil (rows snap)); cbn [fst].
  - exact Hok.
  - apply (buildGrid_button_ok _ _ _ s Hok).
Qed.

Lemma product_change_button_ok p s : button_ok s → button_ok (product_change p s).
Proof.
  intros Hok. unfold product_change.
  destruct (product s) eqn:Epr; [| exact Hok].
  assert (H : button_ok (with_prev None (with_product (Some p) s))).
  { intros pn Hp. specialize (Hok pn Hp). rewrite Epr in Hok. exact Hok. }
  destruct (container _); exact H.
Qed.

Lemma scroll_button_ok x s : button_ok s → button_ok (scroll x s).
Proof.
  intros Hok. unfold scroll.
  destruct (container s) as [[| t | h b y] |]; exact Hok.
Qed.

Lemma run_button_ok js_eval s evs : button_ok s → button_ok (run js_eval s evs).
Proof.
  revert s. induction evs as [| ev evs IH]; intros s Hok; [exact Hok |].
  apply IH. destruct ev as [prod r | id ctrlKey | i v | i | p | x | w]; simpl.
  - apply loadPositions_resume_button_ok, Hok.
  - apply click_button_ok, Hok.
  - apply input_button_ok, Hok.
  - apply remove_button_ok, Hok.
  - apply product_change_button_ok, Hok.
  - apply scroll_button_ok, Hok.
  - destruct (applyHedgeFromSelection_page js_eval w s) as [-> | ->]; [exact Hok |].
    apply loadPositions_resume_button_ok, clearSelection_button_ok.
Qed.

Lemma buildGrid_product cs rws x s : product (buildGrid cs rws x s) = product s.
Proof.
  unfold buildGrid. destruct (build_rows _ _ _) as [cells body].
  unfold attachCellSelectionHandlers. cbn [panel]. destruct (panel s); reflexivity.
Qed.

Lemma loadPositions_resume_product prod r s :
  product (fst (loadPositions_resume prod r s)) = product s.
Proof.
  unfold loadPositions_resume, load_error.
  destruct r as [message | | snap]; try (destruct (container s); reflexivity).
  destruct (container s) as [region |]; [| reflexivity].
  destruct (bool_decide _); [reflexivity |].
  destruct (is_nil (contracts snap) && is_nil (rows snap)); cbn [fst];
    [reflexivity |].
  apply buildGrid_product.
Qed.

Lemma toggleCellSelection_product id s : product (toggleCellSelection id s) = product s.
Proof.
  unfold toggleCellSelection.
  destruct (panel s); [| reflexivity].
  destruct (elems s !! id); [| reflexivity].
  destruct (findIndex _ _);
    match goal with
    | |- context [renderSelectionPanel ?t] =>
        destruct (renderSelectionPanel_fields t) as (_ & _ & _ & _ & -> & _)
    end; reflexivity.
Qed.

(** The product selector is there for good or never: no event adds or
    removes it. *)
Lemma step_product js_eval s ev :
  product (step js_eval s ev) = None ↔ product s = None.
Proof.
  destruct ev as [prod r | id ctrlKey | i v | i | p | x | w]; cbn [step].
  - rewrite loadPositions_resume_product. reflexivity.
  - unfold click. destruct (elems s !! id) as [cell |]; [| reflexivity].
    destruct (cell_clickable cell); [| reflexivity].
    rewrite toggleCellSelection_product. destruct ctrlKey; reflexivity.
  - unfold input. destruct (panel s) as [pn |]; [| reflexivity].
    destruct (items pn !! i); [| reflexivity].
    destruct (selectedCells s !! i); reflexivity.
  - unfold remove. destruct (panel s) as [pn |]; [| reflexivity].
    destruct (items pn !! i); [| reflexivity].
    destruct (selectedCells s !! i); [| reflexivity].
    match goal with
    | |- context [renderSelectionPanel ?t] =>
        destruct (renderSelectionPanel_fields t) as (_ & _ & _ & _ & -> & _)
    end. reflexivity.
  - unfold product_change. destruct (product s) eqn:Epr; [| rewrite Epr; reflexivity].
    destruct (container _); cbn; split; discriminate.
  - unfold scroll. destruct (container s) as [[| t | h b y] |]; reflexivity.
  - destruct (applyHedgeFromSelection_page js_eval w s) as [-> | ->]; [reflexivity |].
    unfold loadPositions. rewrite loadPositions_resume_product. reflexivity.
Qed.

Lemma run_product js_eval s evs :
  product (run js_eval s evs) = None ↔ product s = None.
Proof.
  revert s. induction evs as [| ev evs IH]; intros s; [reflexivity |].
  cbn [run foldl]. fold (run js_eval (step js_eval s ev) evs).
  rewrite IH. apply step_product.
Qed.

Lemma initial_page_button_ok prod hc hp : button_ok (initial_page prod hc hp).
Proof.
  intros pn. cbn [initial_page panel product selectedCells].
  destruct hp; intros [= <-].
  destruct prod; [split; [reflexivity | tauto] | reflexivity].
Qed.

(** X27.  On every page the script can reach with a product selector, the
    panel has one item per entry of the store and shows the apply button
    exactly when the store is not empty.  A click on the button therefore
    never finds an empty store: every such run submits the hedge, for the
    product the selector shows at that moment. *)
Theorem apply_button_iff_store_nonempty js_eval prod hc hp evs pn :
  let s := run js_eval (initial_page (Some prod) hc hp) evs in
  panel s = Some pn →
  length (items pn) = length (selectedCells s)
  ∧ (apply_button pn = None ↔ selectedCells s = [])
  ∧ (apply_button pn ≠ None →
     ∀ w, ∃ rest,
       snd (applyHedgeFromSelection js_eval w s)
       = PostHedge (build_payload (current_product s) (selectedCells s)) :: rest).
Proof.
  intros s Hp.
  pose proof (run_button_ok js_eval _ evs (initial_page_button_ok (Some prod) hc hp)
                pn Hp) as Hok.
  fold s in Hok.
  destruct (product s) as [p |] eqn:Epr.
  2:{ apply run_product in Epr. discriminate. }
  destruct Hok as [Hl Hb]. split; [exact Hl |]. split; [exact Hb |].
  intros Hbtn w.
  assert (Hne : selectedCells s ≠ []) by tauto.
  rewrite (applyHedgeFromSelection_run js_eval w s p Hne Epr).
  unfold current_product. rewrite Epr. eexists. reflexivity.
Qed.

(** X28.  Without a product selector the panel never shows an item or the
    apply button, whatever is clicked or loaded: building the label of the
    button fails after the panel has been emptied. *)
Theorem no_selector_no_panel js_eval hc hp evs :
  let s := run js_eval (initial_page None hc hp) evs in
  product s = None ∧ (panel s = None ∨ panel s = Some empty_panel).
Proof.
  intros s.
  assert (Hprod : product s = None) by (apply run_product; reflexivity).
  split; [exact Hprod |].
  pose proof (run_button_ok js_eval _ evs (initial_page_button_ok None hc hp)) as Hok.
  fold s in Hok. unfold button_ok in Hok. rewrite Hprod in Hok.
  destruct (panel s) as [pn |]; [right | left; reflexivity].
  rewrite (Hok pn eq_refl). reflexivity.
Qed.

(** ** Poll loop *)

Module PollMore.
Import Poll.

Lemma tick_in_flight l :
  (0 < length (List.filter is_tick l))%nat → ∃ k, l !! k = Some Tick.
Proof.
  induction l as [| o l IH]; simpl; [lia |].
  destruct o; simpl; intros H;
    try (destruct (IH H) as [k Hk]; exists (S k); exact Hk).
  exists 0%nat. reflexivity.
Qed.

(** The guard goes up only in an interval callback, so only once an
    interval is registered. *)
Lemma timer_before_guard sgs :
  isLoading (run sgs) = true → (1 ≤ intervals (run sgs))%nat.
Proof.
  unfold run.
  assert (H : ∀ l, (isLoading l = true → (1 ≤ intervals l)%nat) →
                   isLoading (foldl step l sgs) = true →
                   (1 ≤ intervals (foldl step l sgs))%nat).
  { induction sgs as [| sg sgs IH]; intros l Hl; [exact Hl |].
    apply IH. destruct sg as [| k | |]; simpl; try exact Hl.
    - destruct (intervals l) eqn:En; [rewrite En; exact Hl |].
      destruct (isLoading l) eqn:El; simpl; [rewrite El, En |]; lia.
    - destruct (in_flight l !! k) as [o |]; [| exact Hl].
      destruct o; simpl; try exact Hl; intros H; try discriminate.
      specialize (Hl H). lia. }
  apply H. discriminate.
Qed.

(** X23.  The guard never stays up for good: whenever [_isLoading] is
    true, the request of a tick is in flight, and when that request
    settles, with a snapshot or with a failure, the guard is down again
    and the next tick is served. *)
Theorem guard_is_released_by_its_request sgs :
  let l := run sgs in
  isLoading l = true →
  ∃ k,
    in_flight l !! k = Some Tick
    ∧ isLoading (step l (Completes k)) = false
    ∧ in_flight (step (step l (Completes k)) TimerFires)
      = delete k (in_flight l) ++ [Tick].
Proof.
  intros l Hl.
  destruct (PollFacts.guarded_run sgs) as [Ht Hi]. fold l in Ht, Hi.
  rewrite Hl in Ht.
  destruct (tick_in_flight (in_flight l)) as [k Hk].
  { unfold ticks in Ht. lia. }
  exists k. split; [exact Hk |].
  pose proof (timer_before_guard sgs Hl) as Hint. fold l in Hint.
  cbn [step]. rewrite Hk. cbn [resume isLoading intervals in_flight].
  split; [reflexivity |].
  destruct (intervals l); [lia | reflexivity].
Qed.

Lemma first_in_flight l :
  (0 < length (List.filter is_first l))%nat ↔ FirstLoad ∈ l.
Proof.
  induction l as [| o l IH]; simpl.
  - split; [lia | intros H; inversion H].
  - destruct o; simpl; rewrite ?IH; split; intros H;
      try (apply list_elem_of_further; exact H);
      try (apply elem_of_cons in H as [H | H]; [discriminate | exact H]);
      try lia.
    apply list_elem_of_here.
Qed.

(** X29.  The poll interval is registered when the first call of
    [loadPositions] returns, not before and not again: while that call is
    pending no interval exists and a timer tick does nothing, and its
    completion registers the one interval. *)
Theorem polling_starts_when_first_load_returns sgs :
  let l := run sgs in
  (FirstLoad ∈ in_flight l ↔ intervals l = 0%nat)
  ∧ (FirstLoad ∈ in_flight l → step l TimerFires = l)
  ∧ ∀ k, in_flight l !! k = Some FirstLoad →
         intervals (step l (Completes k)) = 1%nat
         ∧ FirstLoad ∉ in_flight (step l (Completes k)).
Proof.
  intros l. destruct (PollFacts.guarded_run sgs) as [_ Hi]. fold l in Hi.
  unfold firsts in Hi.
  assert (Hiff : FirstLoad ∈ in_flight l ↔ intervals l = 0%nat).
  { rewrite <- first_in_flight. lia. }
  split; [exact Hiff |]. split.
  - intros H. apply Hiff in H. cbn [step]. rewrite H. reflexivity.
  - intros k Hk.
    assert (H0 : intervals l = 0%nat).
    { apply Hiff, (list_elem_of_lookup_2 _ _ _ Hk). }
    destruct (PollFacts.guarded_run (sgs ++ [Completes k])) as [_ Hi'].
    unfold run in Hi'. rewrite foldl_app in Hi'. cbn [foldl] in Hi'.
    fold (run sgs) in Hi'. fold l in Hi'.
    assert (Hint : intervals (step l (Completes k)) = 1%nat).
    { cbn [step]. rewrite Hk. cbn [resume intervals]. rewrite H0. reflexivity. }
    split; [exact Hint |].
    rewrite <- first_in_flight. unfold firsts in Hi'. lia.
Qed.

End PollMore.

(** ** Concrete runs of the further properties *)

Module MoreRuns.
Import Sample SampleAmbients.

Definition evs_edited : list Event :=
  [Loaded "CL" (PosOk snap); Click 0 false; Input 0 "7"].

Definition cell_a : Cell := attach_one (new_cell ["Z5"] "A" 0 5).

Definition shown : Page := run Literal.eval page0 [Loaded "CL" (PosOk snap)].

Lemma panel_lists_the_store_witness :
  let s := run Literal.eval (initial_page (Some "CL") true true) evs_edited in
  let pn := {| items := [{| item_label := "A — Z5"; item_input := "7" |}];
               apply_button := Some "Apply Hedge (CL)" |} in
  items pn = []
  ∨ (item_label <$> items pn
     = (λ sel, structure sel +:+ " — " +:+ contract sel) <$> selectedCells s
     ∧ length (items pn) = length (selectedCells s)).
Proof.
  apply (panel_lists_the_store Literal.eval (Some "CL") true true evs_edited).
  reflexivity.
Defined.

Lemma plain_click_selects_only_that_cell_witness :
  selectedCells (click 0 false edited) = [entry_of 0 (set_selected true (edited_span "7" cell_a))]
  ∧ cell_selected <$> elems (click 0 false edited) !! 0%nat = Some true.
Proof.
  apply (plain_click_selects_only_that_cell 0 edited).
  - vm_compute. discriminate.
  - reflexivity.
  - reflexivity.
Defined.

Lemma ctrl_click_twice_restores_store_witness :
  selectedCells (click 0 true shown) = selectedCells shown ++ [entry_of 0 cell_a]
  ∧ selectedCells (click 0 true (click 0 true shown)) = selectedCells shown
  ∧ cell_selected <$> elems (click 0 true (click 0 true shown)) !! 0%nat = Some false.
Proof.
  apply (ctrl_click_twice_restores_store 0 shown cell_a).
  - vm_compute. discriminate.
  - reflexivity.
  - reflexivity.
  - reflexivity.
Defined.

Lemma ctrl_click_on_selected_removes_it_witness :
  let s := run Literal.eval (initial_page (Some "CL") true true) evs_edited in
  let cell := set_selected true (edited_span "7" cell_a) in
  selectedCells (click 0 true s) = delete 0%nat (selectedCells s)
  ∧ (cell_key cell ∉ key <$> selectedCells (click 0 true s))
  ∧ S (length (selectedCells (click 0 true s))) = length (selectedCells s).
Proof.
  apply (ctrl_click_on_selected_removes_it Literal.eval (Some "CL") true true
           evs_edited 0 (set_selected true (edited_span "7" cell_a)) 0).
  - reflexivity.
  - reflexivity.
  - reflexivity.
Defined.

Lemma remove_button_deletes_its_entry_witness :
  let s := run Literal.eval (initial_page (Some "CL") true true) evs_edited in
  ∃ sel,
    selectedCells s !! 0%nat = Some sel
    ∧ selectedCells (remove 0 s) = delete 0%nat (selectedCells s)
    ∧ elems (remove 0 s) = alter (set_selected false) (element sel) (elems s).
Proof.
  apply (remove_button_deletes_its_entry Literal.eval (Some "CL") true true evs_edited
           {| items := [{| item_label := "A — Z5"; item_input := "7" |}];
              apply_button := Some "Apply Hedge (CL)" |} 0).
  - reflexivity.
  - simpl. lia.
Defined.

Lemma failed_request_hides_unchanged_grid_witness :
  let s1 := fst (loadPositions_resume "CL" PosNotOk edited) in
  container s1 = Some (Message ("Error loading data: " +:+ "Network response was not ok"))
  ∧ prevDataJSON s1 = prevDataJSON edited
  ∧ selectedCells s1 = selectedCells edited
  ∧ panel s1 = panel edited
  ∧ loadPositions_resume "CL" (PosOk snap) s1 = (s1, Unchanged).
Proof.
  apply (failed_request_hides_unchanged_grid "CL" "CL" PosNotOk snap edited).
  - vm_compute. discriminate.
  - reflexivity.
  - intros sn. discriminate.
Defined.

Lemma product_change_forces_next_render_witness :
  let s1 := product_change "HO" edited in
  product s1 = Some "HO"
  ∧ container s1 = Some (Message "Loading…")
  ∧ selectedCells s1 = selectedCells edited
  ∧ panel s1 = panel edited
  ∧ snd (loadPositions_resume "HO" (PosOk snap) s1)
    = (if is_nil (contracts snap) && is_nil (rows snap)
       then Placeholder else Rendered).
Proof.
  apply (product_change_forces_next_render "HO" "HO" snap edited).
  - vm_compute. discriminate.
  - vm_compute. discriminate.
Defined.

Lemma rendered_grid_keeps_scroll_offset_witness :
  ∃ body,
    container (fst (loadPositions_resume "CL" (PosOk snap_total) (scroll 40 edited)))
    = Some (Grid (contracts snap_total) body 40).
Proof.
  apply (rendered_grid_keeps_scroll_offset "CL" snap_total (scroll 40 edited)
           (Grid ["Z5"] [("A", [0%nat])] 40)).
  - reflexivity.
  - vm_compute. discriminate.
  - reflexivity.
Defined.

Lemma rendered_cell_of_lot_witness :
  ∃ body ids id c,
    container (buildGrid ["Z5"] (rows snap_total) 0 page0) = Some (Grid ["Z5"] body 0)
    ∧ body !! 0%nat = Some ("Total", ids)
    ∧ ids !! 0%nat = Some id
    ∧ elems (buildGrid ["Z5"] (rows snap_total) 0 page0) !! id = Some c
    ∧ cell_structure c = "Total"
    ∧ cell_contract c = default "" (["Z5"] !! 0%nat)
    ∧ (safe_integer 5 → cell_text c = (if 5 =? 0 then "" else JS.string_of_Z 5))
    ∧ cell_selected c = false
    ∧ cell_clickable c = negb (String.eqb "Total" "Total")
    ∧ cell_disabled c = String.eqb "Total" "Total".
Proof.
  apply (rendered_cell_of_lot ["Z5"] (rows snap_total) 0 page0 0
           {| name := "Total"; lots := [5] |} 0 5).
  - vm_compute. discriminate.
  - reflexivity.
  - reflexivity.
Defined.

(** The backend accepts with the body null. *)
Definition accepts_null : World :=
  {| submit := Response true JS.VNull; prompts := λ _, None;
     creates := λ _, created_ok; retry := Rejected "unused";
     refresh := PosOk snap |}.

Lemma create_requests_follow_missing_names_witness :
  let w := gap (λ k, match k with O => Some "[1,-1]" | S _ => None end) refused in
  created (snd (applyHedgeFromSelection Literal.eval w edited))
    `prefix_of` [JS.VStr "X"; JS.VStr "Y"]
  ∧ (recovered Literal.eval w = true →
       created (snd (applyHedgeFromSelection Literal.eval w edited))
       = [JS.VStr "X"; JS.VStr "Y"]).
Proof.
  apply (create_requests_follow_missing_names Literal.eval
           (gap (λ k, match k with O => Some "[1,-1]" | S _ => None end) refused)
           edited "CL" missing_xy).
  - vm_compute. discriminate.
  - reflexivity.
  - reflexivity.
  - reflexivity.
Defined.

Lemma hedge_after_product_change_uses_new_product_witness :
  panel (product_change "HO" edited) = panel edited
  ∧ selectedCells (product_change "HO" edited) = selectedCells edited
  ∧ ∃ rest,
      snd (applyHedgeFromSelection Literal.eval accepts (product_change "HO" edited))
      = PostHedge (build_payload "HO" (selectedCells edited)) :: rest.
Proof.
  apply (hedge_after_product_change_uses_new_product Literal.eval accepts "HO" edited).
  - vm_compute. discriminate.
  - vm_compute. discriminate.
Defined.

Lemma edit_changes_one_lot_witness :
  let s := run Literal.eval (initial_page (Some "CL") true true) evs_edited in
  lis_num_lots (build_payload "CL" (selectedCells (input 0 "-3" s)))
  = <[0%nat := num_lots "-3"]> (lis_num_lots (build_payload "CL" (selectedCells s)))
  ∧ lis_structure_names (build_payload "CL" (selectedCells (input 0 "-3" s)))
    = lis_structure_names (build_payload "CL" (selectedCells s))
  ∧ lis_starting_contracts (build_payload "CL" (selectedCells (input 0 "-3" s)))
    = lis_starting_contracts (build_payload "CL" (selectedCells s)).
Proof.
  apply (edit_changes_one_lot Literal.eval (Some "CL") true true evs_edited
           {| items := [{| item_label := "A — Z5"; item_input := "7" |}];
              apply_button := Some "Apply Hedge (CL)" |} 0 "-3" "CL").
  - reflexivity.
  - simpl. lia.
Defined.

Lemma guard_is_released_by_its_request_witness :
  let l := Poll.run [Poll.Completes 0; Poll.ProductChanged; Poll.TimerFires] in
  ∃ k,
    Poll.in_flight l !! k = Some Poll.Tick
    ∧ Poll.isLoading (Poll.step l (Poll.Completes k)) = false
    ∧ Poll.in_flight (Poll.step (Poll.step l (Poll.Completes k)) Poll.TimerFires)
      = delete k (Poll.in_flight l) ++ [Poll.Tick].
Proof.
  apply (PollMore.guard_is_released_by_its_request
           [Poll.Completes 0; Poll.ProductChanged; Poll.TimerFires]).
  reflexivity.
Defined.


Lemma apply_button_iff_store_nonempty_witness :
  let s := run Literal.eval (initial_page (Some "CL") true true) evs_edited in
  let pn := {| items := [{| item_label := "A — Z5"; item_input := "7" |}];
               apply_button := Some "Apply Hedge (CL)" |} in
  length (items pn) = length (selectedCells s)
  ∧ (apply_button pn = None ↔ selectedCells s = [])
  ∧ (apply_button pn ≠ None →
     ∀ w, ∃ rest,
       snd (applyHedgeFromSelection Literal.eval w s)
       = PostHedge (build_payload (current_product s) (selectedCells s)) :: rest).
Proof.
  apply (apply_button_iff_store_nonempty Literal.eval "CL" true true evs_edited).
  reflexivity.
Defined.

Lemma hedge_changes_page_only_when_accepted_witness :
  let result :=
    Concurrent.applyHedgeFromSelection busy (gap (λ _, Some "[1,-1]") refused) edited in
  Concurrent.by_others busy edited (fst result)
  ∧ fetches (snd result) = []
  ∧ logs (snd result) = []
  ∧ ∃ message, alerts (snd result) = ["Error: " +:+ message].
Proof.
  apply (hedge_changes_page_only_when_accepted busy (gap (λ _, Some "[1,-1]") refused)
           edited "CL").
  - vm_compute. discriminate.
  - reflexivity.
  - reflexivity.
Defined.

Lemma hedge_is_submitted_once_or_twice_witness :
  posts (snd (Concurrent.applyHedgeFromSelection busy (gap (λ _, None) refused) edited))
  = [build_payload "CL" (selectedCells edited)].
Proof.
  apply (hedge_is_submitted_once_or_twice busy (gap (λ _, None) refused) edited "CL").
  - vm_compute. discriminate.
  - reflexivity.
  - reflexivity.
Defined.

Lemma hedge_alerts_once_unless_confirmed_witness :
  ∃ s0,
    Concurrent.by_others busy edited s0
    ∧ fst (Concurrent.applyHedgeFromSelection busy accepts_null edited)
      = fst (Concurrent.refreshed busy accepts_null s0)
    ∧ alerts (snd (Concurrent.applyHedgeFromSelection busy accepts_null edited))
      = ["Error: " +:+ JS.type_error "hedged_name"].
Proof.
  destruct (hedge_alerts_once_unless_confirmed busy accepts_null edited "CL" JS.VNull)
    as (s0 & Hf & Hpage & _ & _ & Ha).
  - vm_compute. discriminate.
  - reflexivity.
  - reflexivity.
  - exists s0. auto.
Defined.

Definition rejects : World :=
  {| submit := refused; prompts := λ _, None; creates := λ _, created_ok;
     retry := Rejected "unused"; refresh := PosOk snap |}.

Lemma other_rejection_is_alerted_verbatim_witness :
  Concurrent.applyHedgeFromSelection busy rejects edited
  = (Concurrent.meanwhile busy Concurrent.AwaitSubmit edited,
     [PostHedge (build_payload "CL" (selectedCells edited));
      Alert ("Error: " +:+ "limit exceeded"); ConsoleError "limit exceeded"]).
Proof.
  apply (other_rejection_is_alerted_verbatim busy rejects edited "CL"
           [("error", JS.VStr "limit exceeded")] "limit exceeded").
  - vm_compute. discriminate.
  - reflexivity.
  - reflexivity.
  - reflexivity.
  - discriminate.
  - discriminate.
  - discriminate.
Defined.

(** The second create request is refused without a reason. *)
Definition second_refused : World :=
  {| submit := Response false missing_xy;
     prompts := λ _, Some "[1,-1]";
     creates := λ k, match k with O => created_ok | S _ => Response false (JS.VObj []) end;
     retry := Rejected "unused";
     refresh := PosOk snap |}.

Lemma refused_create_aborts_witness :
  let result := Concurrent.applyHedgeFromSelection busy second_refused edited in
  created (snd result) = [JS.VStr "X"; JS.VStr "Y"]
  ∧ posts (snd result) = [build_payload "CL" (selectedCells edited)]
  ∧ alerts (snd result) = ["Error: Failed to create strategy Y"].
Proof.
  destruct (refused_create_aborts busy second_refused edited "CL" missing_xy
              [JS.VStr "X"; JS.VStr "Y"] 1 (JS.VStr "Y") "[1,-1]"
              [JS.VNum 1; JS.VNum (-1)] [])
    as (Hc & Hp & _ & Ha).
  - vm_compute. discriminate.
  - reflexivity.
  - reflexivity.
  - reflexivity.
  - reflexivity.
  - reflexivity.
  - reflexivity.
  - reflexivity.
  - reflexivity.
  - split; [exact Hc |]. split; [exact Hp |]. apply Ha. reflexivity.
Defined.

Lemma unedited_cell_submits_its_lot_witness :
  num_lots (value (entry_of 0 (attach_one (new_cell ["Z5"] "A" 0 (-12))))) = -12.
Proof.
  apply (unedited_cell_submits_its_lot ["Z5"] "A" 0 (-12) 0).
  unfold safe_integer. simpl. lia.
Defined.

Lemma short_circuit_only_for_same_snapshot_witness :
  snd (loadPositions_resume "CL" (PosOk snap_total) edited)
  = (if is_nil (contracts snap_total) && is_nil (rows snap_total)
     then Placeholder else Rendered)
  ∧ prevDataJSON (fst (loadPositions_resume "CL" (PosOk snap_total) edited))
    = Some (dataJSON snap_total).
Proof.
  apply (short_circuit_only_for_same_snapshot "CL" snap snap_total edited).
  - vm_compute. discriminate.
  - reflexivity.
  - repeat constructor; unfold safe_integer; simpl; lia.
  - repeat constructor; unfold safe_integer; simpl; lia.
  - discriminate.
Defined.

Lemma typed_suffix_is_not_submitted_witness :
  num_lots (JS.string_of_Z 12 +:+ String "." "75") = 12.
Proof.
  apply (typed_suffix_is_not_submitted 12 "." "75").
  - unfold safe_integer. simpl. lia.
  - reflexivity.
Defined.

Lemma hedge_run_writes_by_clearing_and_loading_witness :
  store_ok (fst (Concurrent.applyHedgeFromSelection busy accepts edited)).
Proof.
  apply (hedge_run_writes_by_clearing_and_loading busy accepts edited store_ok).
  - split.
    + intros [] p Hp; cbn [Concurrent.meanwhile busy]; try exact Hp.
      apply loadPositions_resume_store_ok, Hp.
    + intros userInput body p Hp. exact Hp.
  - intros p _. apply clearSelection_store_ok.
  - intros prod r p Hp. apply loadPositions_resume_store_ok, Hp.
  - apply (run_store_ok Literal.eval), initial_page_store_ok.
Defined.

End MoreRuns.
